(** * validb: a shallow embedding of the schema engine, the collection
    engine and the reference JSON adapter, with the properties of the
    specification stated and settled against it.

    Layout: the model first (JavaScript values, Schema.ts,
    dataCryptography.ts, secureJSON.adapter.ts, Collection.ts,
    Database.ts, concrete data), then the vocabulary of the statements,
    then the theorems.

    Modelling conventions, used throughout:
    - a number held by a value is an integer ([Z]); fractions, NaN and the
      infinities are outside the model of values.  The model agrees with
      the platform on the safe integers, of magnitude at most 2^53 - 1:
      JSON.stringify writes them in plain decimal digits and JSON.parse
      reads them back as they are, and the statements on JSON texts are
      about such numbers.  The number that a string is converted to in a
      comparison is the double that the platform computes;
    - a JavaScript string is a Rocq [string]; the model is exact for
      ASCII text, for which the UTF-8 encoding of a string is the string;
    - an object is the list of its own enumerable properties in
      enumeration order; a well-formed object has pairwise distinct keys
      and no key that is a canonical array index;
    - reading a property reads an own property: the members that a value
      inherits from its prototype are not values of the model, and the
      statements that read keys chosen by a schema are about keys that
      name no such member;
    - a thrown exception is the [Throw] result. *)

From Stdlib Require Import List String Ascii ZArith Bool Btauto Lia Decimal.
From Stdlib.Strings Require Import Byte.
From Stdlib Require DecimalFacts DecimalPos DecimalN.
From Stdlib Require Import Permutation Sorted.
Import ListNotations.
Open Scope list_scope.
Open Scope string_scope.
Set Warnings "-register-all".

(** ** Exceptions and results *)

Inductive exn : Type :=
| TypeError                 (* thrown by the runtime: property of null, not a function *)
| SyntaxError               (* thrown by JSON.parse *)
| IOError                   (* thrown by readFileSync on a missing file *)
| Error (message : string). (* thrown by the program: new Error(message) *)

Inductive result (A : Type) : Type :=
| Ok (a : A)
| Throw (e : exn).
Arguments Ok {A} a.
Arguments Throw {A} e.

Definition bind {A B : Type} (m : result A) (k : A -> result B) : result B :=
  match m with
  | Ok a => k a
  | Throw e => Throw e
  end.

Notation "x <- m ;; k" := (bind m (fun x => k))
  (at level 61, m at next level, right associativity).

(** Array.prototype.every and Array.prototype.some with a callback that may
    throw: both stop at the first deciding element. *)
Fixpoint every {A : Type} (f : A -> result bool) (l : list A) : result bool :=
  match l with
  | [] => Ok true
  | x :: rest => b <- f x ;; if b then every f rest else Ok false
  end.

Fixpoint some {A : Type} (f : A -> result bool) (l : list A) : result bool :=
  match l with
  | [] => Ok false
  | x :: rest => b <- f x ;; if b then Ok true else some f rest
  end.

(** Array.prototype.forEach with a callback that may throw. *)
Fixpoint forEach {A : Type} (f : A -> result unit) (l : list A) : result unit :=
  match l with
  | [] => Ok tt
  | x :: rest => _ <- f x ;; forEach f rest
  end.

(** ** Text helpers *)

Definition dquote : string := String (ascii_of_nat 34) "".

Fixpoint string_rev_onto (s acc : string) : string :=
  match s with
  | EmptyString => acc
  | String c rest => string_rev_onto rest (String c acc)
  end.

Definition string_rev (s : string) : string := string_rev_onto s "".

Fixpoint string_repeat (c : ascii) (n : nat) : string :=
  match n with
  | O => ""
  | S k => String c (string_repeat c k)
  end.

(** String.prototype.padStart(width, "0") and padEnd(width, "0"). *)
Definition padStart0 (width : nat) (s : string) : string :=
  string_repeat "0"%char (width - String.length s) ++ s.

Definition padEnd0 (width : nat) (s : string) : string :=
  s ++ string_repeat "0"%char (width - String.length s).

Definition digit_char (d : nat) : ascii := ascii_of_nat (48 + d).

Fixpoint string_of_uint (d : uint) : string :=
  match d with
  | Nil => ""
  | D0 d => String "0" (string_of_uint d)
  | D1 d => String "1" (string_of_uint d)
  | D2 d => String "2" (string_of_uint d)
  | D3 d => String "3" (string_of_uint d)
  | D4 d => String "4" (string_of_uint d)
  | D5 d => String "5" (string_of_uint d)
  | D6 d => String "6" (string_of_uint d)
  | D7 d => String "7" (string_of_uint d)
  | D8 d => String "8" (string_of_uint d)
  | D9 d => String "9" (string_of_uint d)
  end.

(** Number.prototype.toString() of an integer: decimal digits, a leading
    minus sign for a negative number. *)
Definition string_of_N (n : N) : string := string_of_uint (N.to_uint n).

Definition string_of_nat (n : nat) : string := string_of_N (N.of_nat n).

Definition string_of_Z (z : Z) : string :=
  match z with
  | Z0 => "0"
  | Zpos p => string_of_N (Npos p)
  | Zneg p => String "-" (string_of_N (Npos p))
  end.

Definition hex_char (d : N) : ascii :=
  if (d <? 10)%N then ascii_of_N (48 + d) else ascii_of_N (87 + d).

Fixpoint hex_onto (fuel : nat) (n : N) (acc : string) : string :=
  match fuel with
  | O => acc
  | S k =>
      let acc' := String (hex_char (n mod 16)) acc in
      if (n <? 16)%N then acc' else hex_onto k (n / 16) acc'
  end.

(** Number.prototype.toString(16) of an integer. *)
Definition hex_of_N (n : N) : string := hex_onto (S (N.to_nat (N.log2 n))) n "".

Definition hex_of_Z (z : Z) : string :=
  match z with
  | Zneg p => String "-" (hex_of_N (Npos p))
  | _ => hex_of_N (Z.to_N z)
  end.

Definition is_digit (c : ascii) : bool :=
  let n := nat_of_ascii c in ((48 <=? n) && (n <=? 57))%nat.

Definition digit_value (c : ascii) : Z := Z.of_nat (nat_of_ascii c - 48).

(** The value of a non-empty string of decimal digits. *)
Fixpoint digits_value (s : string) (acc : Z) : option Z :=
  match s with
  | EmptyString => Some acc
  | String c rest =>
      if is_digit c then digits_value rest (10 * acc + digit_value c)%Z else None
  end.

Definition is_ws (c : ascii) : bool :=
  let n := nat_of_ascii c in
  ((9 <=? n) && (n <=? 13) || (n =? 32) || (n =? 160))%nat.

Fixpoint trim_left (s : string) : string :=
  match s with
  | String c rest => if is_ws c then trim_left rest else s
  | EmptyString => ""
  end.

Definition trim (s : string) : string :=
  string_rev (trim_left (string_rev (trim_left s))).

(** [is_prefix p s]: String.prototype.startsWith. *)
Fixpoint is_prefix (p s : string) : bool :=
  match p, s with
  | EmptyString, _ => true
  | String a p', String b s' => Ascii.eqb a b && is_prefix p' s'
  | String _ _, EmptyString => false
  end.

(** String.prototype.includes. *)
Fixpoint is_substring (p s : string) : bool :=
  is_prefix p s ||
  match s with
  | EmptyString => false
  | String _ s' => is_substring p s'
  end.

(** ** JavaScript values *)

Module JS.

Inductive value : Type :=
| VUndefined
| VNull
| VBool (b : bool)
| VNum (n : Z)
| VStr (s : string)
| VDate (ms : Z)                        (* a Date object: milliseconds since the epoch *)
| VArr (items : list value)
| VObj (props : list (string * value)).

Definition typeof (v : value) : string :=
  match v with
  | VUndefined => "undefined"
  | VBool _ => "boolean"
  | VNum _ => "number"
  | VStr _ => "string"
  | VNull | VDate _ | VArr _ | VObj _ => "object"
  end.

Definition is_undefined (v : value) : bool :=
  match v with VUndefined => true | _ => false end.

Definition is_null (v : value) : bool :=
  match v with VNull => true | _ => false end.

Definition isArray (v : value) : bool :=
  match v with VArr _ => true | _ => false end.

Definition is_primitive (v : value) : bool :=
  match v with
  | VDate _ | VArr _ | VObj _ => false
  | _ => true
  end.

(** A value whose properties can be read: anything but null and
    undefined. *)
Definition readable (v : value) : bool :=
  match v with
  | VUndefined | VNull => false
  | _ => true
  end.

(** ToBoolean. *)
Definition truthy (v : value) : bool :=
  match v with
  | VUndefined | VNull => false
  | VBool b => b
  | VNum n => negb (n =? 0)%Z
  | VStr s => negb (s =? "")
  | VDate _ | VArr _ | VObj _ => true
  end.

(** [a === b] (and SameValueZero, which differs on NaN only) for two values
    that share no heap object: primitives are compared by value, and an
    object, array or Date is equal to nothing but itself.  Every use below
    compares values of different provenance (a document parsed from the
    file against the caller's query or input, or two different parsed
    documents); the one place where a reference is shared says so. *)
Definition strict_equals (a b : value) : bool :=
  match a, b with
  | VUndefined, VUndefined => true
  | VNull, VNull => true
  | VBool x, VBool y => Bool.eqb x y
  | VNum x, VNum y => (x =? y)%Z
  | VStr x, VStr y => (x =? y)%string
  | _, _ => false
  end.

Fixpoint lookup (k : string) (props : list (string * value)) : option value :=
  match props with
  | [] => None
  | (k', v) :: rest => if (k' =? k)%string then Some v else lookup k rest
  end.

Fixpoint indexed_from {A : Type} (i : nat) (l : list A) : list (string * A) :=
  match l with
  | [] => []
  | x :: rest => (string_of_nat i, x) :: indexed_from (S i) rest
  end.

Fixpoint chars (s : string) : list value :=
  match s with
  | EmptyString => []
  | String c rest => VStr (String c "") :: chars rest
  end.

(** The own enumerable properties of a value, in enumeration order: what
    Object.keys lists and what an object spread copies. *)
Definition own_props (v : value) : list (string * value) :=
  match v with
  | VObj props => props
  | VArr items => indexed_from 0 items
  | VStr s => indexed_from 0 (chars s)
  | _ => []
  end.

(** [v[k]]: a TypeError on null and undefined; an own property where there
    is one; the length of an array or a string; undefined otherwise.  The
    members that the value inherits from its prototype, functions for
    most of them, are not values of the model: for a key that names one
    ([toString], [constructor], ...) the platform gives that member. *)
Definition get (v : value) (k : string) : result value :=
  match v with
  | VUndefined | VNull => Throw TypeError
  | VArr items =>
      match lookup k (own_props v) with
      | Some x => Ok x
      | None => Ok (if (k =? "length")%string then VNum (Z.of_nat (List.length items)) else VUndefined)
      end
  | VStr s =>
      match lookup k (own_props v) with
      | Some x => Ok x
      | None => Ok (if (k =? "length")%string then VNum (Z.of_nat (String.length s)) else VUndefined)
      end
  | _ =>
      match lookup k (own_props v) with
      | Some x => Ok x
      | None => Ok VUndefined
      end
  end.

(** Object.keys(v): a TypeError on null and undefined. *)
Definition Object_keys (v : value) : result (list string) :=
  match v with
  | VUndefined | VNull => Throw TypeError
  | _ => Ok (map fst (own_props v))
  end.

(** Writing property [k] of an object under construction: an existing key
    keeps its place and takes the new value, a new key goes last. *)
Fixpoint set_prop (props : list (string * value)) (k : string) (v : value)
  : list (string * value) :=
  match props with
  | [] => [(k, v)]
  | (k', v') :: rest =>
      if (k' =? k)%string then (k', v) :: rest else (k', v') :: set_prop rest k v
  end.

(** Pairwise distinct keys, as the keys of an object are. *)
Fixpoint distinct (keys : list string) : bool :=
  match keys with
  | [] => true
  | k :: rest => negb (existsb (String.eqb k) rest) && distinct rest
  end.

(** A value in which every object has pairwise distinct keys. *)
Fixpoint well_formed (v : value) : bool :=
  match v with
  | VArr items =>
      (fix all (l : list value) : bool :=
         match l with
         | [] => true
         | x :: rest => well_formed x && all rest
         end) items
  | VObj props =>
      distinct (map fst props)
      && (fix all (ps : list (string * value)) : bool :=
            match ps with
            | [] => true
            | (_, x) :: rest => well_formed x && all rest
            end) props
  | _ => true
  end.

(** Number.isSafeInteger of every number of a value: an integer of
    magnitude at most 2^53 - 1, which JSON.stringify writes in plain
    decimal digits and JSON.parse reads back as the same number. *)
Fixpoint safe_integers (v : value) : bool :=
  match v with
  | VNum n => (Z.abs n <=? 9007199254740991)%Z
  | VArr items =>
      (fix all (l : list value) : bool :=
         match l with
         | [] => true
         | x :: rest => safe_integers x && all rest
         end) items
  | VObj props =>
      (fix all (ps : list (string * value)) : bool :=
         match ps with
         | [] => true
         | (_, x) :: rest => safe_integers x && all rest
         end) props
  | _ => true
  end.

(** The object without its property [k]. *)
Definition without (k : string) (props : list (string * value)) : list (string * value) :=
  filter (fun kv => negb (fst kv =? k)%string) props.

(** [{ ...base, ...src }]: the own enumerable properties of [src] written
    over [base] in order. *)
Definition spread (base : list (string * value)) (src : value) : list (string * value) :=
  fold_left (fun acc kv => set_prop acc (fst kv) (snd kv)) (own_props src) base.

(** *** Dates *)

(** Year, month (1..12) and day of the month of a day number counted from
    1970-01-01, in the proleptic Gregorian calendar. *)
Definition civil_from_days (days : Z) : Z * Z * Z :=
  let z := (days + 719468)%Z in
  let era := (z / 146097)%Z in
  let doe := (z - era * 146097)%Z in
  let yoe := ((doe - doe / 1460 + doe / 36524 - doe / 146096) / 365)%Z in
  let doy := (doe - (365 * yoe + yoe / 4 - yoe / 100))%Z in
  let mp := ((5 * doy + 2) / 153)%Z in
  let d := (doy - (153 * mp + 2) / 5 + 1)%Z in
  let m := if (mp <? 10)%Z then (mp + 3)%Z else (mp - 9)%Z in
  let y := (yoe + era * 400 + (if (m <=? 2)%Z then 1 else 0))%Z in
  (y, m, d).

Definition two (n : Z) : string := padStart0 2 (string_of_Z n).

Definition year_string (y : Z) : string :=
  if ((0 <=? y) && (y <=? 9999))%Z then padStart0 4 (string_of_Z y)
  else if (y <? 0)%Z then String "-" (padStart0 6 (string_of_Z (- y)))
  else String "+" (padStart0 6 (string_of_Z y)).

Definition clock_string (t : Z) : string :=
  two (t / 3600000) ++ ":" ++ two (t / 60000 mod 60) ++ ":" ++ two (t / 1000 mod 60).

(** Date.prototype.toISOString, which Date.prototype.toJSON returns. *)
Definition toISOString (ms : Z) : string :=
  let '(y, m, d) := civil_from_days (ms / 86400000) in
  let t := (ms mod 86400000)%Z in
  year_string y ++ "-" ++ two m ++ "-" ++ two d ++ "T" ++ clock_string t
  ++ "." ++ padStart0 3 (string_of_Z (t mod 1000)) ++ "Z".

Definition day_name (dow : Z) : string :=
  nth (Z.to_nat dow) ["Sun"; "Mon"; "Tue"; "Wed"; "Thu"; "Fri"; "Sat"] "".

Definition month_name (m : Z) : string :=
  nth (Z.to_nat (m - 1))
    ["Jan"; "Feb"; "Mar"; "Apr"; "May"; "Jun"; "Jul"; "Aug"; "Sep"; "Oct"; "Nov"; "Dec"] "".

(** Date.prototype.toString on a host whose time zone is UTC. *)
Definition Date_toString (ms : Z) : string :=
  let days := (ms / 86400000)%Z in
  let '(y, m, d) := civil_from_days days in
  day_name ((days + 4) mod 7) ++ " " ++ month_name m ++ " " ++ two d ++ " "
  ++ (if (y <? 0)%Z then String "-" (padStart0 6 (string_of_Z (- y)))
      else padStart0 4 (string_of_Z y))
  ++ " " ++ clock_string (ms mod 86400000)
  ++ " GMT+0000 (Coordinated Universal Time)".

(** *** Conversions and the relational operators *)

(** ToString; an array is joined with commas, null and undefined elements
    giving the empty string. *)
Fixpoint ToString (v : value) : string :=
  match v with
  | VUndefined => "undefined"
  | VNull => "null"
  | VBool true => "true"
  | VBool false => "false"
  | VNum n => string_of_Z n
  | VStr s => s
  | VDate ms => Date_toString ms
  | VArr items =>
      (fix join (l : list value) : string :=
         match l with
         | [] => ""
         | x :: rest =>
             let sx := match x with
                       | VUndefined | VNull => ""
                       | _ => ToString x
                       end in
             match rest with
             | [] => sx
             | _ :: _ => sx ++ "," ++ join rest
             end
         end) items
  | VObj _ => "[object Object]"
  end.

(** ToPrimitive with hint number: a Date gives its time value, an array or
    a plain object its string. *)
Definition ToPrimitive (v : value) : value :=
  match v with
  | VDate ms => VNum ms
  | VArr _ | VObj _ => VStr (ToString v)
  | _ => v
  end.

(** The result of ToNumber: NaN, an infinity, or the double [m * 2^e].
    The number [n] of a document is [Finite n 0]. *)
Inductive number : Type :=
| NaN
| Infinite (negative : bool)
| Finite (m e : Z).

(** [p / q] rounded to the nearest integer, a tie going to the even one;
    [0 <= p] and [0 < q]. *)
Definition round_half_even (p q : Z) : Z :=
  let d := (p / q)%Z in
  let r := (2 * (p mod q))%Z in
  if (r <? q)%Z then d
  else if (q <? r)%Z then (d + 1)%Z
  else if Z.even d then d else (d + 1)%Z.

(** [p / (q * 2^e)] as a fraction of two integers. *)
Definition scaled (p q e : Z) : Z * Z :=
  if (0 <=? e)%Z then (p, q * 2 ^ e)%Z else (p * 2 ^ (- e), q)%Z.

(** The double nearest to [p / q], a tie going to the even significand
    ([0 <= p], [0 < q]): 53 significant bits, no exponent under -1074, an
    infinity from 2^1024 on; [negative] is the sign. *)
Definition nearest_double (negative : bool) (p q : Z) : number :=
  if (p =? 0)%Z then Finite 0 0
  else
    let e1 := (Z.log2 p - Z.log2 q - 52)%Z in
    let e2 := let '(a, b) := scaled p q e1 in
              if (a <? b * 2 ^ 52)%Z then (e1 - 1)%Z else e1 in
    let e := Z.max e2 (-1074) in
    let '(a, b) := scaled p q e in
    let m := round_half_even a b in
    if (2 ^ 1024 <=? m * 2 ^ e)%Z then Infinite negative
    else Finite (if negative then - m else m) e.

(** The value of a digit in a radix up to 16. *)
Definition radix_digit (radix : Z) (c : ascii) : option Z :=
  let n := Z.of_nat (nat_of_ascii c) in
  let d := if ((48 <=? n) && (n <=? 57))%Z then (n - 48)%Z
           else if ((97 <=? n) && (n <=? 102))%Z then (n - 87)%Z
           else if ((65 <=? n) && (n <=? 70))%Z then (n - 55)%Z
           else radix in
  if (d <? radix)%Z then Some d else None.

(** The value of a string of digits in a radix, [acc] being the value of
    the digits already read; [None] when a character is no digit. *)
Fixpoint radix_value (radix : Z) (s : string) (acc : Z) : option Z :=
  match s with
  | EmptyString => Some acc
  | String c rest =>
      match radix_digit radix c with
      | Some d => radix_value radix rest (radix * acc + d)%Z
      | None => None
      end
  end.

(** The longest prefix of decimal digits, and what follows it. *)
Fixpoint span_digits (s : string) : string * string :=
  match s with
  | String c rest =>
      if is_digit c then let '(ds, tail) := span_digits rest in (String c ds, tail)
      else ("", s)
  | EmptyString => ("", "")
  end.

(** An optional ExponentPart that ends the literal: [e] or [E], an
    optional sign, digits. *)
Definition ExponentPart (s : string) : option Z :=
  match s with
  | EmptyString => Some 0%Z
  | String c rest =>
      if Ascii.eqb c "e" || Ascii.eqb c "E" then
        match rest with
        | String "-" (String d ds) => option_map Z.opp (radix_value 10 (String d ds) 0)
        | String "+" (String d ds) => radix_value 10 (String d ds) 0
        | String d ds => radix_value 10 (String d ds) 0
        | EmptyString => None
        end
      else None
  end.

(** StrUnsignedDecimalLiteral: [Infinity], or digits with an optional
    fraction and exponent, a digit standing before or after the point. *)
Definition StrUnsignedDecimalLiteral (negative : bool) (s : string) : number :=
  if (s =? "Infinity") then Infinite negative
  else
    let '(int_digits, after_int) := span_digits s in
    let '(frac_digits, after_frac) :=
      match after_int with
      | String "." rest => span_digits rest
      | _ => ("", after_int)
      end in
    if (int_digits =? "") && (frac_digits =? "") then NaN
    else
      match radix_value 10 (int_digits ++ frac_digits) 0, ExponentPart after_frac with
      | Some digits, Some exponent =>
          let e := (exponent - Z.of_nat (String.length frac_digits))%Z in
          if (0 <=? e)%Z then nearest_double negative (digits * 10 ^ e) 1
          else nearest_double negative digits (10 ^ (- e))
      | _, _ => NaN
      end.

(** A hexadecimal, octal or binary literal after its prefix. *)
Definition NonDecimalIntegerLiteral (radix : Z) (digits : string) : number :=
  match digits with
  | EmptyString => NaN
  | _ => match radix_value radix digits 0 with
         | Some n => nearest_double false n 1
         | None => NaN
         end
  end.

(** StringToNumber: white space around the literal is dropped, the empty
    string is 0, a literal with a radix prefix takes no sign, and what is
    no StringNumericLiteral is NaN. *)
Definition StringToNumber (s : string) : number :=
  match trim s with
  | EmptyString => Finite 0 0
  | String "0" (String "x" digits) | String "0" (String "X" digits) =>
      NonDecimalIntegerLiteral 16 digits
  | String "0" (String "o" digits) | String "0" (String "O" digits) =>
      NonDecimalIntegerLiteral 8 digits
  | String "0" (String "b" digits) | String "0" (String "B" digits) =>
      NonDecimalIntegerLiteral 2 digits
  | String "-" rest => StrUnsignedDecimalLiteral true rest
  | String "+" rest => StrUnsignedDecimalLiteral false rest
  | literal => StrUnsignedDecimalLiteral false literal
  end.

(** ToNumber of a primitive. *)
Definition ToNumber (p : value) : number :=
  match p with
  | VUndefined => NaN
  | VNull => Finite 0 0
  | VBool b => Finite (if b then 1 else 0) 0
  | VNum n => Finite n 0
  | VStr s => StringToNumber s
  | VDate ms => Finite ms 0
  | VArr _ | VObj _ => NaN
  end.

(** Number::lessThan; [None] is its undefined result (an operand is NaN). *)
Definition lessThan (a b : number) : option bool :=
  match a, b with
  | NaN, _ | _, NaN => None
  | Infinite na, Infinite nb => Some (na && negb nb)
  | Infinite na, Finite _ _ => Some na
  | Finite _ _, Infinite nb => Some (negb nb)
  | Finite m1 e1, Finite m2 e2 =>
      let e := Z.min e1 e2 in
      Some (m1 * 2 ^ (e1 - e) <? m2 * 2 ^ (e2 - e))%Z
  end.

(** The abstract relational comparison [x < y]: two strings are compared
    as strings, anything else as numbers; [None] is its undefined result. *)
Definition IsLessThan (x y : value) : option bool :=
  match ToPrimitive x, ToPrimitive y with
  | VStr a, VStr b => Some (String.ltb a b)
  | px, py => lessThan (ToNumber px) (ToNumber py)
  end.

Definition lt (a b : value) : bool :=
  match IsLessThan a b with Some true => true | _ => false end.

Definition gt (a b : value) : bool :=
  match IsLessThan b a with Some true => true | _ => false end.

Definition le (a b : value) : bool :=
  match IsLessThan b a with Some false => true | _ => false end.

Definition ge (a b : value) : bool :=
  match IsLessThan a b with Some false => true | _ => false end.

End JS.

(** ** Schema.ts *)

Module Schema.
Import JS.

(** The type [Type] of types/index.ts. *)
Inductive FieldType : Type :=
| TString | TNumber | TBoolean | TObject | TArray | TDate.

Definition type_name (t : FieldType) : string :=
  match t with
  | TString => "string"
  | TNumber => "number"
  | TBoolean => "boolean"
  | TObject => "object"
  | TArray => "array"
  | TDate => "date"
  end.

(** [SchemaConfig] of types/index.ts; an optional member that is left out
    is [None]. *)
Inductive SchemaConfig : Type :=
| mkSchemaConfig (type : FieldType) (required : bool) (unique : option bool)
    (items : option FieldType) (schema : option (list (string * SchemaConfig))).

Definition unique (c : SchemaConfig) : option bool :=
  match c with mkSchemaConfig _ _ u _ _ => u end.

(** The argument of [new Schema(...)]: the declared fields in declaration
    order, which is the order [for (const key in this.schema)] visits
    when no key is integer-like (such keys are visited first). *)
Definition Schema : Type := list (string * SchemaConfig).

Inductive Status : Type := SUCCESS | ERROR.

Record ValidationResponse : Type := mkResponse {
  status : Status;
  errorMessage : string
}.

Definition success : ValidationResponse := mkResponse SUCCESS "".
Definition failure (msg : string) : ValidationResponse := mkResponse ERROR msg.

Definition is_error (r : ValidationResponse) : bool :=
  match status r with ERROR => true | SUCCESS => false end.

(** extractUniqueFields: the keys whose [unique] member is truthy. *)
Definition extractUniqueFields (schema : Schema) : list string :=
  map fst (filter (fun kc => match unique (snd kc) with Some true => true | _ => false end) schema).

Definition getUniqueFields (schema : Schema) : list string := extractUniqueFields schema.

(** One turn of the loop of [validate], for the field [key] with declaration
    [config] and the candidate's value [value]: [Some r] when the loop
    returns [r], [None] when it goes on to the next field.  The nested
    [fix] is [validate] on the nested schema. *)
Fixpoint checkField (key : string) (config : SchemaConfig) (value : value) {struct config}
  : result (option ValidationResponse) :=
  match config with
  | mkSchemaConfig type required _ items schema =>
      if required && is_undefined value then
        Ok (Some (failure ("Property " ++ key ++ " is required.")))
      else if is_undefined value then Ok None
      else
        match type with
        | TArray =>
            match value with
            | VArr elems =>
                match items with
                | Some it =>
                    if forallb (fun item => typeof item =? type_name it) elems then Ok None
                    else Ok (Some (failure ("All items in array " ++ key
                                            ++ " should be of type " ++ type_name it ++ ".")))
                | None => Ok None
                end
            | _ => Ok (Some (failure ("Property " ++ key ++ " should be an array.")))
            end
        | TObject =>
            if negb (typeof value =? "object") || isArray value then
              Ok (Some (failure ("Property " ++ key ++ " should be an object.")))
            else
              match schema with
              | Some nested =>
                  nestedValidation <-
                    (fix validate_nested (fields : list (string * SchemaConfig))
                       : result ValidationResponse :=
                       match fields with
                       | [] => Ok success
                       | (k, c) :: rest =>
                           v <- get value k ;;
                           r <- checkField k c v ;;
                           match r with
                           | Some response => Ok response
                           | None => validate_nested rest
                           end
                       end) nested ;;
                  if is_error nestedValidation then Ok (Some nestedValidation) else Ok None
              | None => Ok None
              end
        | TDate =>
            match value with
            | VDate _ => Ok None
            | _ => Ok (Some (failure ("Property " ++ key ++ " should be of type "
                                      ++ type_name type ++ ".")))
            end
        | TString | TNumber | TBoolean =>
            if typeof value =? type_name type then Ok None
            else Ok (Some (failure ("Property " ++ key ++ " should be of type "
                                    ++ type_name type ++ ".")))
        end
  end.

(** [validate(obj)]: the first field that fails decides; reading a field
    of a null or undefined candidate throws. *)
Fixpoint validate (schema : Schema) (obj : value) {struct schema} : result ValidationResponse :=
  match schema with
  | [] => Ok success
  | (key, config) :: rest =>
      value <- get obj key ;;
      r <- checkField key config value ;;
      match r with
      | Some response => Ok response
      | None => validate rest obj
      end
  end.

End Schema.

(** ** The query language of Collection.ts *)

Module Query.
Import JS.

(** [array.includes(x)]: on an array, SameValueZero against each element; on
    a string, String.prototype.includes of the argument's string; a
    TypeError on anything else, which has no such method. *)
Definition includes (array x : value) : result bool :=
  match array with
  | VArr items => Ok (existsb (strict_equals x) items)
  | VStr s => Ok (is_substring (ToString x) s)
  | _ => Throw TypeError
  end.

Definition isInArray (itemValue array : value) : result bool :=
  match itemValue with
  | VArr vals => some (fun val => includes array val) vals
  | _ => includes array itemValue
  end.

Definition operator_keys : list string :=
  ["$gt"; "$lt"; "$gte"; "$lte"; "$eq"; "$ne"; "$in"; "$nin"; "where"].

Definition isQueryOperator (obj : value) : result bool :=
  keys <- Object_keys obj ;;
  Ok (existsb (fun key => existsb (String.eqb key) operator_keys) keys).

(** The rows of the [checks] table are built before any is read, so a
    throwing [isInArray] throws whatever the other rows say; a row is
    [(check, negate)]. *)
Definition applyQueryOperator (itemValue queryOperator : value) : result bool :=
  op_gt <- get queryOperator "$gt" ;;
  op_lt <- get queryOperator "$lt" ;;
  op_gte <- get queryOperator "$gte" ;;
  op_lte <- get queryOperator "$lte" ;;
  op_eq <- get queryOperator "$eq" ;;
  op_ne <- get queryOperator "$ne" ;;
  op_in <- get queryOperator "$in" ;;
  check_in <- (if is_undefined op_in then Ok false
               else b <- isInArray itemValue op_in ;; Ok (negb b)) ;;
  op_nin <- get queryOperator "$nin" ;;
  check_nin <- (if is_undefined op_nin then Ok false else isInArray itemValue op_nin) ;;
  op_where <- get queryOperator "where" ;;
  let checks : list (bool * bool) :=
    [ (negb (is_undefined op_gt) && negb (is_null op_gt) && negb (gt itemValue op_gt), true);
      (negb (is_undefined op_lt) && negb (is_null op_lt) && negb (lt itemValue op_lt), true);
      (negb (is_undefined op_gte) && negb (is_null op_gte) && negb (ge itemValue op_gte), true);
      (negb (is_undefined op_lte) && negb (is_null op_lte) && negb (le itemValue op_lte), true);
      (negb (is_undefined op_eq) && negb (strict_equals itemValue op_eq), false);
      (negb (is_undefined op_ne) && strict_equals itemValue op_ne, false);
      (check_in, true);
      (check_nin, false);
      (negb (is_undefined op_where) && negb (strict_equals itemValue op_where), true) ] in
  Ok (forallb (fun '(check, negate) => negb negate || negb check) checks).

(** The callback of [every] in [matchesQuery] for one key of the query;
    [nested] is the recursive call on the item's value. *)
Definition matchesKey (item : value) (key : string) (queryValue : value)
  (nested : value -> result bool) : result bool :=
  itemValue <- get item key ;;
  isOp <- isQueryOperator queryValue ;;
  if isOp then applyQueryOperator itemValue queryValue
  else if (typeof queryValue =? "object") && negb (is_null queryValue) then nested itemValue
  else Ok (strict_equals itemValue queryValue).

(** [matchesQuery(item, query)], by recursion on the query.  The keys
    visited are Object.keys(query), each with the value [query[key]]. *)
Fixpoint matchesQuery (item query : value) {struct query} : result bool :=
  match query with
  | VUndefined | VNull => Throw TypeError
  | VObj props =>
      (fix every_key (ps : list (string * value)) : result bool :=
         match ps with
         | [] => Ok true
         | (key, queryValue) :: rest =>
             b <- matchesKey item key queryValue (fun itemValue => matchesQuery itemValue queryValue) ;;
             if b then every_key rest else Ok false
         end) props
  | VArr elems =>
      (fix every_index (i : nat) (qs : list value) : result bool :=
         match qs with
         | [] => Ok true
         | queryValue :: rest =>
             b <- matchesKey item (string_of_nat i) queryValue
                    (fun itemValue => matchesQuery itemValue queryValue) ;;
             if b then every_index (S i) rest else Ok false
         end) 0 elems
  | VStr s =>
      every (fun kv => matchesKey item (fst kv) (snd kv) (fun _ => Ok true)) (own_props query)
  | VBool _ | VNum _ | VDate _ => Ok true
  end.

(** [deepEqual(obj1, obj2)].  Its first test, [obj1 === obj2], is true of
    equal primitives and of one object reached twice; on one object the
    rest of the function answers true as well ([deepEqual_refl]), so the
    test is modelled on primitives and the rest is structural. *)
Fixpoint deepEqual (obj1 obj2 : value) {struct obj1} : bool :=
  if is_primitive obj1 && strict_equals obj1 obj2 then true
  else if negb (typeof obj1 =? "object") || negb (typeof obj2 =? "object")
          || is_null obj1 || is_null obj2 then false
  else
    let keys2 := map fst (own_props obj2) in
    let same_key (key : string) (v1 : value) (rec : value -> bool) : bool :=
      existsb (String.eqb key) keys2
      && match get obj2 key with Ok v2 => rec v2 | Throw _ => false end in
    match obj1 with
    | VObj props =>
        (List.length props =? List.length keys2)%nat
        && (fix all_keys (ps : list (string * value)) : bool :=
              match ps with
              | [] => true
              | (key, v1) :: rest => same_key key v1 (deepEqual v1) && all_keys rest
              end) props
    | VArr elems =>
        (List.length elems =? List.length keys2)%nat
        && (fix all_index (i : nat) (vs : list value) : bool :=
              match vs with
              | [] => true
              | v1 :: rest => same_key (string_of_nat i) v1 (deepEqual v1) && all_index (S i) rest
              end) 0 elems
    | _ => (0 =? List.length keys2)%nat
    end.

End Query.

(** ** JSON.stringify and JSON.parse *)

Module JSON.
Import JS.

Definition hex2 (n : nat) : string :=
  String (hex_char (N.of_nat (n / 16))) (String (hex_char (N.of_nat (n mod 16))) "").

(** QuoteJSONString, one character. *)
Definition escape_char (c : ascii) : string :=
  let n := nat_of_ascii c in
  if (n =? 34)%nat then "\" ++ dquote
  else if (n =? 92)%nat then "\\"
  else if (n =? 8)%nat then "\b"
  else if (n =? 12)%nat then "\f"
  else if (n =? 10)%nat then "\n"
  else if (n =? 13)%nat then "\r"
  else if (n =? 9)%nat then "\t"
  else if (n <? 32)%nat then "\u00" ++ hex2 n
  else String c "".

Fixpoint escape (s : string) : string :=
  match s with
  | EmptyString => ""
  | String c rest => escape_char c ++ escape rest
  end.

Definition quote (s : string) : string := dquote ++ escape s ++ dquote.

(** JSON.stringify(v) with no replacer and no indentation; [None] is the
    result undefined.  A Date is written through its toJSON, an undefined
    member of an object is left out, an undefined element of an array is
    written null.  A number is written in the decimal digits of the
    integer it is, as the platform writes the integers under 1e21 (from
    there on it writes an exponent). *)
Fixpoint stringify (v : value) : option string :=
  match v with
  | VUndefined => None
  | VNull => Some "null"
  | VBool true => Some "true"
  | VBool false => Some "false"
  | VNum n => Some (string_of_Z n)
  | VStr s => Some (quote s)
  | VDate ms => Some (quote (toISOString ms))
  | VArr items =>
      Some ("[" ++
        (fix elements (l : list value) : string :=
           match l with
           | [] => "]"
           | x :: rest =>
               let sx := match stringify x with Some s => s | None => "null" end in
               match rest with
               | [] => sx ++ "]"
               | _ :: _ => sx ++ "," ++ elements rest
               end
           end) items)
  | VObj props =>
      Some ("{" ++
        (fix members (first : bool) (ps : list (string * value)) : string :=
           match ps with
           | [] => "}"
           | (k, x) :: rest =>
               match stringify x with
               | None => members first rest
               | Some s => (if first then "" else ",") ++ quote k ++ ":" ++ s ++ members false rest
               end
           end) true props)
  end.

(** The values that a JSON text denotes and that [stringify] writes as
    they are: no undefined and no Date at any depth, and distinct keys in
    every object. *)
Fixpoint json_value (v : value) : bool :=
  match v with
  | VUndefined | VDate _ => false
  | VNull | VBool _ | VNum _ | VStr _ => true
  | VArr items =>
      (fix all (l : list value) : bool :=
         match l with
         | [] => true
         | x :: rest => json_value x && all rest
         end) items
  | VObj props =>
      distinct (map fst props)
      && (fix all (ps : list (string * value)) : bool :=
            match ps with
            | [] => true
            | (_, x) :: rest => json_value x && all rest
            end) props
  end.

Definition json_ws (c : ascii) : bool :=
  let n := nat_of_ascii c in ((n =? 32) || (n =? 9) || (n =? 10) || (n =? 13))%nat.

Fixpoint skip_ws (s : string) : string :=
  match s with
  | String c rest => if json_ws c then skip_ws rest else s
  | EmptyString => ""
  end.

Definition hex_value (c : ascii) : option nat :=
  let n := nat_of_ascii c in
  if ((48 <=? n) && (n <=? 57))%nat then Some (n - 48)
  else if ((97 <=? n) && (n <=? 102))%nat then Some (n - 87)
  else if ((65 <=? n) && (n <=? 70))%nat then Some (n - 55)
  else None.

(** The character an escape sequence [\uXXXX] denotes; code units of 256
    and more are outside the model's strings. *)
Definition unicode_escape (h1 h2 h3 h4 : ascii) : option ascii :=
  match hex_value h1, hex_value h2, hex_value h3, hex_value h4 with
  | Some a, Some b, Some c, Some d =>
      if ((a =? 0) && (b =? 0))%nat then Some (ascii_of_nat (16 * c + d)) else None
  | _, _, _, _ => None
  end.

Definition simple_escape (e : ascii) : option ascii :=
  let n := nat_of_ascii e in
  if (n =? 34)%nat then Some (ascii_of_nat 34)
  else if (n =? 92)%nat then Some (ascii_of_nat 92)
  else if (n =? 47)%nat then Some (ascii_of_nat 47)
  else if (n =? 98)%nat then Some (ascii_of_nat 8)
  else if (n =? 102)%nat then Some (ascii_of_nat 12)
  else if (n =? 110)%nat then Some (ascii_of_nat 10)
  else if (n =? 114)%nat then Some (ascii_of_nat 13)
  else if (n =? 116)%nat then Some (ascii_of_nat 9)
  else None.

(** The characters of a string literal after its opening quote, and the
    text after its closing quote. *)
Fixpoint parse_string (s : string) : option (string * string) :=
  match s with
  | EmptyString => None
  | String c rest =>
      let n := nat_of_ascii c in
      if (n =? 34)%nat then Some ("", rest)
      else if (n =? 92)%nat then
        match rest with
        | String e rest' =>
            if (nat_of_ascii e =? 117)%nat then
              match rest' with
              | String h1 (String h2 (String h3 (String h4 rest''))) =>
                  match unicode_escape h1 h2 h3 h4, parse_string rest'' with
                  | Some x, Some (str, r) => Some (String x str, r)
                  | _, _ => None
                  end
              | _ => None
              end
            else
              match simple_escape e, parse_string rest' with
              | Some x, Some (str, r) => Some (String x str, r)
              | _, _ => None
              end
        | EmptyString => None
        end
      else if (n <? 32)%nat then None
      else
        match parse_string rest with
        | Some (str, r) => Some (String c str, r)
        | None => None
        end
  end.

Definition digit_of_char (c : ascii) : option (uint -> uint) :=
  match nat_of_ascii c - 48, is_digit c with
  | 0, true => Some D0
  | 1, true => Some D1
  | 2, true => Some D2
  | 3, true => Some D3
  | 4, true => Some D4
  | 5, true => Some D5
  | 6, true => Some D6
  | 7, true => Some D7
  | 8, true => Some D8
  | 9, true => Some D9
  | _, _ => None
  end.

(** The longest prefix of decimal digits, and the text after it. *)
Fixpoint take_digits (s : string) : uint * string :=
  match s with
  | EmptyString => (Nil, "")
  | String c rest =>
      match digit_of_char c with
      | Some d => let '(u, r) := take_digits rest in (d u, r)
      | None => (Nil, s)
      end
  end.

(** A JSON number of the integer fragment: no leading zero, and no fraction
    or exponent after the digits.  A text with a fraction or an exponent,
    which the platform reads as well, is not read here, and the digits
    are kept as they are, where the platform rounds to a double: the two
    agree on the texts of the safe integers. *)
Definition parse_unsigned (s : string) : option (N * string) :=
  let '(u, rest) := take_digits s in
  let continues := match rest with
                   | String c _ => Ascii.eqb c "." || Ascii.eqb c "e" || Ascii.eqb c "E"
                   | EmptyString => false
                   end in
  if continues then None
  else
    match u with
    | Nil => None
    | D0 Nil => Some (0%N, rest)
    | D0 _ => None
    | _ => Some (N.of_uint u, rest)
    end.

Definition parse_number (s : string) : option (value * string) :=
  match s with
  | String c rest =>
      if Ascii.eqb c "-" then
        match parse_unsigned rest with
        | Some (n, r) => Some (VNum (- Z.of_N n), r)
        | None => None
        end
      else
        match parse_unsigned s with
        | Some (n, r) => Some (VNum (Z.of_N n), r)
        | None => None
        end
  | EmptyString => None
  end.

(** The text after the literal [word], when the text starts with it. *)
Fixpoint expect (word s : string) : option string :=
  match word, s with
  | EmptyString, _ => Some s
  | String a word', String b s' => if Ascii.eqb a b then expect word' s' else None
  | String _ _, EmptyString => None
  end.

(** The recursive-descent parser; [fuel] bounds the chain of calls.  In an
    object a key met again takes the later value and keeps its place. *)
Fixpoint parse_value (fuel : nat) (s : string) {struct fuel} : option (value * string) :=
  match fuel with
  | O => None
  | S fuel' =>
      match skip_ws s with
      | EmptyString => None
      | String c rest as s' =>
          let n := nat_of_ascii c in
          if (n =? 110)%nat then option_map (pair VNull) (expect "null" s')
          else if (n =? 116)%nat then option_map (pair (VBool true)) (expect "true" s')
          else if (n =? 102)%nat then option_map (pair (VBool false)) (expect "false" s')
          else if (n =? 34)%nat then
            match parse_string rest with
            | Some (str, r) => Some (VStr str, r)
            | None => None
            end
          else if (n =? 91)%nat then
            match skip_ws rest with
            | String c' rest' as inner =>
                if (nat_of_ascii c' =? 93)%nat then Some (VArr [], rest')
                else
                  match parse_elements fuel' inner with
                  | Some (items, r) => Some (VArr items, r)
                  | None => None
                  end
            | EmptyString => None
            end
          else if (n =? 123)%nat then
            match skip_ws rest with
            | String c' rest' as inner =>
                if (nat_of_ascii c' =? 125)%nat then Some (VObj [], rest')
                else
                  match parse_members fuel' [] inner with
                  | Some (props, r) => Some (VObj props, r)
                  | None => None
                  end
            | EmptyString => None
            end
          else parse_number s'
      end
  end

with parse_elements (fuel : nat) (s : string) {struct fuel} : option (list value * string) :=
  match fuel with
  | O => None
  | S fuel' =>
      match parse_value fuel' s with
      | Some (v, r) =>
          match skip_ws r with
          | String c rest =>
              if (nat_of_ascii c =? 44)%nat then
                match parse_elements fuel' rest with
                | Some (vs, r') => Some (v :: vs, r')
                | None => None
                end
              else if (nat_of_ascii c =? 93)%nat then Some ([v], rest)
              else None
          | EmptyString => None
          end
      | None => None
      end
  end

with parse_members (fuel : nat) (acc : list (string * value)) (s : string) {struct fuel}
  : option (list (string * value) * string) :=
  match fuel with
  | O => None
  | S fuel' =>
      match skip_ws s with
      | String q rest =>
          if (nat_of_ascii q =? 34)%nat then
            match parse_string rest with
            | Some (key, r) =>
                match skip_ws r with
                | String colon r' =>
                    if (nat_of_ascii colon =? 58)%nat then
                      match parse_value fuel' r' with
                      | Some (v, r'') =>
                          let acc' := set_prop acc key v in
                          match skip_ws r'' with
                          | String c rest'' =>
                              if (nat_of_ascii c =? 44)%nat then parse_members fuel' acc' rest''
                              else if (nat_of_ascii c =? 125)%nat then Some (acc', rest'')
                              else None
                          | EmptyString => None
                          end
                      | None => None
                      end
                    else None
                | EmptyString => None
                end
            | None => None
            end
          else None
      | EmptyString => None
      end
  end.

(** JSON.parse(text): one value, then nothing but white space. *)
Definition parse (text : string) : result value :=
  match parse_value (S (String.length text)) text with
  | Some (v, rest) =>
      match skip_ws rest with
      | EmptyString => Ok v
      | String _ _ => Throw SyntaxError
      end
  | None => Throw SyntaxError
  end.

End JSON.

(** ** adapters/utils/dataCryptography.ts *)

Module DataCryptography.

(** A Buffer is the list of its bytes. *)
Definition Buffer : Type := list byte.

Definition bxor (a b : byte) : byte :=
  let '(a0, (a1, (a2, (a3, (a4, (a5, (a6, a7))))))) := Byte.to_bits a in
  let '(b0, (b1, (b2, (b3, (b4, (b5, (b6, b7))))))) := Byte.to_bits b in
  Byte.of_bits (xorb a0 b0, (xorb a1 b1, (xorb a2 b2, (xorb a3 b3,
               (xorb a4 b4, (xorb a5 b5, (xorb a6 b6, xorb a7 b7))))))).

Definition byte_of_N (n : N) : byte :=
  match Byte.of_N n with Some b => b | None => x00 end.

(** buffer.toString("hex"). *)
Definition hex_of_byte (b : byte) : string :=
  String (hex_char (Byte.to_N b / 16)) (String (hex_char (Byte.to_N b mod 16)) "").

Fixpoint toHex (bs : Buffer) : string :=
  match bs with
  | [] => ""
  | b :: rest => hex_of_byte b ++ toHex rest
  end.

(** Buffer.from(text, "hex"): pairs of hex digits, up to the first pair
    that is none. *)
Fixpoint fromHex (s : string) : Buffer :=
  match s with
  | String a (String b rest) =>
      match JSON.hex_value a, JSON.hex_value b with
      | Some x, Some y => byte_of_N (N.of_nat (16 * x + y)) :: fromHex rest
      | _, _ => []
      end
  | _ => []
  end.

(** Buffer.from(text) and buffer.toString(), both UTF-8. *)
Definition utf8_encode (s : string) : Buffer := list_byte_of_string s.
Definition utf8_decode (bs : Buffer) : string := string_of_list_byte bs.

(** [text.split(":")]: the pieces between the colons. *)
Fixpoint split_colon (s : string) (piece : string) : list string :=
  match s with
  | EmptyString => [string_rev piece]
  | String c rest =>
      if Ascii.eqb c ":" then string_rev piece :: split_colon rest ""
      else split_colon rest (String c piece)
  end.

Definition be_value (bs : Buffer) : N :=
  fold_left (fun acc b => (acc * 256 + Byte.to_N b)%N) bs 0%N.

Fixpoint be_bytes (len : nat) (n : N) : Buffer :=
  match len with
  | O => []
  | S k => (be_bytes k (n / 256) ++ [byte_of_N (n mod 256)])%list
  end.

(** What the message of an exception of node's crypto module is. *)
Definition invalid_iv : string := "Invalid initialization vector".
Definition invalid_buffer_argument : string :=
  "The first argument must be of type string or an instance of Buffer, ArrayBuffer, or Array or an Array-like Object. Received undefined".

Section Cipher.

(** node's [scryptSync(password, salt, keylen)] and the AES-256 block
    encryption under a key, both of the platform's crypto library. *)
Variable scryptSync : string -> string -> nat -> Buffer.
Variable aes256_block : Buffer -> Buffer -> Buffer.

(** Counter mode: byte [i] of the key stream is byte [i mod 16] of the
    encryption of the counter block [iv + i / 16] (a 128-bit big-endian
    number that wraps). *)
Definition keystream (key iv : Buffer) (i : nat) : byte :=
  let block := be_bytes 16 ((be_value iv + N.of_nat (i / 16)) mod 2 ^ 128)%N in
  nth (i mod 16) (aes256_block key block) x00.

Fixpoint ctr_from (key iv : Buffer) (i : nat) (data : Buffer) : Buffer :=
  match data with
  | [] => []
  | b :: rest => bxor b (keystream key iv i) :: ctr_from key iv (S i) rest
  end.

(** [createCipheriv("aes-256-ctr", key, iv)] followed by update and final,
    and the same for [createDecipheriv]: an initialization vector that is
    not 16 bytes long is refused. *)
Definition aes_256_ctr (key iv data : Buffer) : result Buffer :=
  if (List.length iv =? 16)%nat then Ok (ctr_from key iv 0 data)
  else Throw (Error invalid_iv).

(** [encrypt(data, secretKey)]; [iv] is what [randomBytes(16)] returned. *)
Definition encrypt (iv : Buffer) (data secretKey : string) : result string :=
  let key := scryptSync secretKey "salt" 32 in
  encrypted <- aes_256_ctr key iv (utf8_encode data) ;;
  Ok (toHex iv ++ ":" ++ toHex encrypted).

(** [decrypt(encryptedData, secretKey)]. *)
Definition decrypt (encryptedData secretKey : string) : result string :=
  match split_colon encryptedData "" with
  | ivHex :: encryptedHex :: _ =>
      let iv := fromHex ivHex in
      let encrypted := fromHex encryptedHex in
      let key := scryptSync secretKey "salt" 32 in
      decrypted <- aes_256_ctr key iv encrypted ;;
      Ok (utf8_decode decrypted)
  | _ => Throw (Error invalid_buffer_argument)
  end.

End Cipher.

End DataCryptography.

(** ** adapters/secureJSON.adapter.ts *)

(** The interface [Adapter] of types/index.ts.  [serialize] is given the
    16 bytes the host's random source yields at the call, which an adapter
    may ignore. *)
Record Adapter : Type := mkAdapter {
  serialize : DataCryptography.Buffer -> JS.value -> result string;
  deserialize : string -> result JS.value
}.

Module JsonAdapter.
Import JS.

(** [Options] of types/index.ts. *)
Record Options : Type := mkOptions {
  username : option string;
  password : option string
}.

Definition nonempty (o : option string) : bool :=
  match o with
  | Some s => negb (s =? "")
  | None => false
  end.

(** The constructor: the value of the private member [secretKey]. *)
Definition secretKey (encryptionInfo : option Options) : option string :=
  match encryptionInfo with
  | Some info =>
      match username info, password info with
      | Some u, Some p => if nonempty (Some u) && nonempty (Some p) then Some (u ++ "PYOJAN" ++ p) else None
      | _, _ => None
      end
  | None => None
  end.

Definition wrap {A : Type} (prefix : string) (r : result A) : result A :=
  match r with
  | Ok a => Ok a
  | Throw (Error message) => Throw (Error (prefix ++ message))
  | Throw _ => Throw (Error prefix)
  end.

Section Cipher.

Variable scryptSync : string -> string -> nat -> DataCryptography.Buffer.
Variable aes256_block : DataCryptography.Buffer -> DataCryptography.Buffer -> DataCryptography.Buffer.

Definition serialize (key : option string) (iv : DataCryptography.Buffer) (data : value)
  : result string :=
  if negb (typeof data =? "object") || is_null data then
    Throw (Error "Invalid data type for serialization.")
  else
    match JSON.stringify data with
    | None => Throw TypeError
    | Some serializeData =>
        match key with
        | Some k =>
            if negb (k =? "") then
              wrap "Failed to serialize data in JSONAdapter: "
                (DataCryptography.encrypt scryptSync aes256_block iv serializeData k)
            else Ok serializeData
        | None => Ok serializeData
        end
    end.

Definition deserialize (key : option string) (data : string) : result value :=
  deserializeData <-
    match key with
    | Some k =>
        if negb (k =? "") then
          wrap "Failed to deserialize data in JSONAdapter: "
            (DataCryptography.decrypt scryptSync aes256_block data k)
        else Ok data
    | None => Ok data
    end ;;
  JSON.parse deserializeData.

(** [new JsonAdapter(encryptionInfo)] as an [Adapter]. *)
Definition new (encryptionInfo : option Options) : Adapter :=
  mkAdapter (serialize (secretKey encryptionInfo)) (deserialize (secretKey encryptionInfo)).

End Cipher.

End JsonAdapter.

(** ** lib/Collection.ts *)

Module Collection.
Import JS Schema Query.

(** What the host answers: the clock read by [Date.now()] and [new Date()],
    the digits [Math.random().toString(16).substring(2, 12)], the value
    [Math.floor(Math.random() * 0xffffff)] and the bytes of [randomBytes],
    each at the n-th question asked. *)
Record Host : Type := mkHost {
  clock : nat -> Z;
  random_hex : nat -> string;
  random_counter : nat -> Z;
  entropy : nat -> list byte
}.

(** What a method call can change: the content of the collection's file
    ([None] while the file does not exist), the private member [counter],
    and the number of questions the host was asked. *)
Record State : Type := mkState {
  file : option string;
  counter : Z;
  tick : nat
}.

Definition M (A : Type) : Type := State -> result A * State.

Definition ret {A : Type} (a : A) : M A := fun st => (Ok a, st).

Definition lift {A : Type} (r : result A) : M A := fun st => (r, st).

Definition bindM {A B : Type} (m : M A) (k : A -> M B) : M B :=
  fun st =>
    match m st with
    | (Ok a, st') => k a st'
    | (Throw e, st') => (Throw e, st')
    end.

Notation "x <~ m ;; k" := (bindM m (fun x => k))
  (at level 61, m at next level, right associativity).

Fixpoint mapM {A B : Type} (f : A -> M B) (l : list A) : M (list B) :=
  match l with
  | [] => ret []
  | x :: rest => y <~ f x ;; ys <~ mapM f rest ;; ret (y :: ys)
  end.

(** path.basename: the last non-empty piece between slashes. *)
Fixpoint basename_from (s piece last : string) : string :=
  match s with
  | EmptyString => string_rev (match piece with EmptyString => last | _ => piece end)
  | String c rest =>
      if Ascii.eqb c "/" then
        basename_from rest "" (match piece with EmptyString => last | _ => piece end)
      else basename_from rest (String c piece) last
  end.

Definition basename (path : string) : string := basename_from path "" "".

(** [s.split(sep)[0]]: the text before the first occurrence of [sep]. *)
Fixpoint before_first (sep s : string) : string :=
  if is_prefix sep s then ""
  else
    match s with
    | EmptyString => ""
    | String c rest => String c (before_first sep rest)
    end.

Definition duplicateKeyMessage (collection field : string) (key : value) : string :=
  "E11000 duplicate key error collection: " ++ collection ++ " index: " ++ field
  ++ "_1 dup key: { " ++ field ++ ": " ++ dquote ++ ToString key ++ dquote ++ " }".

(** A value on which an array method is called. *)
Definition as_array (v : value) : result (list value) :=
  match v with
  | VArr items => Ok items
  | _ => Throw TypeError
  end.

(** Array.prototype.find and findIndex with a callback that may throw: the
    first element the callback accepts, with its index. *)
Fixpoint find_from (f : value -> result bool) (i : nat) (l : list value)
  : result (option (nat * value)) :=
  match l with
  | [] => Ok None
  | x :: rest => b <- f x ;; if b then Ok (Some (i, x)) else find_from f (S i) rest
  end.

(** [docs.filter((item) => item !== docToDelete)], where [docToDelete] is
    the element at [index]: an object is the same as itself only, a
    primitive as every element of its value. *)
Fixpoint remove_same (index : nat) (docToDelete : value) (i : nat) (docs : list value)
  : list value :=
  match docs with
  | [] => []
  | item :: rest =>
      let same := if is_primitive docToDelete then strict_equals item docToDelete
                  else (i =? index)%nat in
      if same then remove_same index docToDelete (S i) rest
      else item :: remove_same index docToDelete (S i) rest
  end.

(** [docs[index] = doc] for an index in range. *)
Fixpoint assign (docs : list value) (index : nat) (doc : value) : list value :=
  match docs, index with
  | [], _ => []
  | _ :: rest, O => doc :: rest
  | x :: rest, S i => x :: assign rest i doc
  end.

(** A [Set] of values taken from the parsed file, and its [add] and [has]
    for a value of another provenance. *)
Definition set_has (s : list value) (x : value) : bool := existsb (strict_equals x) s.

(** The [Map<string, Set<any>>] of [populateUniqueFieldValues]. *)
Definition FieldValues : Type := list (string * list value).

Fixpoint map_get (m : FieldValues) (field : string) : option (list value) :=
  match m with
  | [] => None
  | (k, s) :: rest => if (k =? field) then Some s else map_get rest field
  end.

Fixpoint map_add (m : FieldValues) (field : string) (x : value) : FieldValues :=
  match m with
  | [] => []
  | (k, s) :: rest =>
      if (k =? field) then (k, (s ++ [x])%list) :: rest else (k, s) :: map_add rest field x
  end.

Fixpoint map_set_empty (m : FieldValues) (field : string) : FieldValues :=
  match m with
  | [] => [(field, [])]
  | (k, s) :: rest => if (k =? field) then (k, []) :: rest else (k, s) :: map_set_empty rest field
  end.

Definition populateUniqueFieldValues (uniqueFields : list string) (collection : value)
  : result FieldValues :=
  let empty := fold_left map_set_empty uniqueFields [] in
  items <- as_array collection ;;
  fold_left
    (fun acc item =>
       fold_left
         (fun acc' field =>
            m <- acc' ;;
            v <- get item field ;;
            Ok (if is_undefined v then m else map_add m field v))
         uniqueFields acc)
    items (Ok empty).

(** [{ ...docToUpdate, ...update, updatedAt: new Date() }], the Date
    being [t]. *)
Definition merged (docToUpdate update : value) (t : Z) : value :=
  VObj (set_prop (spread (spread [] docToUpdate) update) "updatedAt" (VDate t)).

Section Instance.

Variable host : Host.
Variable adapter : Adapter.
Variable collectionPath : string.
Variable schema : Schema.

Definition getCollectionName : string := before_first ".vdb" (basename collectionPath).

(** [new Date()] and [Date.now()]. *)
Definition now : M Z :=
  fun st => (Ok (clock host (tick st)), mkState (file st) (counter st) (S (tick st))).

Definition randomValue : M string :=
  fun st => (Ok (random_hex host (tick st)), mkState (file st) (counter st) (S (tick st))).

(** [randomBytes(16)]: the host's bytes, 16 of them. *)
Definition randomBytes16 : M (list byte) :=
  fun st => (Ok (firstn 16 (entropy host (tick st) ++ repeat x00 16)%list),
             mkState (file st) (counter st) (S (tick st))).

Definition readFile : M string :=
  fun st => match file st with
            | Some content => (Ok content, st)
            | None => (Throw IOError, st)
            end.

Definition writeFile (data : string) : M unit :=
  fun st => (Ok tt, mkState (Some data) (counter st) (tick st)).

Definition writeCollectionData (data : value) : M unit :=
  iv <~ randomBytes16 ;;
  stringifiedData <~ lift (serialize adapter iv data) ;;
  writeFile stringifiedData.

Definition readCollectionData : M value :=
  collectionData <~ readFile ;;
  lift (deserialize adapter collectionData).

(** The constructor: the private member [counter] is drawn, and the file
    is created with the empty sequence when it does not exist. *)
Definition initializeCollection : M unit :=
  fun st => match file st with
            | Some _ => (Ok tt, st)
            | None => writeCollectionData (VArr []) st
            end.

Definition construct : M unit :=
  fun st => initializeCollection (mkState (file st) (random_counter host (tick st)) (S (tick st))).

Definition generateId : M string :=
  t <~ now ;;
  let timestamp := hex_of_Z (t / 1000) in
  r <~ randomValue ;;
  fun st =>
    let c := Z.rem (counter st + 1) 16777215 in
    (Ok (padEnd0 24 (timestamp ++ r ++ padStart0 6 (hex_of_Z c))),
     mkState (file st) c (tick st)).

Definition validateDocument (doc : value) : result unit :=
  r <- validate schema doc ;;
  match status r with
  | ERROR => Throw (Error (errorMessage r))
  | SUCCESS => Ok tt
  end.

(** [{ _id: this.generateId(), ...doc, createdAt: new Date(), updatedAt: new Date() }]. *)
Definition createNewDoc (doc : value) : M value :=
  id <~ generateId ;;
  created <~ now ;;
  updated <~ now ;;
  ret (VObj (set_prop (set_prop (spread [("_id", VStr id)] doc)
                         "createdAt" (VDate created)) "updatedAt" (VDate updated))).

(** The duplicate check of [insertDocuments] for one document and one
    unique field. *)
Definition checkDuplicate (uniqueFieldValues : FieldValues) (doc : value) (field : string)
  : result unit :=
  v <- get doc field ;;
  if is_undefined v then Ok tt
  else
    match map_get uniqueFieldValues field with
    | None => Throw TypeError
    | Some values =>
        if set_has values v then Throw (Error (duplicateKeyMessage getCollectionName field v))
        else Ok tt
    end.

Definition insertDocuments (docs : list value) : M unit :=
  _ <~ lift (forEach validateDocument docs) ;;
  let uniqueFields := getUniqueFields schema in
  collection <~ readCollectionData ;;
  uniqueFieldValues <~ lift (populateUniqueFieldValues uniqueFields collection) ;;
  _ <~ lift (forEach (fun doc => forEach (checkDuplicate uniqueFieldValues doc) uniqueFields) docs) ;;
  newDocs <~ mapM createNewDoc docs ;;
  items <~ lift (as_array collection) ;;
  writeCollectionData (VArr (items ++ newDocs)%list).

Definition insertOne (doc : value) : M unit := insertDocuments [doc].

Definition insertMany (docs : list value) : M unit := insertDocuments docs.

Definition has_id (_id : string) (doc : value) : result bool :=
  v <- get doc "_id" ;; Ok (strict_equals v (VStr _id)).

Definition findById (_id : string) : M value :=
  docs <~ readCollectionData ;;
  items <~ lift (as_array docs) ;;
  found <~ lift (find_from (has_id _id) 0 items) ;;
  ret (match found with Some (_, doc) => doc | None => VUndefined end).

(** The common end of [deleteOne] and [deleteById]. *)
Definition deleteFound (message : string) (items : list value) (found : option (nat * value))
  : M unit :=
  match found with
  | Some (index, docToDelete) =>
      if truthy docToDelete then
        writeCollectionData (VArr (remove_same index docToDelete 0 items))
      else lift (Throw (Error message))
  | None => lift (Throw (Error message))
  end.

Definition deleteOne (query : value) : M unit :=
  docs <~ readCollectionData ;;
  items <~ lift (as_array docs) ;;
  found <~ lift (find_from (fun item => matchesQuery item query) 0 items) ;;
  deleteFound "No document matches the query" items found.

Definition deleteById (_id : string) : M unit :=
  docs <~ readCollectionData ;;
  items <~ lift (as_array docs) ;;
  found <~ lift (find_from (has_id _id) 0 items) ;;
  deleteFound "No document matches the ID" items found.

(** [uniqueFieldValues.has(updatedDoc[field])] in [updateDocument], where
    the set holds [docToUpdate[g]] for every unique field [g].  A
    primitive is found by value.  An object is found only as itself:
    [updatedDoc[field]] is the object [docToUpdate[field]] when the spread
    carried it over, that is when neither the patch nor [updatedAt] wrote
    the field. *)
Definition ownValuesHave (uniqueFields : list string) (docToUpdate update : value)
  (field : string) (v : value) : result bool :=
  let carried := match lookup field (own_props update) with
                 | Some _ => false
                 | None => negb (field =? "updatedAt")
                 end in
  some (fun g =>
          a <- get docToUpdate g ;;
          Ok (strict_equals a v || (negb (is_primitive a) && (g =? field) && carried)))
       uniqueFields.

(** [docs.some((doc, index) => index !== docIndex && doc[field] === v)]. *)
Fixpoint isDuplicate (docIndex : nat) (field : string) (v : value) (index : nat)
  (docs : list value) : result bool :=
  match docs with
  | [] => Ok false
  | doc :: rest =>
      b <- (if (index =? docIndex)%nat then Ok false
            else x <- get doc field ;; Ok (strict_equals x v)) ;;
      if b then Ok true else isDuplicate docIndex field v (S index) rest
  end.

Definition checkUnique (docs : list value) (docIndex : nat) (docToUpdate update updatedDoc : value)
  (uniqueFields : list string) (field : string) : result unit :=
  v <- get updatedDoc field ;;
  if is_undefined v then Ok tt
  else
    own <- ownValuesHave uniqueFields docToUpdate update field v ;;
    if own then Ok tt
    else
      dup <- isDuplicate docIndex field v 0 docs ;;
      if dup then Throw (Error (duplicateKeyMessage getCollectionName field v)) else Ok tt.

Definition updateDocument (docs : list value) (docIndex : nat) (update : value) : M unit :=
  let docToUpdate := nth docIndex docs VUndefined in
  t <~ now ;;
  let updatedDoc := merged docToUpdate update t in
  _ <~ lift (validateDocument updatedDoc) ;;
  let uniqueFields := getUniqueFields schema in
  _ <~ lift (forEach (fun field => _ <- get docToUpdate field ;; Ok tt) uniqueFields) ;;
  _ <~ lift (forEach (checkUnique docs docIndex docToUpdate update updatedDoc uniqueFields)
               uniqueFields) ;;
  if deepEqual docToUpdate updatedDoc then ret tt
  else writeCollectionData (VArr (assign docs docIndex updatedDoc)).

Definition undefined_text (o : option string) : string :=
  match o with Some s => s | None => "undefined" end.

Definition updateOne (query update : value) : M unit :=
  docs <~ readCollectionData ;;
  items <~ lift (as_array docs) ;;
  found <~ lift (find_from (fun item => matchesQuery item query) 0 items) ;;
  match found with
  | None =>
      lift (Throw (Error ("No document matches the query: "
                          ++ undefined_text (JSON.stringify query))))
  | Some (docIndex, _) => updateDocument items docIndex update
  end.

Definition updateById (_id : string) (update : value) : M unit :=
  docs <~ readCollectionData ;;
  items <~ lift (as_array docs) ;;
  found <~ lift (find_from (has_id _id) 0 items) ;;
  match found with
  | None => lift (Throw (Error ("No document matches the ID: " ++ _id)))
  | Some (docIndex, _) => updateDocument items docIndex update
  end.

End Instance.

(** *** find *)

(** Array.prototype.filter with a callback that may throw. *)
Fixpoint filter_by (f : value -> result bool) (l : list value) : result (list value) :=
  match l with
  | [] => Ok []
  | x :: rest =>
      b <- f x ;;
      kept <- filter_by f rest ;;
      Ok (if b then x :: kept else kept)
  end.

(** TimeClip: a time value is a number of at most 8.64e15 in magnitude;
    [None] is NaN, the time value of an invalid Date. *)
Definition TimeClip (t : Z) : option Z :=
  if (Z.abs t <=? 8640000000000000)%Z then Some t else None.

(** The elements of a list of numbers when none of them is NaN. *)
Fixpoint all_numbers (l : list (option Z)) : option (list Z) :=
  match l with
  | [] => Some []
  | Some t :: rest => option_map (cons t) (all_numbers rest)
  | None :: _ => None
  end.

(** One step and the whole of a stable sort under the comparator
    [(a, b) => (a - b) * order] on the keys: an element goes before the
    first one it does not compare greater than. *)
Fixpoint insert_by (order : Z) (x : Z * value) (l : list (Z * value)) : list (Z * value) :=
  match l with
  | [] => [x]
  | y :: rest =>
      if ((fst x - fst y) * order <=? 0)%Z then x :: l else y :: insert_by order x rest
  end.

Definition stable_sort (order : Z) (l : list (Z * value)) : list (Z * value) :=
  fold_right (insert_by order) [] l.

Section Reading.

Variable adapter : Adapter.

(** The platform's [Date.parse]; [None] is NaN. *)
Variable Date_parse : string -> option Z.

(** What the platform's [Array.prototype.sort] leaves of a list when the
    comparator is not consistent, the order being then its choice. *)
Variable inconsistent_sort : Z -> list value -> list value.

(** [new Date(v).getTime()]: a Date gives its time value, a string is
    parsed, an array or an object is parsed as its string, anything else
    is converted to a number and clipped. *)
Definition getTime (v : value) : option Z :=
  match v with
  | VDate ms => Some ms
  | VStr s => Date_parse s
  | VArr _ | VObj _ => Date_parse (ToString v)
  | VUndefined => None
  | VNull => TimeClip 0
  | VBool b => TimeClip (if b then 1 else 0)
  | VNum n => TimeClip n
  end.

Definition createdTime (doc : value) : result (option Z) :=
  createdAt <- get doc "createdAt" ;; Ok (getTime createdAt).

Fixpoint createdTimes (docs : list value) : result (list (option Z)) :=
  match docs with
  | [] => Ok []
  | doc :: rest => t <- createdTime doc ;; ts <- createdTimes rest ;; Ok (t :: ts)
  end.

(** [filteredDocs.sort((a, b) => (dateA - dateB) * order)].  The undefined
    elements go last and are not compared; with fewer than two others
    nothing is compared.  Otherwise every element is compared at least
    once, and reading [createdAt] of null throws.  When every time value
    is a number the comparator is consistent, and the sort, being stable,
    has one result; when one is NaN the comparator is not consistent. *)
Definition sortByCreatedAt (order : Z) (docs : list value) : result (list value) :=
  let defined := filter (fun doc => negb (is_undefined doc)) docs in
  let undefineds := filter is_undefined docs in
  match defined with
  | [] | [_] => Ok (defined ++ undefineds)%list
  | _ :: _ :: _ =>
      times <- createdTimes defined ;;
      match all_numbers times with
      | Some keys => Ok (map snd (stable_sort order (combine keys defined)) ++ undefineds)%list
      | None => Ok (inconsistent_sort order defined ++ undefineds)%list
      end
  end.

(** [find(query, sortOrder)]; a parameter that is left out is
    [VUndefined]. *)
Definition find (query sortOrder : value) : M (list value) :=
  docs <~ readCollectionData adapter ;;
  items <~ lift (as_array docs) ;;
  filteredDocs <~ lift (if truthy query
                        then filter_by (fun item => matchesQuery item query) items
                        else Ok items) ;;
  let order := if strict_equals sortOrder (VStr "asc") then 1%Z else (-1)%Z in
  lift (sortByCreatedAt order filteredDocs).

End Reading.

End Collection.

(** ** lib/Database.ts *)

Module Database.

(** [IDatabaseOptions] of types/index.ts. *)
Record IDatabaseOptions : Type := mkOptions {
  dbDirLocation : string;
  dbExtension : option string
}.

(** [s.slice(1)]. *)
Definition slice1 (s : string) : string :=
  match s with
  | String _ rest => rest
  | EmptyString => ""
  end.

(** The constructor: the value of the private member [_dbExt].  The
    directory it creates is no part of the state of a collection. *)
Definition dbExt (options : IDatabaseOptions) : string :=
  match dbExtension options with
  | Some ext => if negb (ext =? "") then (if is_prefix "." ext then slice1 ext else ext) else "vdb"
  | None => "vdb"
  end.

Section Paths.

(** The platform's [path.join] of two segments. *)
Variable join : string -> string -> string.

(** The path of the file of the collection [collectionName]. *)
Definition collectionPath (options : IDatabaseOptions) (collectionName : string) : string :=
  join (dbDirLocation options) (collectionName ++ "." ++ dbExt options).

(** [createCollection(collectionName, schema)]: the collection is
    constructed on that path, which stands for it here. *)
Definition createCollection (host : Collection.Host) (adapter : Adapter)
  (options : IDatabaseOptions) (collectionName : string) : Collection.M string :=
  Collection.bindM (Collection.construct host adapter)
    (fun _ => Collection.ret (collectionPath options collectionName)).

End Paths.

End Database.

(** ** Concrete schemas, documents and collections *)

Module Examples.
Import JS Schema Query Collection.

(** Stand-ins for the platform's key derivation and block cipher, to run
    the encrypting adapter on concrete data. *)
Definition toy_scrypt (password salt : string) (keylen : nat) : list byte :=
  firstn keylen (list_byte_of_string (password ++ salt) ++ repeat x00 keylen)%list.

Definition toy_block (key block : list byte) : list byte :=
  map (fun b => DataCryptography.bxor b (nth 0 key x5a)) block.

Definition plainAdapter : Adapter := JsonAdapter.new toy_scrypt toy_block None.

Definition credentials : JsonAdapter.Options :=
  JsonAdapter.mkOptions (Some "user") (Some "pass").

Definition secureAdapter : Adapter := JsonAdapter.new toy_scrypt toy_block (Some credentials).

Definition host0 : Host :=
  mkHost (fun n => 1730548800000 + Z.of_nat n)%Z
         (fun _ => "9f3ab27c01")
         (fun _ => 41%Z)
         (fun n => repeat (DataCryptography.byte_of_N (N.of_nat n)) 16).

Definition path : string := "database/User.vdb".

Definition field (t : FieldType) (required : bool) (unique : option bool) : SchemaConfig :=
  mkSchemaConfig t required unique None None.

(** The schema of the specification's scenario. *)
Definition PersonSchema : Schema :=
  [("name", field TString true None); ("age", field TNumber true (Some true))].

(** Two unique fields. *)
Definition AccountSchema : Schema :=
  [("email", field TString true (Some true)); ("backupEmail", field TString true (Some true))].

(** A unique field that holds an array. *)
Definition TaggedSchema : Schema :=
  [("tags", mkSchemaConfig TArray true (Some true) (Some TString) None)].

(** An optional object field, without and with a nested schema. *)
Definition MetaSchema : Schema := [("meta", field TObject false None)].

Definition NestedMetaSchema : Schema :=
  [("meta", mkSchemaConfig TObject false None None
              (Some [("owner", field TString true None)]))].

(** No declared field. *)
Definition OpenSchema : Schema := [].

Definition person (name : string) (age : Z) : value :=
  VObj [("name", VStr name); ("age", VNum age)].

Definition account (email backupEmail : string) : value :=
  VObj [("email", VStr email); ("backupEmail", VStr backupEmail)].

Definition tagged (tag : string) : value := VObj [("tags", VArr [VStr tag])].

(** The state before the collection is constructed: no file. *)
Definition nothing : State := mkState None 0 0.

(** The state a computation ends in. *)
Definition after {A : Type} (m : M A) (st : State) : State := snd (m st).

(** The text in the file. *)
Definition content (st : State) : string :=
  match file st with
  | Some text => text
  | None => ""
  end.

(** The documents in the file, read through an adapter. *)
Definition stored (adapter : Adapter) (st : State) : result value :=
  match file st with
  | Some text => deserialize adapter text
  | None => Throw IOError
  end.

(** The collection once constructed, with no document. *)
Definition empty : State := after (construct host0 plainAdapter) nothing.

(** Collections built by the engine: one person; two accounts, the first
    one's backup address being the second one's address; one tagged
    document. *)
Definition people : State :=
  after (insertOne host0 plainAdapter path PersonSchema (person "A" 30))
    empty.

Definition accounts : State :=
  after (insertMany host0 plainAdapter path AccountSchema
           [account "a@x.io" "b@x.io"; account "b@x.io" "c@x.io"])
    empty.

Definition tags : State :=
  after (insertOne host0 plainAdapter path TaggedSchema (tagged "a"))
    empty.

(** The documents that the files of [people] and [accounts] hold. *)
Definition people_docs : list value :=
  [VObj [("_id", VStr "672614409f3ab27c0100002a"); ("name", VStr "A"); ("age", VNum 30);
         ("createdAt", VStr "2024-11-02T12:00:00.004Z");
         ("updatedAt", VStr "2024-11-02T12:00:00.005Z")]].

Definition account_docs : list value :=
  [VObj [("_id", VStr "672614409f3ab27c0100002a"); ("email", VStr "a@x.io");
         ("backupEmail", VStr "b@x.io");
         ("createdAt", VStr "2024-11-02T12:00:00.004Z");
         ("updatedAt", VStr "2024-11-02T12:00:00.005Z")];
   VObj [("_id", VStr "672614409f3ab27c0100002b"); ("email", VStr "b@x.io");
         ("backupEmail", VStr "c@x.io");
         ("createdAt", VStr "2024-11-02T12:00:00.008Z");
         ("updatedAt", VStr "2024-11-02T12:00:00.009Z")]].

(** Sixteen bytes as [randomBytes(16)] may return them. *)
Definition iv0 : list byte :=
  [x3a; x91; x07; xc4; x5e; x22; xf0; x6b; x18; xd3; x4f; xa6; x70; x0c; xe9; x85].

(** A document as the engine creates it, its dates being Date objects,
    and the same document with the dates as JSON carries them. *)
Definition fresh : value :=
  VObj [("_id", VStr "1"); ("createdAt", VDate 0); ("updatedAt", VDate 86400000)].

Definition reread : value :=
  VObj [("_id", VStr "1"); ("createdAt", VStr "1970-01-01T00:00:00.000Z");
        ("updatedAt", VStr "1970-01-02T00:00:00.000Z")].

(** A person document that brings an [_id] of its own, and the
    collection after its insert. *)
Definition mine : value := VObj [("_id", VStr "mine"); ("name", VStr "A"); ("age", VNum 30)].

Definition owned : State :=
  after (insertOne host0 plainAdapter path PersonSchema mine) empty.

(** A file written by hand: one document whose [updatedAt] is an empty
    object. *)
Definition handwritten : State :=
  after (writeCollectionData host0 plainAdapter
           (VArr [VObj [("_id", VStr "1"); ("updatedAt", VObj [])]]))
    nothing.

(** A stand-in for the platform's [Date.parse], on the texts that
    toISOString writes for the years 0 to 9999; any other text is NaN. *)
Definition days_from_civil (y m d : Z) : Z :=
  let y' := (if m <=? 2 then y - 1 else y)%Z in
  let era := (y' / 400)%Z in
  let yoe := (y' - era * 400)%Z in
  let doy := ((153 * (if m <=? 2 then m + 9 else m - 3) + 2) / 5 + d - 1)%Z in
  let doe := (yoe * 365 + yoe / 4 - yoe / 100 + doy)%Z in
  (era * 146097 + doe - 719468)%Z.

Definition isoTime (s : string) : option Z :=
  let field (start len : nat) := digits_value (substring start len s) 0 in
  if (String.length s =? 24)%nat
     && (substring 4 1 s =? "-") && (substring 7 1 s =? "-") && (substring 10 1 s =? "T")
     && (substring 13 1 s =? ":") && (substring 16 1 s =? ":") && (substring 19 1 s =? ".")
     && (substring 23 1 s =? "Z")
  then
    match field 0 4, field 5 2, field 8 2, field 11 2, field 14 2, field 17 2, field 20 3 with
    | Some y, Some m, Some d, Some h, Some mi, Some sec, Some ms =>
        Some (days_from_civil y m d * 86400000 + h * 3600000 + mi * 60000 + sec * 1000 + ms)%Z
    | _, _, _, _, _, _, _ => None
    end
  else None.

(** A stand-in for what the platform's sort does with a comparator that
    is not consistent: nothing. *)
Definition as_found (order : Z) (docs : list value) : list value := docs.

(** A stand-in for the platform's [path.join] of a directory and a file
    name. *)
Definition join (dir file : string) : string := dir ++ "/" ++ file.

(** A schema with a date field, and a document of it as the reference
    adapter reads it back. *)
Definition EventSchema : Schema :=
  [("title", field TString true None); ("day", field TDate true None)].

Definition event_docs : list value :=
  [VObj [("_id", VStr "672614409f3ab27c0100002a"); ("title", VStr "T");
         ("day", VStr "2024-11-02T00:00:00.000Z");
         ("createdAt", VStr "2024-11-02T12:00:00.004Z");
         ("updatedAt", VStr "2024-11-02T12:00:00.005Z")]].

(** Credentials that lack the password. *)
Definition halfCredentials : JsonAdapter.Options := JsonAdapter.mkOptions (Some "user") None.

End Examples.

(** * The vocabulary of the statements *)

Module Import Vocabulary.
Import JS Schema Query Collection DataCryptography.

(** ** Objects and operator objects *)

(** The value of property [k] of an object: undefined when there is none. *)
Definition operand (props : list (string * value)) (k : string) : value :=
  match lookup k props with
  | Some x => x
  | None => VUndefined
  end.

(** The rows of [applyQueryOperator] that can throw. *)
Definition in_check (itemValue op_in : value) : result bool :=
  if is_undefined op_in then Ok false
  else b <- isInArray itemValue op_in ;; Ok (negb b).

Definition nin_check (itemValue op_nin : value) : result bool :=
  if is_undefined op_nin then Ok false else isInArray itemValue op_nin.

(** The rows on the ordering operators, as the conditions they impose. *)
Definition bounds_hold (itemValue : value) (props : list (string * value)) : bool :=
  let declared x := negb (is_undefined x) && negb (is_null x) in
  (negb (declared (operand props "$gt")) || gt itemValue (operand props "$gt"))
  && (negb (declared (operand props "$lt")) || lt itemValue (operand props "$lt"))
  && (negb (declared (operand props "$gte")) || ge itemValue (operand props "$gte"))
  && (negb (declared (operand props "$lte")) || le itemValue (operand props "$lte")).

Definition where_holds (itemValue : value) (props : list (string * value)) : bool :=
  is_undefined (operand props "where") || strict_equals itemValue (operand props "where").

(** An operand that an ordering operator leaves alone or compares as a
    number: none, null, or a number. *)
Definition number_or_none (x : value) : bool :=
  match x with
  | VUndefined | VNull | VNum _ => true
  | _ => false
  end.

(** An operand of [$in] or [$nin] that [isInArray] searches as a list:
    none, or an array. *)
Definition array_or_none (x : value) : bool :=
  match x with
  | VUndefined | VArr _ => true
  | _ => false
  end.

(** ** States *)

(** The state after the one reading of the clock that [updateDocument]
    makes. *)
Definition ticked (st : State) : State := mkState (file st) (counter st) (S (tick st)).

(** The state after one [createNewDoc]: the identifier counter has moved
    once and the host has been read four times. After a whole batch. *)
Definition creating (st : State) : State :=
  mkState (file st) (Z.rem (counter st + 1) 16777215) (4 + tick st).

Fixpoint creatingAll (docs : list value) (st : State) : State :=
  match docs with
  | [] => st
  | _ :: rest => creatingAll rest (creating st)
  end.

Section Host.

Variable host : Host.

(** The bytes [writeCollectionData] hands to the adapter in state [st]. *)
Definition iv_at (st : State) : list byte :=
  firstn 16 (entropy host (tick st) ++ repeat x00 16)%list.

(** What [generateId] returns in state [st], and the document and the
    state that [createNewDoc] ends with. *)
Definition newId (st : State) : string :=
  padEnd0 24 (hex_of_Z (clock host (tick st) / 1000) ++ random_hex host (S (tick st))
              ++ padStart0 6 (hex_of_Z (Z.rem (counter st + 1) 16777215))).

Definition created (doc : value) (st : State) : value :=
  VObj (set_prop (set_prop (spread [("_id", VStr (newId st))] doc)
                    "createdAt" (VDate (clock host (2 + tick st))))
          "updatedAt" (VDate (clock host (3 + tick st)))).

Fixpoint createdAll (docs : list value) (st : State) : list value :=
  match docs with
  | [] => []
  | doc :: rest => created doc st :: createdAll rest (creating st)
  end.

(** How a stored document relates to the caller's document it was created
    from: [createdAt] and [updatedAt] are Dates read from the host's
    clock; [_id] is the caller's own [_id] property when the document has
    one, and a generated identifier otherwise. *)
Definition engine_made (doc stored : value) : Prop :=
  (exists n, get stored "createdAt" = Ok (VDate (clock host n)))
  /\ (exists n, get stored "updatedAt" = Ok (VDate (clock host n)))
  /\ (exists id, get stored "_id" = Ok (match lookup "_id" (own_props doc) with
                                        | Some supplied => supplied
                                        | None => VStr id
                                        end)).

End Host.

(** How an updated document relates to the document and the patch it was
    merged from: [updatedAt] is the new Date; [_id] and [createdAt] are
    the patch's properties of that name when it has them, the document's
    otherwise. *)
Definition kept_unless_patched (docToUpdate update updated : value) (t : Z) : Prop :=
  get updated "updatedAt" = Ok (VDate t)
  /\ forall k, k = "_id" \/ k = "createdAt" ->
       get updated k = Ok (match lookup k (own_props update) with
                           | Some patched => patched
                           | None => operand (own_props docToUpdate) k
                           end).

(** ** Unique values *)

(** A persisted document [item] holds the value [v] in the field [f]. *)
Definition holds (item : value) (f : string) (v : value) : bool :=
  match get item f with
  | Ok x => negb (is_undefined x) && strict_equals v x
  | Throw _ => false
  end.

Definition held (old : list value) (f : string) (v : value) : bool :=
  existsb (fun item => holds item f v) old.

(** The document [doc] supplies for [f] a value that a persisted document
    holds in [f]. *)
Definition collides (old : list value) (doc : value) (f : string) : bool :=
  match get doc f with
  | Ok v => negb (is_undefined v) && held old f v
  | Throw _ => false
  end.

(** The set of field [f] in map [m] is the set of values that the
    documents [seen] hold in [f]. *)
Definition indexes (fields : list string) (m : FieldValues) (seen : list value) : Prop :=
  forall f, In f fields ->
    exists values, map_get m f = Some values /\ forall v, set_has values v = held seen f v.

(** ** JSON texts *)

Definition leading_digit (s : string) : bool :=
  match s with
  | String c _ => is_digit c
  | EmptyString => false
  end.

(** What may follow a value in a text that [stringify] wrote: the end, a
    comma or a closing bracket. *)
Definition delimited (rest : string) : bool :=
  match rest with
  | EmptyString => true
  | String c _ => Ascii.eqb c "," || Ascii.eqb c "]" || Ascii.eqb c "}"
  end.

(** The first character of a value's text. *)
Definition starts_value (c : ascii) : bool :=
  is_digit c || existsb (Ascii.eqb c) ["-"; "n"; "t"; "f"; "["; "{"; ascii_of_nat 34]%char.

Definition starts_number (c : ascii) : bool := is_digit c || Ascii.eqb c "-".

(** The text of a value, an undefined one being written null as the
    elements of an array are. *)
Definition text (v : value) : string :=
  match JSON.stringify v with
  | Some s => s
  | None => "null"
  end.

(** The text of an array after its first element, and of an object after
    its first member. *)
Fixpoint elements_tail (l : list value) : string :=
  match l with
  | [] => "]"
  | x :: rest => "," ++ text x ++ elements_tail rest
  end.

Fixpoint members_tail (ps : list (string * value)) : string :=
  match ps with
  | [] => "}"
  | (k, x) :: rest => "," ++ JSON.quote k ++ ":" ++ text x ++ members_tail rest
  end.

(** The same texts with what follows the array or the object, [R],
    carried along and every append to the right. *)
Fixpoint elements_rest (l : list value) (R : string) : string :=
  match l with
  | [] => String "]" R
  | x :: rest => String "," (text x ++ elements_rest rest R)
  end.

Definition member (k : string) (x : value) (after : string) : string :=
  dquote ++ (JSON.escape k ++ (dquote ++ String ":" (text x ++ after))).

Fixpoint members_rest (ps : list (string * value)) (R : string) : string :=
  match ps with
  | [] => String "}" R
  | (k, x) :: rest => String "," (member k x (members_rest rest R))
  end.

(** The property proved of every value by induction: its text, followed
    by a delimiter, is read back as the value, with fuel for the length
    of the text. *)
Definition reads_back (v : value) : Prop :=
  JSON.json_value v = true ->
  forall (fuel : nat) (rest : string),
    delimited rest = true ->
    String.length (text v) <= fuel ->
    JSON.parse_value fuel (text v ++ rest) = Some (v, rest).

(** ** Declared fields *)

(** What [validate] asks of the value [v] of a declared field. *)
Definition conforms (config : SchemaConfig) (v : value) : Prop :=
  match config with
  | mkSchemaConfig type required _ items nested =>
      (required = true -> is_undefined v = false)
      /\ (is_undefined v = false ->
          match type with
          | TString | TNumber | TBoolean => typeof v = type_name type
          | TDate => exists ms, v = VDate ms
          | TArray =>
              exists elems, v = VArr elems
                /\ forall it, items = Some it ->
                     Forall (fun item => typeof item = type_name it) elems
          | TObject =>
              typeof v = "object" /\ isArray v = false
              /\ forall fields, nested = Some fields -> validate fields v = Ok success
          end)
  end.

(** The names of the members that a plain object or a Date inherits, those
    of Object.prototype and of Date.prototype: read from such a value,
    they give the inherited member and not an own property. *)
Definition inherited_names : list string :=
  [ "constructor"; "hasOwnProperty"; "isPrototypeOf"; "propertyIsEnumerable";
    "toLocaleString"; "toString"; "valueOf";
    "__proto__"; "__defineGetter__"; "__defineSetter__"; "__lookupGetter__"; "__lookupSetter__";
    "getDate"; "getDay"; "getFullYear"; "getHours"; "getMilliseconds"; "getMinutes";
    "getMonth"; "getSeconds"; "getTime"; "getTimezoneOffset";
    "getUTCDate"; "getUTCDay"; "getUTCFullYear"; "getUTCHours"; "getUTCMilliseconds";
    "getUTCMinutes"; "getUTCMonth"; "getUTCSeconds"; "getYear";
    "setDate"; "setFullYear"; "setHours"; "setMilliseconds"; "setMinutes"; "setMonth";
    "setSeconds"; "setTime";
    "setUTCDate"; "setUTCFullYear"; "setUTCHours"; "setUTCMilliseconds"; "setUTCMinutes";
    "setUTCMonth"; "setUTCSeconds"; "setYear";
    "toDateString"; "toGMTString"; "toISOString"; "toJSON"; "toLocaleDateString";
    "toLocaleTimeString"; "toTimeString"; "toUTCString"; "toTemporalInstant" ].

(** A declared key for which reading [obj[key]] off a plain object or a
    Date reads an own property or nothing, and which [for...in] visits in
    declaration order: no inherited name, and no leading digit, which
    every integer-like key has ([for...in] visits the integer-like keys
    of an object first, whatever the order they were declared in). *)
Definition ordinary_key (k : string) : bool :=
  negb (existsb (String.eqb k) inherited_names) && negb (leading_digit k).

Fixpoint ordinary_config (config : SchemaConfig) : bool :=
  match config with
  | mkSchemaConfig _ _ _ _ None => true
  | mkSchemaConfig _ _ _ _ (Some fields) =>
      distinct (map fst fields)
      && (fix all (fs : list (string * SchemaConfig)) : bool :=
            match fs with
            | [] => true
            | (k, c) :: rest => ordinary_key k && ordinary_config c && all rest
            end) fields
  end.

(** A schema whose keys, at every depth, are ordinary and pairwise
    distinct, as the keys of an object are. *)
Definition ordinary (schema : Schema) : bool :=
  distinct (map fst schema)
  && forallb (fun kc => ordinary_key (fst kc) && ordinary_config (snd kc)) schema.

(** ** Query values *)

(** A string, a number or a boolean. *)
Definition plain (v : value) : bool :=
  match v with
  | VBool _ | VNum _ | VStr _ => true
  | _ => false
  end.

(** A query value that has no key of its own: a Date, the empty object or
    the empty array. *)
Definition keyless (v : value) : bool :=
  match v with
  | VDate _ | VObj [] | VArr [] => true
  | _ => false
  end.

(** ** Positions in the file *)

(** The documents without the one at position [i]. *)
Definition without_nth (i : nat) (docs : list value) : list value :=
  (firstn i docs ++ skipn (S i) docs)%list.

(** [i] is the first position of [docs] whose document [accepts]
    answers true for, every one before it being answered false. *)
Definition first_match (accepts : value -> result bool) (docs : list value) (i : nat) (d : value)
  : Prop :=
  nth_error docs i = Some d
  /\ accepts d = Ok true
  /\ forall k x, k < i -> nth_error docs k = Some x -> accepts x = Ok false.

(** [newDocs] is [docs] with the document [d] at position [i] and every
    other position as it was. *)
Definition replaced_at (docs : list value) (i : nat) (d : value) (newDocs : list value) : Prop :=
  List.length newDocs = List.length docs
  /\ nth_error newDocs i = Some d
  /\ forall j, j <> i -> nth_error newDocs j = nth_error docs j.

(** [updated] is an object that has [updatedAt] set to the Date [t] and,
    under every other key, the property of the patch when it has one and
    that of the document otherwise. *)
Definition patched (docToUpdate update : value) (t : Z) (updated : value) : Prop :=
  exists props,
    updated = VObj props
    /\ lookup "updatedAt" props = Some (VDate t)
    /\ forall k, k <> "updatedAt" ->
         lookup k props = match lookup k (own_props update) with
                          | Some x => Some x
                          | None => lookup k (own_props docToUpdate)
                          end.

(** ** The order of [find] *)

(** The time value that [find] sorts a document by, and the document
    with it. *)
Definition sort_key (Date_parse : string -> option Z) (doc : value) : Z :=
  match createdTime Date_parse doc with
  | Ok (Some t) => t
  | _ => 0%Z
  end.

Definition keyed (Date_parse : string -> option Z) (doc : value) : Z * value :=
  (sort_key Date_parse doc, doc).

(** [sortOrder === "asc" ? 1 : -1]. *)
Definition order_of (sortOrder : value) : Z :=
  if strict_equals sortOrder (VStr "asc") then 1%Z else (-1)%Z.

(** The documents that [find] keeps: all of them for a query that is
    left out, the matching ones otherwise. *)
Definition kept_by (query : value) (docs : list value) : result (list value) :=
  if truthy query then filter_by (fun item => matchesQuery item query) docs else Ok docs.

(** The documents in the order [find] gives them when each has a time
    value. *)
Definition sorted_docs (Date_parse : string -> option Z) (order : Z) (docs : list value)
  : list value :=
  map snd (stable_sort order (map (keyed Date_parse) docs)).

(** ** JSON images *)

(** What [JSON.parse] reads from the text that [JSON.stringify] writes
    for a value: a Date has become its ISO string, an undefined member
    of an object is gone, an undefined element of an array is null. *)
Fixpoint json_image (v : value) : value :=
  match v with
  | VDate ms => VStr (toISOString ms)
  | VArr items =>
      VArr ((fix each (l : list value) : list value :=
               match l with
               | [] => []
               | x :: rest => (if is_undefined x then VNull else json_image x) :: each rest
               end) items)
  | VObj props =>
      VObj ((fix each (ps : list (string * value)) : list (string * value) :=
               match ps with
               | [] => []
               | (k, x) :: rest =>
                   if is_undefined x then each rest else (k, json_image x) :: each rest
               end) props)
  | _ => v
  end.

Definition image_element (x : value) : value :=
  if is_undefined x then VNull else json_image x.

Definition image_member (kv : string * value) : list (string * value) :=
  if is_undefined (snd kv) then [] else [(fst kv, json_image (snd kv))].

(** The members of an object as [JSON.stringify] writes them, [first]
    telling that none was written yet. *)
Fixpoint members_text (first : bool) (ps : list (string * value)) : string :=
  match ps with
  | [] => "}"
  | (k, x) :: rest =>
      match JSON.stringify x with
      | None => members_text first rest
      | Some s => (if first then "" else ",") ++ JSON.quote k ++ ":" ++ s ++ members_text false rest
      end
  end.

(** ** Paths and credentials *)

(** The character [c] occurs in [s]. *)
Fixpoint occurs (c : ascii) (s : string) : bool :=
  match s with
  | EmptyString => false
  | String x rest => Ascii.eqb x c || occurs c rest
  end.

(** Both credentials are given and neither is empty. *)
Definition complete (info : JsonAdapter.Options) : bool :=
  JsonAdapter.nonempty (JsonAdapter.username info)
  && JsonAdapter.nonempty (JsonAdapter.password info).

(** ** Identifiers *)

(** The identifiers that [createNewDoc] generates for the documents of a
    batch, from the state [st] on. *)
Fixpoint newIds (host : Host) (docs : list value) (st : State) : list string :=
  match docs with
  | [] => []
  | _ :: rest => newId host st :: newIds host rest (creating st)
  end.

(** The host answers the batch with timestamps and random parts that
    make 18 characters, as timestamps of 8 hexadecimal digits and random
    parts of 10 do. *)
Fixpoint regular (host : Host) (docs : list value) (st : State) : Prop :=
  match docs with
  | [] => True
  | _ :: rest =>
      String.length (hex_of_Z (clock host (tick st) / 1000))
      + String.length (random_hex host (S (tick st))) = 18
      /\ regular host rest (creating st)
  end.

(** The number that a string of hexadecimal digits writes. *)
Definition hex_digit (c : ascii) : N :=
  match JSON.hex_value c with
  | Some d => N.of_nat d
  | None => 0%N
  end.

Fixpoint hex_number (s : string) (acc : N) : N :=
  match s with
  | EmptyString => acc
  | String c rest => hex_number rest (16 * acc + hex_digit c)
  end.

(** The text after the first [n] characters. *)
Fixpoint drop (n : nat) (s : string) : string :=
  match n, s with
  | O, _ => s
  | S k, String _ rest => drop k rest
  | S _, EmptyString => ""
  end.

(** An induction principle that reaches the elements of arrays and the
    values of objects. *)
Section ValueInduction.

Variable P : value -> Prop.
Hypothesis P_undefined : P VUndefined.
Hypothesis P_null : P VNull.
Hypothesis P_bool : forall b, P (VBool b).
Hypothesis P_num : forall n, P (VNum n).
Hypothesis P_str : forall s, P (VStr s).
Hypothesis P_date : forall ms, P (VDate ms).
Hypothesis P_arr : forall items, Forall P items -> P (VArr items).
Hypothesis P_obj : forall props, Forall (fun kv => P (snd kv)) props -> P (VObj props).

Fixpoint value_induction (v : value) : P v :=
  match v with
  | VUndefined => P_undefined
  | VNull => P_null
  | VBool b => P_bool b
  | VNum n => P_num n
  | VStr s => P_str s
  | VDate ms => P_date ms
  | VArr items =>
      P_arr items
        ((fix all (l : list value) : Forall P l :=
            match l with
            | [] => Forall_nil P
            | x :: rest => Forall_cons x (value_induction x) (all rest)
            end) items)
  | VObj props =>
      P_obj props
        ((fix all (ps : list (string * value)) : Forall (fun kv => P (snd kv)) ps :=
            match ps with
            | [] => Forall_nil _
            | kv :: rest => Forall_cons kv (value_induction (snd kv)) (all rest)
            end) props)
  end.

End ValueInduction.

End Vocabulary.

(** * Theorems *)

Import JS Schema Query Collection.

(** ** Results and property access *)

Lemma bind_Ok {A B : Type} (m : result A) (k : A -> result B) (b : B) :
  bind m k = Ok b -> exists a, m = Ok a /\ k a = Ok b.
Proof.
  destruct m as [a | e]; simpl; intros H; [ exists a; auto | discriminate ].
Qed.

Lemma get_VObj (props : list (string * value)) (k : string) :
  get (VObj props) k = Ok (operand props k).
Proof.
  unfold get, operand; simpl; destruct (lookup k props); reflexivity.
Qed.

Lemma lookup_without_same (k : string) (props : list (string * value)) :
  lookup k (without k props) = None.
Proof.
  induction props as [| [k' v] rest IH]; simpl; [ reflexivity | ].
  destruct (k' =? k)%string eqn:E; simpl; [ exact IH | rewrite E; exact IH ].
Qed.

Lemma lookup_without_other (k k' : string) (props : list (string * value)) :
  k' <> k -> lookup k' (without k props) = lookup k' props.
Proof.
  intros Hne; induction props as [| [k0 v] rest IH]; simpl; [ reflexivity | ].
  destruct (k0 =? k)%string eqn:E; simpl.
  - apply String.eqb_eq in E; subst k0.
    destruct (k =? k')%string eqn:E'; [ apply String.eqb_eq in E'; congruence | exact IH ].
  - destruct (k0 =? k')%string; [ reflexivity | exact IH ].
Qed.

Lemma lookup_In_keys (k : string) (props : list (string * value)) (v : value) :
  lookup k props = Some v -> In k (map fst props).
Proof.
  induction props as [| [k' x] rest IH]; simpl; [ discriminate | ].
  destruct (k' =? k)%string eqn:E; [ apply String.eqb_eq in E; auto | auto ].
Qed.

(** ** The query operators *)

(** What [applyQueryOperator] computes on an object: the rows whose flag
    is false, those of $eq, $ne and $nin, do not reach the result. *)
Lemma applyQueryOperator_VObj (itemValue : value) (props : list (string * value)) :
  applyQueryOperator itemValue (VObj props) =
  (failed_in <- in_check itemValue (operand props "$in") ;;
   _ <- nin_check itemValue (operand props "$nin") ;;
   Ok (bounds_hold itemValue props && negb failed_in && where_holds itemValue props)).
Proof.
  unfold applyQueryOperator, bounds_hold, where_holds.
  rewrite !get_VObj; cbn [bind].
  fold (in_check itemValue (operand props "$in")).
  fold (nin_check itemValue (operand props "$nin")).
  destruct (in_check itemValue (operand props "$in")) as [failed_in |]; cbn [bind]; [ | reflexivity ].
  destruct (nin_check itemValue (operand props "$nin")) as [failed_nin |]; cbn [bind]; [ | reflexivity ].
  f_equal; cbn [forallb negb orb]; btauto.
Qed.

(** C1 (the code departs from the claim): a declared [$eq], [$ne] or [$nin]
    does not constrain the match.  The document {name: "A", age: 30}
    matches {age: {$eq: 7}}, {age: {$ne: 30}} and {age: {$nin: [30]}}. *)
Theorem eq_ne_nin_do_not_constrain :
  matchesQuery (Examples.person "A" 30) (VObj [("age", VObj [("$eq", VNum 7)])]) = Ok true
  /\ matchesQuery (Examples.person "A" 30) (VObj [("age", VObj [("$ne", VNum 30)])]) = Ok true
  /\ matchesQuery (Examples.person "A" 30) (VObj [("age", VObj [("$nin", VArr [VNum 30])])]) = Ok true.
Proof.
  repeat split; vm_compute; reflexivity.
Qed.

(** The same in general: the operands of [$eq] and [$ne] never reach the
    result, and that of [$nin] only through an exception. *)
Lemma applyQueryOperator_true_iff (itemValue : value) (props : list (string * value)) :
  applyQueryOperator itemValue (VObj props) = Ok true <->
  bounds_hold itemValue props = true
  /\ in_check itemValue (operand props "$in") = Ok false
  /\ (exists b, nin_check itemValue (operand props "$nin") = Ok b)
  /\ where_holds itemValue props = true.
Proof.
  rewrite applyQueryOperator_VObj.
  destruct (in_check itemValue (operand props "$in")) as [failed_in |]; cbn [bind].
  - destruct (nin_check itemValue (operand props "$nin")) as [failed_nin |]; cbn [bind].
    + split.
      * intros H; injection H as H.
        apply andb_true_iff in H as [H Hw]; apply andb_true_iff in H as [Hb Hi].
        apply negb_true_iff in Hi; subst failed_in; eauto.
      * intros (Hb & Hi & _ & Hw); injection Hi as ->; rewrite Hb, Hw; reflexivity.
    + split; [ discriminate | intros (_ & _ & [b Hb] & _); discriminate ].
  - split; [ discriminate | intros (_ & Hi & _); discriminate ].
Qed.

Lemma bounds_hold_without_where (itemValue : value) (props : list (string * value)) :
  bounds_hold itemValue (without "where" props) = bounds_hold itemValue props.
Proof.
  unfold bounds_hold, operand.
  rewrite !lookup_without_other by discriminate; reflexivity.
Qed.

Lemma declared_where (itemValue v : value) (props : list (string * value)) :
  lookup "where" props = Some v -> v <> VUndefined ->
  where_holds itemValue props = strict_equals itemValue v.
Proof.
  intros Hw Hv; unfold where_holds, operand; rewrite Hw.
  destruct v; congruence || reflexivity.
Qed.

(** C10: an object with the key [where] is an operator object, so the
    field is decided by [applyQueryOperator]; and a declared [where: v]
    holds exactly when the field's value is strictly equal to [v]: alone,
    or with [$eq], [$ne] and other keys that decide nothing, the answer
    is that of the strict equality; with the other operators, the value
    is accepted exactly when it is strictly equal to [v] and they accept
    it. *)
Theorem where_is_an_operator :
  forall (props : list (string * value)) (v itemValue : value),
    lookup "where" props = Some v ->
    isQueryOperator (VObj props) = Ok true
    /\ (forall (item : value) (key : string) (nested : value -> result bool),
          matchesKey item key (VObj props) nested
          = (fieldValue <- get item key ;; applyQueryOperator fieldValue (VObj props)))
    /\ (v <> VUndefined ->
        (applyQueryOperator itemValue (VObj props) = Ok true <->
         strict_equals itemValue v = true
         /\ applyQueryOperator itemValue (VObj (without "where" props)) = Ok true)
        /\ (applyQueryOperator itemValue (VObj props) = Ok true <->
            strict_equals itemValue v = true
            /\ bounds_hold itemValue props = true
            /\ in_check itemValue (operand props "$in") = Ok false
            /\ (exists b, nin_check itemValue (operand props "$nin") = Ok b))
        /\ ((forall k, In k ["$gt"; "$lt"; "$gte"; "$lte"; "$in"; "$nin"] ->
                       lookup k props = None) ->
            applyQueryOperator itemValue (VObj props) = Ok (strict_equals itemValue v))).
Proof.
  intros props v itemValue Hw.
  assert (Hop : isQueryOperator (VObj props) = Ok true).
  { unfold isQueryOperator; cbn [Object_keys bind own_props]. f_equal.
    apply existsb_exists; exists "where"; split;
      [ exact (lookup_In_keys _ _ _ Hw) | reflexivity ]. }
  split; [ exact Hop | split ].
  - intros item key nested; unfold matchesKey; rewrite Hop.
    destruct (get item key); reflexivity.
  - intros Hv. split; [ | split ].
    + rewrite !applyQueryOperator_true_iff, bounds_hold_without_where.
      rewrite (declared_where _ _ _ Hw Hv).
      unfold where_holds, operand.
      rewrite lookup_without_same, !lookup_without_other by discriminate.
      cbn [orb is_undefined]. tauto.
    + rewrite applyQueryOperator_true_iff, (declared_where _ _ _ Hw Hv). tauto.
    + intros Hnone. rewrite applyQueryOperator_VObj.
      unfold bounds_hold, operand.
      rewrite !Hnone by (cbn [In]; tauto).
      rewrite (declared_where _ _ _ Hw Hv); reflexivity.
Qed.

Lemma where_is_an_operator_witness :
  isQueryOperator (VObj [("$gte", VNum 18); ("where", VNum 30)]) = Ok true
  /\ applyQueryOperator (VNum 30) (VObj [("$gte", VNum 18); ("where", VNum 30)]) = Ok true
  /\ applyQueryOperator (VNum 31) (VObj [("$ne", VNum 31); ("where", VNum 30)]) = Ok false.
Proof.
  split; [ | split ].
  - exact (proj1 (where_is_an_operator [("$gte", VNum 18); ("where", VNum 30)]
                    (VNum 30) (VNum 30) eq_refl)).
  - refine (proj2 (proj1 (proj2 (proj2 (proj2 (where_is_an_operator
                     [("$gte", VNum 18); ("where", VNum 30)] (VNum 30) (VNum 30) eq_refl)) _))) _).
    + discriminate.
    + split; [ reflexivity | split; [ vm_compute; reflexivity | split ] ];
        [ reflexivity | exists false; reflexivity ].
  - refine (proj2 (proj2 (proj2 (proj2 (where_is_an_operator
                     [("$ne", VNum 31); ("where", VNum 30)] (VNum 30) (VNum 31) eq_refl)) _)) _).
    + discriminate.
    + intros k Hk; cbn [In] in Hk.
      destruct Hk as [<- | [<- | [<- | [<- | [<- | [<- | []]]]]]]; reflexivity.
Defined.

(** ** The operators on a number *)

Lemma IsLessThan_numbers (a b : Z) : IsLessThan (VNum a) (VNum b) = Some (a <? b)%Z.
Proof.
  unfold IsLessThan; cbn [ToPrimitive ToNumber lessThan].
  rewrite Z.min_id, !Z.sub_diag, !Z.mul_1_r; reflexivity.
Qed.

(** An ordering operator on a number: an operand that is a number is a
    bound in the order of the integers, null and no operand are no bound. *)
Lemma bound_on_a_number (op : value -> value -> bool) (holds : Z -> Z -> Prop) (n : Z) (x : value) :
  (forall b, op (VNum n) (VNum b) = true <-> holds n b) ->
  number_or_none x = true ->
  (negb (negb (is_undefined x) && negb (is_null x)) || op (VNum n) x = true
   <-> forall b, x = VNum b -> holds n b).
Proof.
  intros Hop Hx; destruct x; try discriminate Hx; cbn [is_undefined is_null negb andb orb].
  - split; [ intros _ b Hb; discriminate | reflexivity ].
  - split; [ intros _ b Hb; discriminate | reflexivity ].
  - rewrite Hop; split; [ intros H b Hb; injection Hb as <-; exact H | intros H; exact (H _ eq_refl) ].
Qed.

Lemma strict_equals_number (n : Z) (x : value) : strict_equals (VNum n) x = true <-> x = VNum n.
Proof.
  destruct x; cbn [strict_equals]; try (split; [ discriminate | discriminate ]).
  rewrite Z.eqb_eq; split; [ intros -> | intros H; injection H as -> ]; reflexivity.
Qed.

Lemma includes_a_number (n : Z) (arr : list value) :
  existsb (strict_equals (VNum n)) arr = true <-> In (VNum n) arr.
Proof.
  rewrite existsb_exists; split.
  - intros (x & Hin & Hx); apply strict_equals_number in Hx; subst x; exact Hin.
  - intros Hin; exists (VNum n); split; [ exact Hin | apply strict_equals_number; reflexivity ].
Qed.

(** What an operator object asks of a number [n], when its bounds are
    numbers and its lists are arrays: the call returns, and it accepts [n]
    exactly when [n] is above [$gt], below [$lt], at least [$gte], at most
    [$lte], an element of [$in] and the value of [where], each of them
    only when it is declared.  The operands of [$eq], [$ne] and [$nin] are
    not asked. *)
Theorem operators_on_a_number :
  forall (n : Z) (props : list (string * value)),
    (forall k, In k ["$gt"; "$lt"; "$gte"; "$lte"] -> number_or_none (operand props k) = true) ->
    (forall k, In k ["$in"; "$nin"] -> array_or_none (operand props k) = true) ->
    (exists b, applyQueryOperator (VNum n) (VObj props) = Ok b)
    /\ (applyQueryOperator (VNum n) (VObj props) = Ok true <->
        (forall b, operand props "$gt" = VNum b -> (b < n)%Z)
        /\ (forall b, operand props "$lt" = VNum b -> (n < b)%Z)
        /\ (forall b, operand props "$gte" = VNum b -> (b <= n)%Z)
        /\ (forall b, operand props "$lte" = VNum b -> (n <= b)%Z)
        /\ (forall arr, operand props "$in" = VArr arr -> In (VNum n) arr)
        /\ (operand props "where" = VUndefined \/ operand props "where" = VNum n)).
Proof.
  intros n props Hbounds Hlists.
  assert (Hin : exists failed, in_check (VNum n) (operand props "$in") = Ok failed
                  /\ (failed = false <->
                      forall arr, operand props "$in" = VArr arr -> In (VNum n) arr)).
  { pose proof (Hlists "$in" (or_introl eq_refl)) as H.
    destruct (operand props "$in") as [| | | | | | arr |]; try discriminate H.
    - exists false; split; [ reflexivity | split; [ intros _ arr Harr; discriminate | reflexivity ] ].
    - exists (negb (existsb (strict_equals (VNum n)) arr)); split; [ reflexivity | ].
      rewrite negb_false_iff, includes_a_number.
      split; [ intros H' arr' Harr; injection Harr as <-; exact H' | intros H'; exact (H' _ eq_refl) ]. }
  assert (Hnin : exists b, nin_check (VNum n) (operand props "$nin") = Ok b).
  { pose proof (Hlists "$nin" (or_intror (or_introl eq_refl))) as H.
    destruct (operand props "$nin"); try discriminate H; eexists; reflexivity. }
  destruct Hin as (failed & Hin & Hfailed); destruct Hnin as (b & Hnin).
  split.
  - rewrite applyQueryOperator_VObj, Hin, Hnin; cbn [bind]; eexists; reflexivity.
  - rewrite applyQueryOperator_true_iff, Hin.
    unfold bounds_hold, where_holds. rewrite !andb_true_iff.
    rewrite (bound_on_a_number gt (fun n b => (b < n)%Z));
      [ | intros b0; unfold gt; rewrite IsLessThan_numbers; destruct (Z.ltb_spec b0 n); split; (lia || congruence || discriminate)
        | apply Hbounds; cbn [In]; tauto ].
    rewrite (bound_on_a_number lt (fun n b => (n < b)%Z));
      [ | intros b0; unfold lt; rewrite IsLessThan_numbers; destruct (Z.ltb_spec n b0); split; (lia || congruence || discriminate)
        | apply Hbounds; cbn [In]; tauto ].
    rewrite (bound_on_a_number ge (fun n b => (b <= n)%Z));
      [ | intros b0; unfold ge; rewrite IsLessThan_numbers; destruct (Z.ltb_spec n b0); split; (lia || congruence || discriminate)
        | apply Hbounds; cbn [In]; tauto ].
    rewrite (bound_on_a_number le (fun n b => (n <= b)%Z));
      [ | intros b0; unfold le; rewrite IsLessThan_numbers; destruct (Z.ltb_spec b0 n); split; (lia || congruence || discriminate)
        | apply Hbounds; cbn [In]; tauto ].
    rewrite <- Hfailed.
    assert (Hwhere : is_undefined (operand props "where")
                     || strict_equals (VNum n) (operand props "where") = true
                     <-> operand props "where" = VUndefined \/ operand props "where" = VNum n).
    { rewrite orb_true_iff, strict_equals_number.
      destruct (operand props "where"); cbn [is_undefined]; intuition congruence. }
    rewrite Hwhere.
    split.
    + intros ((((H1 & H2) & H3) & H4) & Hi & _ & Hw). injection Hi as Hi. tauto.
    + intros (H1 & H2 & H3 & H4 & Hi & Hw). rewrite Hi. repeat split; try assumption. eauto.
Qed.

Lemma operators_on_a_number_witness :
  applyQueryOperator (VNum 30)
    (VObj [("$gte", VNum 18); ("$lt", VNum 65); ("$in", VArr [VNum 30; VNum 40]);
           ("$ne", VNum 30); ("$nin", VArr [VNum 30])]) = Ok true
  /\ applyQueryOperator (VNum 30) (VObj [("$gt", VNum 30); ("$eq", VNum 30)]) = Ok false.
Proof.
  split.
  - apply (operators_on_a_number 30
             [("$gte", VNum 18); ("$lt", VNum 65); ("$in", VArr [VNum 30; VNum 40]);
              ("$ne", VNum 30); ("$nin", VArr [VNum 30])]).
    + intros k Hk; cbn [In] in Hk; destruct Hk as [<- | [<- | [<- | [<- | []]]]]; reflexivity.
    + intros k Hk; cbn [In] in Hk; destruct Hk as [<- | [<- | []]]; reflexivity.
    + repeat split.
      * intros b Hb; discriminate.
      * intros b Hb; injection Hb as <-; lia.
      * intros b Hb; injection Hb as <-; lia.
      * intros b Hb; discriminate.
      * intros arr Harr; injection Harr as <-; left; reflexivity.
      * left; reflexivity.
  - destruct (operators_on_a_number 30 [("$gt", VNum 30); ("$eq", VNum 30)]) as [[b Hb] Hiff].
    + intros k Hk; cbn [In] in Hk; destruct Hk as [<- | [<- | [<- | [<- | []]]]]; reflexivity.
    + intros k Hk; cbn [In] in Hk; destruct Hk as [<- | [<- | []]]; reflexivity.
    + rewrite Hb in Hiff |- *. destruct b; [ | reflexivity ].
      destruct (proj1 Hiff eq_refl) as (H & _). specialize (H 30%Z eq_refl). lia.
Defined.

(** ** Schema validation *)

Lemma checkField_object (key : string) (required : bool) (u : option bool)
  (items : option FieldType) (nested : Schema) (value : value) :
  is_undefined value = false ->
  checkField key (mkSchemaConfig TObject required u items (Some nested)) value =
  if negb (typeof value =? "object") || isArray value then
    Ok (Some (failure ("Property " ++ key ++ " should be an object.")))
  else
    nestedValidation <- validate nested value ;;
    if is_error nestedValidation then Ok (Some nestedValidation) else Ok None.
Proof.
  intros Hu; cbn [checkField]; rewrite Hu, andb_false_r.
  destruct (negb (typeof value =? "object") || isArray value); [ reflexivity | ].
  f_equal. induction nested as [| [k c] rest IH]; [ reflexivity | ].
  cbn [validate]. rewrite <- IH. reflexivity.
Qed.

(** The part of the claim on object fields that the code keeps: a supplied
    value that is no object, or is an array, is refused, and an ERROR of
    the nested schema is the result as it is. *)
Lemma object_field_validation (key : string) (required : bool) (u : option bool)
  (items : option FieldType) (nested : option Schema) (rest : Schema) (obj value : value) :
  get obj key = Ok value ->
  is_undefined value = false ->
  (negb (typeof value =? "object") || isArray value = true ->
   validate ((key, mkSchemaConfig TObject required u items nested) :: rest) obj
   = Ok (failure ("Property " ++ key ++ " should be an object.")))
  /\ (forall (fields : Schema) (response : ValidationResponse),
        nested = Some fields ->
        negb (typeof value =? "object") || isArray value = false ->
        validate fields value = Ok response ->
        status response = ERROR ->
        validate ((key, mkSchemaConfig TObject required u items nested) :: rest) obj = Ok response).
Proof.
  intros Hget Hu; split.
  - intros Hbad; cbn [validate]; rewrite Hget; cbn [bind].
    destruct nested as [fields |].
    + rewrite checkField_object, Hbad by exact Hu; reflexivity.
    + cbn [checkField]; rewrite Hu, andb_false_r, Hbad; reflexivity.
  - intros fields response -> Hgood Hval Herr; cbn [validate]; rewrite Hget; cbn [bind].
    rewrite checkField_object, Hgood, Hval by exact Hu; cbn [bind].
    unfold is_error; rewrite Herr; reflexivity.
Qed.

Lemma object_field_validation_witness :
  validate Examples.MetaSchema (VObj [("meta", VStr "x")])
  = Ok (failure "Property meta should be an object.").
Proof.
  exact (proj1 (object_field_validation "meta" false None None None []
                  (VObj [("meta", VStr "x")]) (VStr "x") eq_refl eq_refl) eq_refl).
Defined.

(** C7 (the code departs from the claim): null is [typeof] "object" and
    is no array, so an object field accepts it: without a nested schema
    the candidate {meta: null} validates, and with one the nested
    validation reads a property of null and throws. *)
Theorem null_passes_for_an_object :
  validate Examples.MetaSchema (VObj [("meta", VNull)]) = Ok success
  /\ validate Examples.NestedMetaSchema (VObj [("meta", VNull)]) = Throw TypeError.
Proof.
  split; reflexivity.
Qed.

(** ** Reading and writing the collection file *)

Section Storage.

Variable host : Host.
Variable adapter : Adapter.

Lemma readCollectionData_eq (st : State) :
  readCollectionData adapter st =
  match file st with
  | Some text => (deserialize adapter text, st)
  | None => (Throw IOError, st)
  end.
Proof.
  unfold readCollectionData, bindM, readFile, lift.
  destruct (file st); reflexivity.
Qed.

Lemma writeCollectionData_eq (data : value) (st : State) :
  writeCollectionData host adapter data st =
  match serialize adapter (iv_at host st) data with
  | Ok text => (Ok tt, mkState (Some text) (counter st) (S (tick st)))
  | Throw e => (Throw e, mkState (file st) (counter st) (S (tick st)))
  end.
Proof.
  unfold writeCollectionData, bindM, randomBytes16, lift, writeFile, iv_at; cbn.
  destruct (serialize adapter _ data); reflexivity.
Qed.

(** A write that fails leaves the file as it was. *)
Lemma writeCollectionData_Throw (data : value) (st st' : State) (e : exn) :
  writeCollectionData host adapter data st = (Throw e, st') -> file st' = file st.
Proof.
  rewrite writeCollectionData_eq.
  destruct (serialize adapter (iv_at host st) data); intros H; inversion H; reflexivity.
Qed.

Lemma find_from_none (f : value -> result bool) (items : list value) (i : nat) :
  Forall (fun item => f item = Ok false) items -> find_from f i items = Ok None.
Proof.
  intros H; revert i; induction H as [| x rest Hx _ IH]; intros i; cbn [find_from];
    [ reflexivity | rewrite Hx; cbn [bind]; apply IH ].
Qed.

Lemma deleteFound_Throw (message : string) (items : list value)
  (found : option (nat * value)) (st st' : State) (e : exn) :
  deleteFound host adapter message items found st = (Throw e, st') -> file st' = file st.
Proof.
  unfold deleteFound, lift.
  destruct found as [[index doc] |]; [ destruct (truthy doc) | ];
    try (intros H; inversion H; reflexivity).
  apply writeCollectionData_Throw.
Qed.

(** Whatever makes a delete fail, the file is as it was. *)
Lemma failed_delete_keeps_file (st st' : State) (e : exn) :
  (forall _id, deleteById host adapter _id st = (Throw e, st') -> file st' = file st)
  /\ (forall query, deleteOne host adapter query st = (Throw e, st') -> file st' = file st).
Proof.
  split; intros x; unfold deleteById, deleteOne, bindM;
    rewrite readCollectionData_eq; unfold lift;
    (destruct (file st) as [text |] eqn:Hfile; [ | intros H; inversion H; subst; assumption ]);
    (destruct (deserialize adapter text) as [docs |]; [ | intros H; inversion H; subst; assumption ]);
    (destruct (as_array docs) as [items |]; [ | intros H; inversion H; subst; assumption ]);
    match goal with
    | |- context [find_from ?f 0 items] =>
        destruct (find_from f 0 items) as [found |]; [ | intros H; inversion H; subst; assumption ]
    end;
    rewrite <- Hfile; apply deleteFound_Throw.
Qed.

(** C8: when the id is the [_id] of no persisted document, [deleteById]
    throws its not-found error and the state, the file in it, is the one
    before the call; the same for [deleteOne] and a query that no
    persisted document matches. *)
Theorem failed_delete_writes_nothing :
  forall (st : State) (text : string) (items : list value),
    file st = Some text ->
    deserialize adapter text = Ok (VArr items) ->
    (forall _id : string,
        Forall (fun doc => has_id _id doc = Ok false) items ->
        deleteById host adapter _id st = (Throw (Error "No document matches the ID"), st))
    /\ (forall query : value,
          Forall (fun doc => matchesQuery doc query = Ok false) items ->
          deleteOne host adapter query st = (Throw (Error "No document matches the query"), st)).
Proof.
  intros st text items Hfile Hparse; split; intros x Hnone;
    unfold deleteById, deleteOne, bindM;
    rewrite readCollectionData_eq, Hfile, Hparse; cbn [lift as_array];
    rewrite (find_from_none _ _ _ Hnone); reflexivity.
Qed.

End Storage.

Lemma failed_delete_writes_nothing_witness :
  deleteById Examples.host0 Examples.plainAdapter "0123456789abcdef01234567" Examples.people
  = (Throw (Error "No document matches the ID"), Examples.people)
  /\ deleteOne Examples.host0 Examples.plainAdapter (VObj [("name", VStr "Z")]) Examples.people
     = (Throw (Error "No document matches the query"), Examples.people).
Proof.
  destruct (failed_delete_writes_nothing Examples.host0 Examples.plainAdapter Examples.people
              (Examples.content Examples.people)
              Examples.people_docs)
    as [Hid Hquery]; [ vm_compute; reflexivity | vm_compute; reflexivity | ].
  split.
  - apply Hid. repeat constructor.
  - apply Hquery. repeat constructor.
Defined.

(** ** Updates *)

Lemma get_readable (v : value) (k : string) :
  readable v = true -> exists x, get v k = Ok x.
Proof.
  destruct v; try discriminate; intros _; unfold get;
    match goal with
    | |- context [lookup k ?l] => destruct (lookup k l)
    end; eauto.
Qed.

Lemma forEach_get_readable (v : value) (fields : list string) :
  readable v = true ->
  forEach (fun field => _ <- get v field ;; Ok tt) fields = Ok tt.
Proof.
  intros Hv; induction fields as [| f rest IH]; cbn [forEach]; [ reflexivity | ].
  destruct (get_readable v f Hv) as [x ->]; cbn [bind]; exact IH.
Qed.

Section Updates.

Variable host : Host.
Variable adapter : Adapter.
Variable collectionPath : string.
Variable schema : Schema.

(** [updateById] and [updateOne] locate the target and end in
    [updateDocument]. *)
Lemma updateById_located (_id : string) (update : value) (st : State) (text : string)
  (docs : list value) (docIndex : nat) (doc : value) :
  file st = Some text ->
  deserialize adapter text = Ok (VArr docs) ->
  find_from (has_id _id) 0 docs = Ok (Some (docIndex, doc)) ->
  updateById host adapter collectionPath schema _id update st
  = updateDocument host adapter collectionPath schema docs docIndex update st.
Proof.
  intros Hfile Hparse Hfound; unfold updateById, bindM.
  rewrite readCollectionData_eq, Hfile, Hparse; cbn [lift as_array].
  rewrite Hfound; reflexivity.
Qed.

Lemma updateOne_located (query update : value) (st : State) (text : string)
  (docs : list value) (docIndex : nat) (doc : value) :
  file st = Some text ->
  deserialize adapter text = Ok (VArr docs) ->
  find_from (fun item => matchesQuery item query) 0 docs = Ok (Some (docIndex, doc)) ->
  updateOne host adapter collectionPath schema query update st
  = updateDocument host adapter collectionPath schema docs docIndex update st.
Proof.
  intros Hfile Hparse Hfound; unfold updateOne, bindM.
  rewrite readCollectionData_eq, Hfile, Hparse; cbn [lift as_array].
  rewrite Hfound; reflexivity.
Qed.

(** [updateDocument] once validation and the unique checks have passed. *)
Lemma updateDocument_checked (docs : list value) (docIndex : nat) (update : value) (st : State) :
  validateDocument schema (merged (nth docIndex docs VUndefined) update (clock host (tick st)))
  = Ok tt ->
  readable (nth docIndex docs VUndefined) = true ->
  forEach (checkUnique collectionPath docs docIndex (nth docIndex docs VUndefined) update
             (merged (nth docIndex docs VUndefined) update (clock host (tick st)))
             (getUniqueFields schema))
    (getUniqueFields schema) = Ok tt ->
  updateDocument host adapter collectionPath schema docs docIndex update st =
  if deepEqual (nth docIndex docs VUndefined)
       (merged (nth docIndex docs VUndefined) update (clock host (tick st)))
  then (Ok tt, ticked st)
  else writeCollectionData host adapter
         (VArr (assign docs docIndex
                  (merged (nth docIndex docs VUndefined) update (clock host (tick st)))))
         (ticked st).
Proof.
  intros Hvalid Hread Hunique.
  unfold updateDocument, bindM, now, lift; cbn [tick file counter].
  rewrite Hvalid, (forEach_get_readable _ _ Hread), Hunique.
  destruct (deepEqual _ _); reflexivity.
Qed.

End Updates.

(** ** Objects under construction *)

Lemma lookup_set_prop_same (props : list (string * value)) (k : string) (v : value) :
  lookup k (set_prop props k v) = Some v.
Proof.
  induction props as [| [k' v'] rest IH]; cbn [set_prop lookup].
  - rewrite String.eqb_refl; reflexivity.
  - destruct (k' =? k)%string eqn:E; cbn [lookup]; rewrite E; [ reflexivity | exact IH ].
Qed.

Lemma lookup_set_prop_other (props : list (string * value)) (k k' : string) (v : value) :
  k <> k' -> lookup k (set_prop props k' v) = lookup k props.
Proof.
  intros Hne; induction props as [| [k0 v0] rest IH]; cbn [set_prop lookup].
  - destruct (k' =? k)%string eqn:E; [ apply String.eqb_eq in E; congruence | reflexivity ].
  - destruct (k0 =? k')%string eqn:E; cbn [lookup].
    + apply String.eqb_eq in E; subst k0.
      destruct (k' =? k)%string eqn:E'; [ apply String.eqb_eq in E'; congruence | reflexivity ].
    + destruct (k0 =? k)%string; [ reflexivity | exact IH ].
Qed.

Lemma existsb_eqb_In (k : string) (keys : list string) :
  existsb (String.eqb k) keys = true <-> In k keys.
Proof.
  rewrite existsb_exists; split.
  - intros (x & Hin & Heq); apply String.eqb_eq in Heq; subst; exact Hin.
  - intros Hin; exists k; split; [ exact Hin | apply String.eqb_refl ].
Qed.

Lemma lookup_None_not_In (k : string) (props : list (string * value)) :
  ~ In k (map fst props) -> lookup k props = None.
Proof.
  induction props as [| [k' v] rest IH]; cbn [lookup map fst]; [ reflexivity | ].
  intros Hnot; destruct (k' =? k)%string eqn:E.
  - apply String.eqb_eq in E; subst; exfalso; apply Hnot; left; reflexivity.
  - apply IH; intros Hin; apply Hnot; right; exact Hin.
Qed.

(** What a spread leaves under a key: the source's property when it has
    one, the base's otherwise. *)
Lemma lookup_fold_set_prop (src base : list (string * value)) (k : string) :
  distinct (map fst src) = true ->
  lookup k (fold_left (fun acc kv => set_prop acc (fst kv) (snd kv)) src base) =
  match lookup k src with
  | Some x => Some x
  | None => lookup k base
  end.
Proof.
  revert base; induction src as [| [k1 v1] rest IH]; intros base Hd; cbn [fold_left lookup];
    [ reflexivity | ].
  cbn [map fst distinct] in Hd; apply andb_true_iff in Hd as [Hfresh Hd].
  rewrite (IH _ Hd); cbn [fst snd].
  destruct (k1 =? k)%string eqn:E.
  - apply String.eqb_eq in E; subst k1.
    rewrite lookup_None_not_In.
    + apply lookup_set_prop_same.
    + intros Hin; apply existsb_eqb_In in Hin; rewrite Hin in Hfresh; discriminate.
  - destruct (lookup k rest); [ reflexivity | ].
    apply lookup_set_prop_other; intros ->; rewrite String.eqb_refl in E; discriminate.
Qed.

Lemma lookup_spread (base : list (string * value)) (src : value) (k : string) :
  distinct (map fst (own_props src)) = true ->
  lookup k (spread base src) =
  match lookup k (own_props src) with
  | Some x => Some x
  | None => lookup k base
  end.
Proof.
  apply lookup_fold_set_prop.
Qed.

(** ** An update that writes: the document replaced in place *)

Lemma find_from_found (f : value -> result bool) (docs : list value) (start i : nat) (d : value) :
  find_from f start docs = Ok (Some (i, d)) ->
  exists j, i = start + j /\ nth_error docs j = Some d.
Proof.
  revert start; induction docs as [| x rest IH]; intros start; cbn [find_from]; [ discriminate | ].
  destruct (f x) as [[|] |]; cbn [bind]; [ | | discriminate ].
  - intros H; injection H as <- <-; exists 0; split; [ lia | reflexivity ].
  - intros H; destruct (IH _ H) as (j & -> & Hj); exists (S j); split; [ lia | exact Hj ].
Qed.

Lemma assign_replaced_at (docs : list value) (i : nat) (d : value) :
  i < List.length docs -> replaced_at docs i d (assign docs i d).
Proof.
  revert i; induction docs as [| x rest IH]; intros i Hi; cbn [List.length] in Hi; [ lia | ].
  destruct i as [| i]; cbn [assign].
  - split; [ reflexivity | split; [ reflexivity | ] ].
    intros [| j] Hj; [ congruence | reflexivity ].
  - destruct (IH i ltac:(lia)) as (Hlen & Hat & Hother).
    split; [ cbn [List.length]; rewrite Hlen; reflexivity | split; [ exact Hat | ] ].
    intros [| j] Hj; cbn [nth_error]; [ reflexivity | apply Hother; congruence ].
Qed.

Lemma merged_patched (docToUpdate update : value) (t : Z) :
  distinct (map fst (own_props docToUpdate)) = true ->
  distinct (map fst (own_props update)) = true ->
  patched docToUpdate update t (merged docToUpdate update t).
Proof.
  intros Hdoc Hupdate; unfold merged; eexists; split; [ reflexivity | split ].
  - apply lookup_set_prop_same.
  - intros k Hk.
    rewrite lookup_set_prop_other by exact Hk.
    rewrite (lookup_spread _ update k Hupdate), (lookup_spread _ docToUpdate k Hdoc).
    cbn [lookup]. destruct (lookup k (own_props docToUpdate)); reflexivity.
Qed.

Section UpdateWrites.

Variable host : Host.
Variable adapter : Adapter.
Variable collectionPath : string.
Variable schema : Schema.

(** C9: for an update that [updateById] or [updateOne] has located, that
    validates and passes the unique checks: when the merged document is
    [deepEqual] to the existing one, the call returns without a write, the
    file being the one before; otherwise the sequence with the merged
    document in it is serialized into the file.  That sequence is the one
    read with the merged document at the place of the existing one and
    every other document where it was; and the merged document has
    [updatedAt] set to a new Date and, under every other key, the
    property of the patch when it has one and that of the existing
    document otherwise. *)
Theorem update_writes_unless_deep_equal :
  forall (docs : list value) (docIndex : nat) (update : value) (st : State) (text : string),
    file st = Some text ->
    deserialize adapter text = Ok (VArr docs) ->
    validateDocument schema (merged (nth docIndex docs VUndefined) update (clock host (tick st)))
    = Ok tt ->
    readable (nth docIndex docs VUndefined) = true ->
    forEach (checkUnique collectionPath docs docIndex (nth docIndex docs VUndefined) update
               (merged (nth docIndex docs VUndefined) update (clock host (tick st)))
               (getUniqueFields schema))
      (getUniqueFields schema) = Ok tt ->
    forall run : State -> result unit * State,
      (exists _id doc,
          find_from (has_id _id) 0 docs = Ok (Some (docIndex, doc))
          /\ run = updateById host adapter collectionPath schema _id update)
      \/ (exists query doc,
            find_from (fun item => matchesQuery item query) 0 docs = Ok (Some (docIndex, doc))
            /\ run = updateOne host adapter collectionPath schema query update) ->
      (deepEqual (nth docIndex docs VUndefined)
         (merged (nth docIndex docs VUndefined) update (clock host (tick st))) = true ->
       run st = (Ok tt, ticked st) /\ file (ticked st) = Some text)
      /\ (deepEqual (nth docIndex docs VUndefined)
            (merged (nth docIndex docs VUndefined) update (clock host (tick st))) = false ->
          forall written : string,
            serialize adapter (iv_at host (ticked st))
              (VArr (assign docs docIndex
                       (merged (nth docIndex docs VUndefined) update (clock host (tick st)))))
            = Ok written ->
            run st = (Ok tt, mkState (Some written) (counter st) (S (S (tick st)))))
      /\ replaced_at docs docIndex
           (merged (nth docIndex docs VUndefined) update (clock host (tick st)))
           (assign docs docIndex
              (merged (nth docIndex docs VUndefined) update (clock host (tick st))))
      /\ (distinct (map fst (own_props (nth docIndex docs VUndefined))) = true ->
          distinct (map fst (own_props update)) = true ->
          patched (nth docIndex docs VUndefined) update (clock host (tick st))
            (merged (nth docIndex docs VUndefined) update (clock host (tick st)))).
Proof.
  intros docs docIndex update st text Hfile Hparse Hvalid Hread Hunique run Hrun.
  assert (Heq : run st = updateDocument host adapter collectionPath schema docs docIndex update st).
  { destruct Hrun as [(_id & doc & Hfound & ->) | (query & doc & Hfound & ->)].
    - exact (updateById_located _ _ _ _ _ _ _ _ _ _ _ Hfile Hparse Hfound).
    - exact (updateOne_located _ _ _ _ _ _ _ _ _ _ _ Hfile Hparse Hfound). }
  assert (Hin : docIndex < List.length docs).
  { destruct Hrun as [(_id & doc & Hfound & _) | (query & doc & Hfound & _)];
      destruct (find_from_found _ _ _ _ _ Hfound) as (j & -> & Hj);
      apply nth_error_Some; cbn [Nat.add]; congruence. }
  rewrite Heq, (updateDocument_checked _ _ _ _ _ _ _ _ Hvalid Hread Hunique).
  split; [ | split; [ | split ] ].
  - intros ->; split; [ reflexivity | exact Hfile ].
  - intros -> written Hwritten.
    rewrite writeCollectionData_eq, Hwritten; reflexivity.
  - exact (assign_replaced_at _ _ _ Hin).
  - apply merged_patched.
Qed.

End UpdateWrites.

Lemma update_writes_unless_deep_equal_witness :
  (updateById Examples.host0 Examples.plainAdapter Examples.path Examples.OpenSchema
     "1" (VObj []) Examples.handwritten
   = (Ok tt, ticked Examples.handwritten)
   /\ file (ticked Examples.handwritten) = Some (Examples.content Examples.handwritten))
  /\ (exists written : string,
        updateOne Examples.host0 Examples.plainAdapter Examples.path Examples.PersonSchema
          (VObj [("age", VNum 30)]) (VObj [("name", VStr "B")]) Examples.people
        = (Ok tt, mkState (Some written) (counter Examples.people) (S (S (tick Examples.people)))))
  /\ (exists updated : list (string * value),
        nth_error (assign Examples.people_docs 0
                     (merged (nth 0 Examples.people_docs VUndefined) (VObj [("name", VStr "B")])
                        (clock Examples.host0 (tick Examples.people)))) 0
        = Some (VObj updated)
        /\ lookup "name" updated = Some (VStr "B")
        /\ lookup "age" updated = Some (VNum 30)
        /\ lookup "updatedAt" updated = Some (VDate (clock Examples.host0 (tick Examples.people)))).
Proof.
  split; [ | split ].
  - refine (proj1 (update_writes_unless_deep_equal Examples.host0 Examples.plainAdapter
                     Examples.path Examples.OpenSchema
                     [VObj [("_id", VStr "1"); ("updatedAt", VObj [])]] 0 (VObj [])
                     Examples.handwritten (Examples.content Examples.handwritten)
                     _ _ _ _ _
                     (updateById Examples.host0 Examples.plainAdapter Examples.path
                        Examples.OpenSchema "1" (VObj []))
                     (or_introl (ex_intro _ "1" (ex_intro _
                        (VObj [("_id", VStr "1"); ("updatedAt", VObj [])]) (conj _ eq_refl)))))
                  _);
      vm_compute; reflexivity.
  - eexists.
    refine (proj1 (proj2 (update_writes_unless_deep_equal Examples.host0 Examples.plainAdapter
                     Examples.path Examples.PersonSchema
                     Examples.people_docs 0
                     (VObj [("name", VStr "B")])
                     Examples.people (Examples.content Examples.people)
                     _ _ _ _ _
                     (updateOne Examples.host0 Examples.plainAdapter Examples.path
                        Examples.PersonSchema (VObj [("age", VNum 30)]) (VObj [("name", VStr "B")]))
                     (or_intror (ex_intro _ (VObj [("age", VNum 30)]) (ex_intro _
                        (nth 0 Examples.people_docs VUndefined)
                        (conj _ eq_refl))))))
                  _ _ _);
      vm_compute; reflexivity.
  - assert (H : replaced_at Examples.people_docs 0
                  (merged (nth 0 Examples.people_docs VUndefined) (VObj [("name", VStr "B")])
                     (clock Examples.host0 (tick Examples.people)))
                  (assign Examples.people_docs 0
                     (merged (nth 0 Examples.people_docs VUndefined) (VObj [("name", VStr "B")])
                        (clock Examples.host0 (tick Examples.people))))
                /\ patched (nth 0 Examples.people_docs VUndefined) (VObj [("name", VStr "B")])
                     (clock Examples.host0 (tick Examples.people))
                     (merged (nth 0 Examples.people_docs VUndefined) (VObj [("name", VStr "B")])
                        (clock Examples.host0 (tick Examples.people)))).
    { refine ((fun H => conj (proj1 H) (proj2 H _ _))
                (proj2 (proj2 (update_writes_unless_deep_equal Examples.host0 Examples.plainAdapter
                     Examples.path Examples.PersonSchema
                     Examples.people_docs 0
                     (VObj [("name", VStr "B")])
                     Examples.people (Examples.content Examples.people)
                     _ _ _ _ _
                     (updateOne Examples.host0 Examples.plainAdapter Examples.path
                        Examples.PersonSchema (VObj [("age", VNum 30)]) (VObj [("name", VStr "B")]))
                     (or_intror (ex_intro _ (VObj [("age", VNum 30)]) (ex_intro _
                        (nth 0 Examples.people_docs VUndefined)
                        (conj _ eq_refl)))))))); vm_compute; reflexivity. }
    destruct H as ((_ & Hat & _) & (updated & Hm & Hdate & Hkeys)).
    exists updated; rewrite Hat, Hm; split; [ reflexivity | split; [ | split ] ].
    + rewrite (Hkeys "name") by discriminate; reflexivity.
    + rewrite (Hkeys "age") by discriminate; reflexivity.
    + exact Hdate.
Defined.

(** ** Inserts *)

Lemma map_get_set_empty (m : FieldValues) (f g : string) :
  map_get (map_set_empty m f) g = if (f =? g)%string then Some [] else map_get m g.
Proof.
  induction m as [| [k s] rest IH]; cbn [map_set_empty map_get].
  - reflexivity.
  - destruct (k =? f)%string eqn:E; cbn [map_get].
    + apply String.eqb_eq in E; subst k. destruct (f =? g)%string; reflexivity.
    + destruct (k =? g)%string eqn:E'; [ | exact IH ].
      apply String.eqb_eq in E'; subst k. rewrite String.eqb_sym, E; reflexivity.
Qed.

Lemma map_get_empty (fields : list string) (m : FieldValues) (g : string) :
  map_get (fold_left map_set_empty fields m) g =
  if existsb (fun f => (f =? g)%string) fields then Some [] else map_get m g.
Proof.
  revert m; induction fields as [| f rest IH]; intros m; cbn [fold_left existsb];
    [ reflexivity | ].
  rewrite IH, map_get_set_empty.
  destruct (existsb (fun f0 => (f0 =? g)%string) rest), (f =? g)%string; reflexivity.
Qed.

Lemma map_get_add (m : FieldValues) (f g : string) (x : value) :
  map_get (map_add m f x) g =
  if (f =? g)%string then option_map (fun s => (s ++ [x])%list) (map_get m g) else map_get m g.
Proof.
  induction m as [| [k s] rest IH]; cbn [map_add map_get].
  - destruct (f =? g)%string; reflexivity.
  - destruct (k =? f)%string eqn:E; cbn [map_get].
    + apply String.eqb_eq in E; subst k. destruct (f =? g)%string; reflexivity.
    + destruct (k =? g)%string eqn:E'; [ | exact IH ].
      apply String.eqb_eq in E'; subst k. rewrite String.eqb_sym, E; reflexivity.
Qed.

Lemma set_has_app (s : list value) (x v : value) :
  set_has (s ++ [x]) v = set_has s v || strict_equals v x.
Proof.
  unfold set_has; rewrite existsb_app; cbn [existsb]; rewrite orb_false_r; reflexivity.
Qed.

Lemma held_app (seen : list value) (item : value) (f : string) (v : value) :
  held (seen ++ [item]) f v = held seen f v || holds item f v.
Proof.
  unfold held; rewrite existsb_app; cbn [existsb]; rewrite orb_false_r; reflexivity.
Qed.

(** One document read into the index, field after field. *)
Lemma index_item (fields : list string) (item : value) (seen : list value) :
  readable item = true ->
  forall (done todo : list string) (m : FieldValues),
    fields = (done ++ todo)%list ->
    (forall f, In f fields ->
       exists values, map_get m f = Some values
         /\ forall v, set_has values v = held seen f v || (existsb (String.eqb f) done && holds item f v)) ->
    exists m',
      fold_left (fun acc' field =>
                   m0 <- acc' ;; v <- get item field ;;
                   Ok (if is_undefined v then m0 else map_add m0 field v))
        todo (Ok m) = Ok m'
      /\ indexes fields m' (seen ++ [item]).
Proof.
  intros Hread done todo; revert done; induction todo as [| g rest IH]; intros done m Hsplit Hinv.
  - exists m; split; [ reflexivity | ].
    intros f Hf; destruct (Hinv f Hf) as (values & Hget & Hhas).
    exists values; split; [ exact Hget | ].
    intros v; rewrite Hhas, held_app.
    rewrite app_nil_r in Hsplit; subst done.
    apply existsb_eqb_In in Hf; rewrite Hf; reflexivity.
  - cbn [fold_left bind].
    destruct (get_readable item g Hread) as [x Hx]; rewrite Hx; cbn [bind].
    apply (IH (done ++ [g])%list).
    + rewrite <- app_assoc; exact Hsplit.
    + intros f Hf; destruct (Hinv f Hf) as (values & Hget & Hhas).
      rewrite existsb_app; cbn [existsb]; rewrite orb_false_r.
      destruct (is_undefined x) eqn:Hu.
      * exists values; split; [ exact Hget | ].
        intros v; rewrite Hhas.
        destruct (f =? g)%string eqn:E; [ | rewrite orb_false_r; reflexivity ].
        apply String.eqb_eq in E; subst g.
        unfold holds; rewrite Hx, Hu; cbn [negb andb]; rewrite !andb_false_r; reflexivity.
      * rewrite map_get_add, String.eqb_sym, Hget.
        destruct (f =? g)%string eqn:E.
        -- apply String.eqb_eq in E; subst g.
           exists (values ++ [x])%list; split; [ reflexivity | ].
           intros v; rewrite set_has_app, Hhas.
           unfold holds; rewrite Hx, Hu; cbn [negb andb]; rewrite orb_true_r, andb_true_l.
           destruct (existsb (String.eqb f) done); cbn [andb orb];
             [ rewrite <- orb_assoc, orb_diag | rewrite orb_false_r ]; reflexivity.
        -- exists values; split; [ reflexivity | ].
           intros v; rewrite Hhas, orb_false_r; reflexivity.
Qed.

(** [populateUniqueFieldValues] on persisted documents whose properties
    can be read. *)
Lemma populate_indexes (fields : list string) (old : list value) :
  Forall (fun item => readable item = true) old ->
  exists m, populateUniqueFieldValues fields (VArr old) = Ok m /\ indexes fields m old.
Proof.
  intros Hread; unfold populateUniqueFieldValues; cbn [as_array bind].
  assert (Hinit : indexes fields (fold_left map_set_empty fields []) []).
  { intros f Hf; exists []; split; [ | reflexivity ].
    rewrite map_get_empty.
    replace (existsb (fun f0 => (f0 =? f)%string) fields) with true; [ reflexivity | ].
    symmetry; apply existsb_exists; exists f; split; [ exact Hf | apply String.eqb_refl ]. }
  revert Hinit; generalize (fold_left map_set_empty fields []) as m.
  change old with ([] ++ old)%list at 2.
  generalize (@nil value) as seen.
  induction Hread as [| item rest Hitem _ IH]; intros seen m Hinv.
  - exists m; split; [ reflexivity | rewrite app_nil_r; exact Hinv ].
  - cbn [fold_left].
    destruct (index_item fields item seen Hitem [] fields m eq_refl) as (m' & Hm' & Hinv').
    { intros f Hf; destruct (Hinv f Hf) as (values & Hget & Hhas).
      exists values; split; [ exact Hget | ].
      intros v; rewrite Hhas; cbn [existsb andb]; rewrite orb_false_r; reflexivity. }
    rewrite Hm'.
    replace (seen ++ item :: rest)%list with ((seen ++ [item]) ++ rest)%list
      by (rewrite <- app_assoc; reflexivity).
    apply IH; exact Hinv'.
Qed.

(** A field check answers [Some r] only with an ERROR. *)
Lemma checkField_Some (key : string) (config : SchemaConfig) (v : value)
  (r : ValidationResponse) :
  checkField key config v = Ok (Some r) -> status r = ERROR.
Proof.
  destruct config as [type required u items nested]; cbn [checkField].
  destruct (required && is_undefined v); [ intros H; injection H as <-; reflexivity | ].
  destruct (is_undefined v); [ discriminate | ].
  destruct type.
  - destruct (typeof v =? type_name TString); intros H; [ discriminate | injection H as <-; reflexivity ].
  - destruct (typeof v =? type_name TNumber); intros H; [ discriminate | injection H as <-; reflexivity ].
  - destruct (typeof v =? type_name TBoolean); intros H; [ discriminate | injection H as <-; reflexivity ].
  - destruct (negb (typeof v =? "object") || isArray v);
      [ intros H; injection H as <-; reflexivity | ].
    destruct nested as [fields |]; [ | discriminate ].
    match goal with
    | |- bind ?m _ = _ -> _ => destruct m as [nv |]; cbn [bind]; [ | discriminate ]
    end.
    unfold is_error; destruct (status nv) eqn:Hs; intros H; [ discriminate | ].
    injection H as <-; exact Hs.
  - destruct v; try (intros H; injection H as <-; reflexivity).
    destruct items as [it |]; [ | discriminate ].
    destruct (forallb _ _); intros H; [ discriminate | injection H as <-; reflexivity ].
  - destruct v; try (intros H; injection H as <-; reflexivity); discriminate.
Qed.

(** A candidate that validates had every declared field read. *)
Lemma validate_success_reads (schema : Schema) (obj : value) (r : ValidationResponse) :
  validate schema obj = Ok r -> status r = SUCCESS ->
  forall k, In k (map fst schema) -> exists x, get obj k = Ok x.
Proof.
  induction schema as [| [key config] rest IH]; cbn [validate map fst]; intros Hv Hs k Hk;
    [ destruct Hk | ].
  destruct (get obj key) as [x |] eqn:Hx; cbn [bind] in Hv; [ | discriminate ].
  destruct (checkField key config x) as [[response |] |] eqn:Hc; cbn [bind] in Hv;
    try discriminate.
  - injection Hv as ->. apply checkField_Some in Hc; congruence.
  - destruct Hk as [<- | Hk]; [ eauto | exact (IH Hv Hs k Hk) ].
Qed.

Lemma getUniqueFields_declared (schema : Schema) (f : string) :
  In f (getUniqueFields schema) -> In f (map fst schema).
Proof.
  unfold getUniqueFields, extractUniqueFields; intros H.
  apply in_map_iff in H as (kc & <- & Hin); apply filter_In in Hin as [Hin _].
  apply in_map; exact Hin.
Qed.

Lemma forEach_app {A : Type} (f : A -> result unit) (l1 l2 : list A) :
  forEach f (l1 ++ l2) = (_ <- forEach f l1 ;; forEach f l2).
Proof.
  induction l1 as [| x rest IH]; simpl; [ destruct (forEach f l2); reflexivity | ].
  destruct (f x) as [[] |]; simpl; [ exact IH | reflexivity ].
Qed.

Lemma forEach_Ok {A : Type} (f : A -> result unit) (l : list A) :
  (forall x, In x l -> f x = Ok tt) -> forEach f l = Ok tt.
Proof.
  induction l as [| x rest IH]; intros H; cbn [forEach]; [ reflexivity | ].
  rewrite (H x (or_introl eq_refl)); cbn [bind]; apply IH; intros y Hy; apply H; right; exact Hy.
Qed.

Lemma forEach_In_Ok {A : Type} (f : A -> result unit) (l : list A) :
  forEach f l = Ok tt -> forall x, In x l -> f x = Ok tt.
Proof.
  induction l as [| y rest IH]; cbn [forEach]; intros H x Hx; [ destruct Hx | ].
  destruct (f y) as [[] |] eqn:Hy; cbn [bind] in H; [ | discriminate ].
  destruct Hx as [<- | Hx]; [ exact Hy | exact (IH H x Hx) ].
Qed.

Section Inserts.

Variable host : Host.
Variable adapter : Adapter.
Variable collectionPath : string.
Variable schema : Schema.

Lemma createNewDoc_eq (doc : value) (st : State) :
  createNewDoc host doc st = (Ok (created host doc st), creating st).
Proof.
  reflexivity.
Qed.

Lemma mapM_createNewDoc (docs : list value) (st : State) :
  mapM (createNewDoc host) docs st = (Ok (createdAll host docs st), creatingAll docs st).
Proof.
  revert st; induction docs as [| doc rest IH]; intros st; cbn [mapM createdAll creatingAll];
    [ reflexivity | ].
  unfold bindM; rewrite createNewDoc_eq, IH; reflexivity.
Qed.

Lemma file_creatingAll (docs : list value) (st : State) :
  file (creatingAll docs st) = file st.
Proof.
  revert st; induction docs as [| doc rest IH]; intros st; cbn [creatingAll];
    [ reflexivity | rewrite IH; reflexivity ].
Qed.

(** The duplicate check on an index of the persisted documents [old]. *)
Lemma checkDuplicate_indexed (m : FieldValues) (old : list value) (doc : value) (f : string) :
  indexes (getUniqueFields schema) m old ->
  In f (getUniqueFields schema) ->
  checkDuplicate collectionPath m doc f =
  (v <- get doc f ;;
   if negb (is_undefined v) && held old f v
   then Throw (Error (duplicateKeyMessage (getCollectionName collectionPath) f v))
   else Ok tt).
Proof.
  intros Hm Hf; unfold checkDuplicate.
  destruct (get doc f) as [v |]; cbn [bind]; [ | reflexivity ].
  destruct (is_undefined v); cbn [negb andb]; [ reflexivity | ].
  destruct (Hm f Hf) as (values & -> & Hhas); rewrite Hhas; reflexivity.
Qed.

(** [insertDocuments] on a batch that validates, over persisted documents
    whose properties can be read: the duplicate checks decide, and a
    success writes the persisted documents followed by the created ones. *)
Lemma insertDocuments_validated (docs : list value) (st : State) (text : string)
  (old : list value) :
  forEach (validateDocument schema) docs = Ok tt ->
  file st = Some text ->
  deserialize adapter text = Ok (VArr old) ->
  Forall (fun item => readable item = true) old ->
  exists m,
    indexes (getUniqueFields schema) m old
    /\ insertDocuments host adapter collectionPath schema docs st =
       match forEach (fun doc => forEach (checkDuplicate collectionPath m doc)
                                   (getUniqueFields schema)) docs with
       | Throw e => (Throw e, st)
       | Ok _ => writeCollectionData host adapter (VArr (old ++ createdAll host docs st))
                   (creatingAll docs st)
       end.
Proof.
  intros Hvalid Hfile Hparse Hread.
  destruct (populate_indexes (getUniqueFields schema) old Hread) as (m & Hm & Hindex).
  exists m; split; [ exact Hindex | ].
  unfold insertDocuments, bindM.
  rewrite Hvalid; cbn [lift].
  rewrite readCollectionData_eq, Hfile, Hparse, Hm.
  destruct (forEach (fun doc => forEach (checkDuplicate collectionPath m doc)
                                  (getUniqueFields schema)) docs) as [[] |];
    [ | reflexivity ].
  rewrite mapM_createNewDoc; reflexivity.
Qed.

Lemma validated_reads (docs : list value) (doc : value) (f : string) :
  forEach (validateDocument schema) docs = Ok tt ->
  In doc docs -> In f (getUniqueFields schema) ->
  exists v, get doc f = Ok v.
Proof.
  intros Hvalid Hdoc Hf.
  pose proof (forEach_In_Ok _ _ Hvalid doc Hdoc) as H; unfold validateDocument in H.
  destruct (validate schema doc) as [r |] eqn:Hr; cbn [bind] in H; [ | discriminate ].
  destruct (status r) eqn:Hs; [ | discriminate ].
  exact (validate_success_reads schema doc r Hr Hs f (getUniqueFields_declared schema f Hf)).
Qed.


End Inserts.


Lemma strict_equals_refl (v : value) : is_primitive v = true -> strict_equals v v = true.
Proof.
  destruct v; try discriminate; intros _; cbn [strict_equals];
    auto using Bool.eqb_reflx, Z.eqb_refl, String.eqb_refl.
Qed.

Section Duplicates.

Variable host : Host.
Variable adapter : Adapter.
Variable collectionPath : string.
Variable schema : Schema.

(** C5, amended: over persisted documents whose properties can be read,
    for a batch that validates: at the first document of the batch and the
    first unique field of the schema for which the document supplies a
    value that a persisted document holds, the value [v] being a string, a
    number, a boolean or null, the insert throws the duplicate-key error
    that names the collection, the field and the value, and the state,
    the file in it, is the one before the call. *)
Theorem insert_rejects_persisted_duplicate :
  forall (pre post : list value) (doc : value) (fpre fpost : list string) (f : string)
         (v : value) (st : State) (text : string) (old : list value) (item : value),
    forEach (validateDocument schema) (pre ++ doc :: post) = Ok tt ->
    file st = Some text ->
    deserialize adapter text = Ok (VArr old) ->
    Forall (fun persisted => readable persisted = true) old ->
    getUniqueFields schema = (fpre ++ f :: fpost)%list ->
    get doc f = Ok v ->
    is_primitive v = true ->
    is_undefined v = false ->
    In item old ->
    get item f = Ok v ->
    (forall d g, In d pre -> In g (getUniqueFields schema) -> collides old d g = false) ->
    (forall g, In g fpre -> collides old doc g = false) ->
    insertMany host adapter collectionPath schema (pre ++ doc :: post) st
    = (Throw (Error (duplicateKeyMessage (getCollectionName collectionPath) f v)), st).
Proof.
  intros pre post doc fpre fpost f v st text old item
    Hvalid Hfile Hparse Hread Hfields Hv Hprim Hdef Hitem Hheld Hpre Hfpre.
  destruct (insertDocuments_validated host adapter collectionPath schema _ st text old
              Hvalid Hfile Hparse Hread) as (m & Hindex & Heq).
  assert (Hf : In f (getUniqueFields schema))
    by (rewrite Hfields; apply in_or_app; right; left; reflexivity).
  assert (Hcheck : forall d g, In d (pre ++ doc :: post) -> In g (getUniqueFields schema) ->
                     collides old d g = false -> checkDuplicate collectionPath m d g = Ok tt).
  { intros d g Hd Hg Hc.
    rewrite (checkDuplicate_indexed collectionPath schema m old d g Hindex Hg).
    destruct (validated_reads schema _ d g Hvalid Hd Hg) as [x Hx].
    unfold collides in Hc; rewrite Hx in Hc |- *; cbn [bind]; rewrite Hc; reflexivity. }
  unfold insertMany; rewrite Heq, forEach_app.
  rewrite forEach_Ok.
  2:{ intros d Hd; apply forEach_Ok; intros g Hg.
      apply Hcheck; [ apply in_or_app; left; exact Hd | exact Hg | exact (Hpre d g Hd Hg) ]. }
  cbn [bind forEach]. rewrite Hfields at 1. rewrite forEach_app.
  rewrite forEach_Ok.
  2:{ intros g Hg; apply Hcheck.
      - apply in_or_app; right; left; reflexivity.
      - rewrite Hfields; apply in_or_app; left; exact Hg.
      - exact (Hfpre g Hg). }
  cbn [bind forEach].
  rewrite (checkDuplicate_indexed collectionPath schema m old doc f Hindex Hf), Hv; cbn [bind].
  assert (Hh : held old f v = true).
  { apply existsb_exists; exists item; split; [ exact Hitem | ].
    unfold holds; rewrite Hheld, Hdef, (strict_equals_refl v Hprim); reflexivity. }
  rewrite Hdef, Hh; reflexivity.
Qed.

End Duplicates.

Lemma insert_rejects_persisted_duplicate_witness :
  insertOne Examples.host0 Examples.plainAdapter Examples.path Examples.PersonSchema
    (Examples.person "B" 30) Examples.people
  = (Throw (Error (duplicateKeyMessage "User" "age" (VNum 30))), Examples.people).
Proof.
  refine (insert_rejects_persisted_duplicate Examples.host0 Examples.plainAdapter
            Examples.path Examples.PersonSchema
            [] [] (Examples.person "B" 30) [] [] "age" (VNum 30) Examples.people
            (Examples.content Examples.people)
            Examples.people_docs
            (nth 0 Examples.people_docs VUndefined)
            _ _ _ _ _ _ _ _ _ _ _ _);
    try (vm_compute; reflexivity).
  - repeat constructor.
  - left; reflexivity.
  - intros d g [].
  - intros g [].
Defined.

(** C5 as stated fails on a unique field that holds an array: the
    collection holds one document with tags ["a"], a second insert of
    tags ["a"] succeeds, and the file then holds the value twice. *)
Lemma array_value_of_unique_field_is_inserted_twice :
  Examples.stored Examples.plainAdapter Examples.tags
  = Ok (VArr [VObj [("_id", VStr "672614409f3ab27c0100002a"); ("tags", VArr [VStr "a"]);
                    ("createdAt", VStr "2024-11-02T12:00:00.004Z");
                    ("updatedAt", VStr "2024-11-02T12:00:00.005Z")]])
  /\ fst (insertOne Examples.host0 Examples.plainAdapter Examples.path Examples.TaggedSchema
            (Examples.tagged "a") Examples.tags) = Ok tt
  /\ Examples.stored Examples.plainAdapter
       (Examples.after (insertOne Examples.host0 Examples.plainAdapter Examples.path
                          Examples.TaggedSchema (Examples.tagged "a")) Examples.tags)
     = Ok (VArr [VObj [("_id", VStr "672614409f3ab27c0100002a"); ("tags", VArr [VStr "a"]);
                       ("createdAt", VStr "2024-11-02T12:00:00.004Z");
                       ("updatedAt", VStr "2024-11-02T12:00:00.005Z")];
                 VObj [("_id", VStr "672614409f3ab27c0100002b"); ("tags", VArr [VStr "a"]);
                       ("createdAt", VStr "2024-11-02T12:00:00.009Z");
                       ("updatedAt", VStr "2024-11-02T12:00:00.010Z")]]).
Proof.
  repeat split; vm_compute; reflexivity.
Qed.

(** C3 (the code departs from the claim): [updateDocument] skips the
    search for a duplicate when the new value is among the values that the
    document itself holds in any unique field.  With the accounts
    (a@x.io, backup b@x.io) and (b@x.io, backup c@x.io), setting the first
    one's email to b@x.io succeeds, and two documents hold that email. *)
Theorem update_misses_duplicate_of_own_other_field :
  fst (updateById Examples.host0 Examples.plainAdapter Examples.path Examples.AccountSchema
         "672614409f3ab27c0100002a" (VObj [("email", VStr "b@x.io")]) Examples.accounts)
  = Ok tt
  /\ Examples.stored Examples.plainAdapter
       (Examples.after (updateById Examples.host0 Examples.plainAdapter Examples.path
                          Examples.AccountSchema "672614409f3ab27c0100002a"
                          (VObj [("email", VStr "b@x.io")])) Examples.accounts)
     = Ok (VArr [VObj [("_id", VStr "672614409f3ab27c0100002a"); ("email", VStr "b@x.io");
                       ("backupEmail", VStr "b@x.io");
                       ("createdAt", VStr "2024-11-02T12:00:00.004Z");
                       ("updatedAt", VStr "2024-11-02T12:00:00.011Z")];
                 VObj [("_id", VStr "672614409f3ab27c0100002b"); ("email", VStr "b@x.io");
                       ("backupEmail", VStr "c@x.io");
                       ("createdAt", VStr "2024-11-02T12:00:00.008Z");
                       ("updatedAt", VStr "2024-11-02T12:00:00.009Z")]]).
Proof.
  split; vm_compute; reflexivity.
Qed.

(** ** The fields the engine manages *)

Section Engine.

Variable host : Host.
Variable adapter : Adapter.
Variable collectionPath : string.
Variable schema : Schema.

Lemma created_engine_made (doc : value) (st : State) :
  distinct (map fst (own_props doc)) = true -> engine_made host doc (created host doc st).
Proof.
  intros Hd; unfold engine_made, created; rewrite !get_VObj; unfold operand.
  repeat split.
  - exists (2 + tick st).
    rewrite lookup_set_prop_other by discriminate; rewrite lookup_set_prop_same; reflexivity.
  - exists (3 + tick st). rewrite lookup_set_prop_same; reflexivity.
  - exists (newId host st).
    rewrite !lookup_set_prop_other by discriminate.
    rewrite (lookup_spread _ _ _ Hd).
    destruct (lookup "_id" (own_props doc)); reflexivity.
Qed.

Lemma createdAll_engine_made (docs : list value) (st : State) :
  Forall (fun doc => distinct (map fst (own_props doc)) = true) docs ->
  Forall2 (engine_made host) docs (createdAll host docs st).
Proof.
  intros H; revert st; induction H as [| doc rest Hdoc _ IH]; intros st; cbn [createdAll];
    constructor; [ exact (created_engine_made doc st Hdoc) | apply IH ].
Qed.

Lemma merged_kept_unless_patched (docToUpdate update : value) (t : Z) :
  distinct (map fst (own_props update)) = true ->
  distinct (map fst (own_props docToUpdate)) = true ->
  kept_unless_patched docToUpdate update (merged docToUpdate update t) t.
Proof.
  intros Hu Hd; unfold kept_unless_patched, merged; split.
  - rewrite get_VObj; unfold operand; rewrite lookup_set_prop_same; reflexivity.
  - intros k Hk; rewrite get_VObj; unfold operand.
    rewrite lookup_set_prop_other by (destruct Hk as [-> | ->]; discriminate).
    rewrite (lookup_spread _ _ _ Hu), (lookup_spread _ _ _ Hd).
    destruct (lookup k (own_props update)); [ reflexivity | ].
    destruct (lookup k (own_props docToUpdate)); reflexivity.
Qed.

(** What a successful insert did. *)
Lemma insertDocuments_Ok (docs : list value) (st st' : State) :
  insertDocuments host adapter collectionPath schema docs st = (Ok tt, st') ->
  exists text old written,
    file st = Some text
    /\ deserialize adapter text = Ok (VArr old)
    /\ serialize adapter (iv_at host (creatingAll docs st))
         (VArr (old ++ createdAll host docs st)) = Ok written
    /\ st' = mkState (Some written) (counter (creatingAll docs st))
               (S (tick (creatingAll docs st))).
Proof.
  unfold insertDocuments, bindM, lift.
  destruct (forEach (validateDocument schema) docs) as [[] |]; [ | discriminate ].
  rewrite readCollectionData_eq.
  destruct (file st) as [text |]; [ | discriminate ].
  destruct (deserialize adapter text) as [collection |] eqn:Hparse; [ | discriminate ].
  destruct (populateUniqueFieldValues (getUniqueFields schema) collection) as [m |] eqn:Hm;
    [ | discriminate ].
  destruct (forEach _ docs) as [[] |]; [ | discriminate ].
  rewrite mapM_createNewDoc.
  destruct collection as [| | | | | | old |]; try discriminate.
  cbn [as_array]; rewrite writeCollectionData_eq.
  destruct (serialize adapter _ _) as [written |] eqn:Hw; [ | discriminate ].
  intros H; injection H as <-.
  exists text, old, written; repeat split; assumption.
Qed.

(** What a successful update did. *)
Lemma updateDocument_Ok (docs : list value) (docIndex : nat) (update : value) (st st' : State) :
  updateDocument host adapter collectionPath schema docs docIndex update st = (Ok tt, st') ->
  st' = ticked st
  \/ exists written,
       serialize adapter (iv_at host (ticked st))
         (VArr (assign docs docIndex
                  (merged (nth docIndex docs VUndefined) update (clock host (tick st)))))
       = Ok written
       /\ st' = mkState (Some written) (counter st) (S (S (tick st))).
Proof.
  unfold updateDocument, bindM, now, lift; cbn [tick file counter].
  destruct (validateDocument schema _) as [[] |]; [ | discriminate ].
  destruct (forEach _ (getUniqueFields schema)) as [[] |]; [ | discriminate ].
  destruct (forEach _ (getUniqueFields schema)) as [[] |]; [ | discriminate ].
  destruct (deepEqual _ _).
  - intros H; injection H as <-; left; reflexivity.
  - rewrite writeCollectionData_eq; cbn [tick file counter ticked].
    destruct (serialize adapter _ _) as [written |] eqn:Hw; [ | discriminate ].
    intros H; injection H as <-; right; exists written; split; reflexivity.
Qed.

(** C2, amended: an insert that succeeds writes the persisted documents
    followed by one document for each document of the batch, whose
    [createdAt] and [updatedAt] are the engine's and whose [_id] is the
    engine's unless the caller's document has an [_id] of its own, which
    is then the stored one; an update that succeeds either writes nothing
    or writes the sequence with the target replaced by a document whose
    [updatedAt] is the new Date and whose [_id] and [createdAt] are the
    target's unless the patch has a property of that name, which then
    replaces them.  [insertOne doc] is [insertMany [doc]], and
    [updateById] and [updateOne] end in [updateDocument]. *)
Theorem engine_managed_fields :
  (forall (docs : list value) (st st' : State),
      Forall (fun doc => distinct (map fst (own_props doc)) = true) docs ->
      insertMany host adapter collectionPath schema docs st = (Ok tt, st') ->
      exists text old written,
        file st = Some text
        /\ deserialize adapter text = Ok (VArr old)
        /\ serialize adapter (iv_at host (creatingAll docs st))
             (VArr (old ++ createdAll host docs st)) = Ok written
        /\ file st' = Some written
        /\ Forall2 (engine_made host) docs (createdAll host docs st))
  /\ (forall (docs : list value) (docIndex : nat) (update : value) (st st' : State),
        distinct (map fst (own_props update)) = true ->
        distinct (map fst (own_props (nth docIndex docs VUndefined))) = true ->
        updateDocument host adapter collectionPath schema docs docIndex update st = (Ok tt, st') ->
        file st' = file st
        \/ exists written,
             serialize adapter (iv_at host (ticked st))
               (VArr (assign docs docIndex
                        (merged (nth docIndex docs VUndefined) update (clock host (tick st)))))
             = Ok written
             /\ file st' = Some written
             /\ kept_unless_patched (nth docIndex docs VUndefined) update
                  (merged (nth docIndex docs VUndefined) update (clock host (tick st)))
                  (clock host (tick st))).
Proof.
  split.
  - intros docs st st' Hd Hrun.
    destruct (insertDocuments_Ok docs st st' Hrun) as (text & old & written & Hf & Hp & Hw & ->).
    exists text, old, written; repeat split; try assumption.
    apply createdAll_engine_made; exact Hd.
  - intros docs docIndex update st st' Hu Hd Hrun.
    destruct (updateDocument_Ok docs docIndex update st st' Hrun) as [-> | (written & Hw & ->)].
    + left; reflexivity.
    + right; exists written; repeat split; try assumption;
        apply merged_kept_unless_patched; assumption.
Qed.

End Engine.

Lemma engine_managed_fields_witness :
  (exists text old written,
      file Examples.people = Some text
      /\ deserialize Examples.plainAdapter text = Ok (VArr old)
      /\ serialize Examples.plainAdapter
           (iv_at Examples.host0 (creatingAll [Examples.person "B" 40] Examples.people))
           (VArr (old ++ createdAll Examples.host0 [Examples.person "B" 40] Examples.people))
         = Ok written
      /\ file (Examples.after (insertMany Examples.host0 Examples.plainAdapter Examples.path
                                 Examples.PersonSchema [Examples.person "B" 40]) Examples.people)
         = Some written
      /\ Forall2 (engine_made Examples.host0) [Examples.person "B" 40]
           (createdAll Examples.host0 [Examples.person "B" 40] Examples.people))
  /\ kept_unless_patched
       (VObj [("_id", VStr "mine"); ("createdAt", VStr "2024-11-02T12:00:00.004Z")])
       (VObj [("name", VStr "B")])
       (merged (VObj [("_id", VStr "mine"); ("createdAt", VStr "2024-11-02T12:00:00.004Z")])
          (VObj [("name", VStr "B")]) 1730548800000)
       1730548800000.
Proof.
  destruct (engine_managed_fields Examples.host0 Examples.plainAdapter Examples.path
              Examples.OpenSchema) as [_ Hupdate].
  destruct (engine_managed_fields Examples.host0 Examples.plainAdapter Examples.path
              Examples.PersonSchema) as [Hinsert _].
  split.
  - apply Hinsert; [ repeat constructor | vm_compute; reflexivity ].
  - destruct (Hupdate [VObj [("_id", VStr "mine"); ("createdAt", VStr "2024-11-02T12:00:00.004Z")]]
                0 (VObj [("name", VStr "B")])
                (mkState (Some "[]") 0 0)
                (snd (updateDocument Examples.host0 Examples.plainAdapter Examples.path
                        Examples.OpenSchema
                        [VObj [("_id", VStr "mine");
                               ("createdAt", VStr "2024-11-02T12:00:00.004Z")]]
                        0 (VObj [("name", VStr "B")]) (mkState (Some "[]") 0 0))))
      as [Hsame | (written & _ & _ & Hkept)];
      [ reflexivity | reflexivity | vm_compute; reflexivity | | ].
    + vm_compute in Hsame; discriminate.
    + exact Hkept.
Defined.

(** C2 as stated fails: an [_id] that the caller's document brings is the
    stored [_id], and a patch that has [_id] and [createdAt] replaces
    both. *)
Lemma caller_id_and_patched_fields_are_stored :
  fst (insertOne Examples.host0 Examples.plainAdapter Examples.path Examples.PersonSchema
         Examples.mine Examples.empty) = Ok tt
  /\ Examples.stored Examples.plainAdapter Examples.owned
     = Ok (VArr [VObj [("_id", VStr "mine"); ("name", VStr "A"); ("age", VNum 30);
                       ("createdAt", VStr "2024-11-02T12:00:00.004Z");
                       ("updatedAt", VStr "2024-11-02T12:00:00.005Z")]])
  /\ fst (updateById Examples.host0 Examples.plainAdapter Examples.path Examples.PersonSchema
            "mine" (VObj [("_id", VStr "other"); ("createdAt", VStr "yesterday")])
            Examples.owned) = Ok tt
  /\ Examples.stored Examples.plainAdapter
       (Examples.after (updateById Examples.host0 Examples.plainAdapter Examples.path
                          Examples.PersonSchema "mine"
                          (VObj [("_id", VStr "other"); ("createdAt", VStr "yesterday")]))
          Examples.owned)
     = Ok (VArr [VObj [("_id", VStr "other"); ("name", VStr "A"); ("age", VNum 30);
                       ("createdAt", VStr "yesterday");
                       ("updatedAt", VStr "2024-11-02T12:00:00.007Z")]]).
Proof.
  repeat split; vm_compute; reflexivity.
Qed.

(** ** JSON: what [parse] reads back from what [stringify] wrote *)

Lemma append_assoc (a b c : string) : (a ++ b) ++ c = a ++ (b ++ c).
Proof.
  induction a as [| x a IH]; cbn [append]; [ reflexivity | rewrite IH; reflexivity ].
Qed.

Lemma length_append (a b : string) :
  String.length (a ++ b) = String.length a + String.length b.
Proof.
  induction a as [| x a IH]; cbn [append String.length]; [ reflexivity | rewrite IH; reflexivity ].
Qed.

(** A string literal is read back as the string it quotes. *)
Lemma parse_string_escape (s rest : string) :
  JSON.parse_string (JSON.escape s ++ dquote ++ rest) = Some (s, rest).
Proof.
  induction s as [| c s IH]; [ reflexivity | ].
  cbn [JSON.escape]; rewrite append_assoc.
  revert IH; generalize (JSON.escape s ++ dquote ++ rest); intros tail IH.
  destruct c as [[] [] [] [] [] [] [] []];
    match goal with
    | |- context [JSON.escape_char ?c] =>
        let e := eval vm_compute in (JSON.escape_char c) in
        change (JSON.escape_char c) with e
    end; cbn; rewrite IH; reflexivity.
Qed.

Lemma digit_of_char_None (c : ascii) : is_digit c = false -> JSON.digit_of_char c = None.
Proof.
  unfold JSON.digit_of_char; intros ->.
  destruct (nat_of_ascii c - 48) as [| [| [| [| [| [| [| [| [| [| n]]]]]]]]]]; reflexivity.
Qed.

(** A run of digits is read back as it was written, up to the first
    character that is no digit. *)
Lemma take_digits_string_of_uint (u : uint) (rest : string) :
  leading_digit rest = false ->
  JSON.take_digits (string_of_uint u ++ rest) = (u, rest).
Proof.
  intros Hrest; induction u; cbn [string_of_uint append JSON.take_digits];
    try (change (JSON.digit_of_char "0") with (Some D0);
         change (JSON.digit_of_char "1") with (Some D1);
         change (JSON.digit_of_char "2") with (Some D2);
         change (JSON.digit_of_char "3") with (Some D3);
         change (JSON.digit_of_char "4") with (Some D4);
         change (JSON.digit_of_char "5") with (Some D5);
         change (JSON.digit_of_char "6") with (Some D6);
         change (JSON.digit_of_char "7") with (Some D7);
         change (JSON.digit_of_char "8") with (Some D8);
         change (JSON.digit_of_char "9") with (Some D9);
         rewrite IHu; reflexivity).
  destruct rest as [| c rest]; [ reflexivity | ].
  cbn [JSON.take_digits]; cbn [leading_digit] in Hrest.
  rewrite (digit_of_char_None c Hrest); reflexivity.
Qed.

Lemma string_of_uint_leading (u : uint) :
  u <> Nil -> exists c tail, string_of_uint u = String c tail /\ is_digit c = true.
Proof.
  destruct u; intros H; try congruence; cbn [string_of_uint]; eauto.
Qed.

(** The digits of a positive number do not start with a zero. *)
Lemma to_uint_no_leading_zero (p : positive) (u : uint) : Pos.to_uint p <> D0 u.
Proof.
  intros H.
  pose proof (DecimalPos.Unsigned.to_of (Pos.to_uint p)) as Hnorm.
  rewrite DecimalPos.Unsigned.of_to in Hnorm; cbn [N.to_uint] in Hnorm.
  rewrite H, DecimalFacts.unorm_D0 in Hnorm.
  destruct (uint_eq_dec u Nil) as [-> | Hu].
  - apply (DecimalPos.Unsigned.to_uint_nonzero p); exact H.
  - pose proof (DecimalFacts.nb_digits_unorm u Hu) as Hlen.
    rewrite <- Hnorm in Hlen; cbn [nb_digits] in Hlen; lia.
Qed.

Lemma delimited_cases (rest : string) :
  delimited rest = true ->
  rest = "" \/ exists tail, rest = String "," tail \/ rest = String "]" tail \/ rest = String "}" tail.
Proof.
  destruct rest as [| c tail]; [ auto | ].
  cbn [delimited]; intros H; right; exists tail.
  apply orb_true_iff in H as [H | H]; [ apply orb_true_iff in H as [H | H] | ];
    apply Ascii.eqb_eq in H; subst; auto.
Qed.

Lemma parse_unsigned_string_of_N (n : N) (rest : string) :
  delimited rest = true ->
  JSON.parse_unsigned (string_of_N n ++ rest) = Some (n, rest).
Proof.
  intros Hrest; unfold JSON.parse_unsigned, string_of_N.
  rewrite take_digits_string_of_uint.
  2:{ destruct (delimited_cases rest Hrest) as [-> | (tail & [-> | [-> | ->]])]; reflexivity. }
  replace (match rest with
           | EmptyString => false
           | String c _ => Ascii.eqb c "." || Ascii.eqb c "e" || Ascii.eqb c "E"
           end) with false
    by (destruct (delimited_cases rest Hrest) as [-> | (tail & [-> | [-> | ->]])]; reflexivity).
  destruct n as [| p]; [ reflexivity | ].
  pose proof (DecimalN.Unsigned.of_to (Npos p)) as Hback.
  cbn [N.to_uint] in Hback |- *.
  pose proof (DecimalPos.Unsigned.to_uint_nonnil p) as Hnonnil.
  pose proof (to_uint_no_leading_zero p) as Hlead.
  destruct (Pos.to_uint p) as [| u | u | u | u | u | u | u | u | u | u];
    try (rewrite Hback; reflexivity).
  - congruence.
  - exfalso; exact (Hlead u eq_refl).
Qed.

Lemma string_of_N_leading (n : N) :
  exists c tail, string_of_N n = String c tail /\ is_digit c = true.
Proof.
  unfold string_of_N; destruct n as [| p]; [ exists "0"%char, ""; split; reflexivity | ].
  apply string_of_uint_leading; exact (DecimalPos.Unsigned.to_uint_nonnil p).
Qed.

(** A number is read back as it was written. *)
Lemma parse_number_string_of_Z (n : Z) (rest : string) :
  delimited rest = true ->
  JSON.parse_number (string_of_Z n ++ rest) = Some (VNum n, rest).
Proof.
  intros Hrest; destruct n as [| p | p]; cbn [string_of_Z].
  - change ("0" ++ rest) with (string_of_N 0 ++ rest).
    unfold JSON.parse_number. change (string_of_N 0 ++ rest) with (String "0" rest) at 1.
    change (Ascii.eqb "0" "-") with false; cbv iota.
    change (String "0" rest) with (string_of_N 0 ++ rest).
    rewrite (parse_unsigned_string_of_N 0 rest Hrest); reflexivity.
  - destruct (string_of_N_leading (Npos p)) as (c & tail & Hs & Hc).
    pose proof (parse_unsigned_string_of_N (Npos p) rest Hrest) as Hp.
    rewrite Hs in Hp |- *; cbn [append] in Hp |- *; unfold JSON.parse_number.
    replace (Ascii.eqb c "-") with false.
    + rewrite Hp; reflexivity.
    + symmetry; apply Ascii.eqb_neq; intros ->; discriminate.
  - cbn [append]; unfold JSON.parse_number.
    change (Ascii.eqb "-" "-") with true; cbv iota.
    rewrite (parse_unsigned_string_of_N (Npos p) rest Hrest); reflexivity.
Qed.

Lemma starts_value_dispatch (c : ascii) :
  starts_value c = true ->
  JSON.json_ws c = false /\ (nat_of_ascii c =? 93)%nat = false /\ (nat_of_ascii c =? 125)%nat = false.
Proof.
  destruct c as [[] [] [] [] [] [] [] []]; vm_compute; intros H;
    first [ discriminate H | repeat split ].
Qed.

Lemma parse_value_number (fuel : nat) (c : ascii) (tail : string) :
  starts_number c = true ->
  JSON.parse_value (S fuel) (String c tail) = JSON.parse_number (String c tail).
Proof.
  destruct c as [[] [] [] [] [] [] [] []]; intros H;
    first [ discriminate H | reflexivity ].
Qed.

Lemma string_of_Z_leading (n : Z) :
  exists c tail, string_of_Z n = String c tail /\ starts_number c = true.
Proof.
  destruct n as [| p | p]; cbn [string_of_Z].
  - exists "0"%char, ""; split; reflexivity.
  - destruct (string_of_N_leading (Npos p)) as (c & tail & Hs & Hc).
    exists c, tail; split; [ exact Hs | unfold starts_number; rewrite Hc; reflexivity ].
  - exists "-"%char, (string_of_N (Npos p)); split; reflexivity.
Qed.

Lemma text_VArr_cons (x : value) (rest : list value) :
  text (VArr (x :: rest)) = "[" ++ text x ++ elements_tail rest.
Proof.
  unfold text at 1; cbn [JSON.stringify]; fold (text x).
  cbn [append]; f_equal.
  revert x; induction rest as [| y rest IH]; intros x; [ reflexivity | ].
  cbn [elements_tail]; rewrite <- (IH y); reflexivity.
Qed.

Lemma json_value_VArr (items : list value) :
  JSON.json_value (VArr items) = forallb JSON.json_value items.
Proof.
  cbn [JSON.json_value]; induction items as [| x rest IH]; [ reflexivity | ].
  cbn [forallb]; rewrite <- IH; reflexivity.
Qed.

Lemma json_value_VObj (props : list (string * value)) :
  JSON.json_value (VObj props) =
  distinct (map fst props) && forallb (fun kv => JSON.json_value (snd kv)) props.
Proof.
  cbn [JSON.json_value]; f_equal.
  induction props as [| [k x] rest IH]; [ reflexivity | ].
  cbn [forallb snd]; rewrite <- IH; reflexivity.
Qed.

Lemma stringify_json (v : value) :
  JSON.json_value v = true -> JSON.stringify v = Some (text v).
Proof.
  unfold text; destruct v as [| | [] | | | | |]; cbn [JSON.stringify JSON.json_value];
    try discriminate; reflexivity.
Qed.

Lemma text_VObj_cons (k : string) (x : value) (rest : list (string * value)) :
  forallb (fun kv => JSON.json_value (snd kv)) ((k, x) :: rest) = true ->
  text (VObj ((k, x) :: rest)) = "{" ++ JSON.quote k ++ ":" ++ text x ++ members_tail rest.
Proof.
  cbn [forallb snd]; intros H; apply andb_true_iff in H as [Hx Hrest].
  unfold text at 1; cbn [JSON.stringify]; rewrite (stringify_json x Hx).
  cbn [append]; do 4 f_equal.
  induction rest as [| [k' y] rest IH]; [ reflexivity | ].
  cbn [forallb snd] in Hrest; apply andb_true_iff in Hrest as [Hy Hrest].
  cbn [members_tail]; rewrite (stringify_json y Hy), (IH Hrest); reflexivity.
Qed.

Lemma elements_tail_rest (l : list value) (R : string) :
  elements_tail l ++ R = elements_rest l R.
Proof.
  induction l as [| x rest IH]; [ reflexivity | ].
  cbn [elements_tail elements_rest append]; rewrite append_assoc, IH; reflexivity.
Qed.

Lemma members_tail_rest (ps : list (string * value)) (R : string) :
  members_tail ps ++ R = members_rest ps R.
Proof.
  induction ps as [| [k x] rest IH]; [ reflexivity | ].
  cbn [members_tail members_rest append]; unfold member, JSON.quote.
  rewrite !append_assoc; cbn [append]; rewrite !append_assoc, IH; reflexivity.
Qed.

Lemma length_elements_tail (l : list value) : 1 <= String.length (elements_tail l).
Proof.
  destruct l; cbn [elements_tail append String.length]; lia.
Qed.

Lemma length_members_tail (ps : list (string * value)) : 1 <= String.length (members_tail ps).
Proof.
  destruct ps as [| [k x] rest]; cbn [members_tail append String.length]; lia.
Qed.

Lemma text_leading (v : value) :
  JSON.json_value v = true ->
  exists c tail, text v = String c tail /\ starts_value c = true.
Proof.
  destruct v as [| | [] | n | s | | items | props]; try discriminate; intros _;
    try (eexists; eexists; split; [ reflexivity | reflexivity ]).
  destruct (string_of_Z_leading n) as (c & tail & Hs & Hc).
  exists c, tail; split; [ exact Hs | ].
  unfold starts_number in Hc; unfold starts_value.
  apply orb_true_iff in Hc as [Hc | Hc]; [ rewrite Hc; reflexivity | ].
  apply Ascii.eqb_eq in Hc; subst c; reflexivity.
Qed.

Lemma parse_value_array (fuel : nat) (c : ascii) (tail : string) :
  starts_value c = true ->
  JSON.parse_value (S fuel) (String "[" (String c tail)) =
  match JSON.parse_elements fuel (String c tail) with
  | Some (items, r) => Some (VArr items, r)
  | None => None
  end.
Proof.
  intros H; destruct (starts_value_dispatch c H) as (Hws & Hclose & _).
  cbn [JSON.parse_value JSON.skip_ws]; change (JSON.json_ws "[") with false; cbv iota.
  change (nat_of_ascii "[") with 91; cbn [Nat.eqb JSON.skip_ws]; rewrite Hws, Hclose; reflexivity.
Qed.

Lemma parse_elements_text (l : list value) :
  Forall reads_back l ->
  forallb JSON.json_value l = true ->
  forall (x : value), reads_back x -> JSON.json_value x = true ->
  forall (fuel : nat) (R : string),
    String.length (text x) + String.length (elements_tail l) <= fuel ->
    JSON.parse_elements fuel (text x ++ elements_rest l R) = Some (x :: l, R).
Proof.
  intros Hall; induction Hall as [| y l Hy _ IH]; intros Hjson x Hx Hjx fuel R Hlen.
  - cbn [elements_tail String.length] in Hlen.
    destruct fuel as [| f]; [ lia | ]. cbn [JSON.parse_elements elements_rest].
    rewrite (Hx Hjx f (String "]" R)) by (reflexivity || lia). reflexivity.
  - cbn [forallb] in Hjson; apply andb_true_iff in Hjson as [Hjy Hjson].
    cbn [elements_tail append String.length] in Hlen; rewrite length_append in Hlen.
    destruct fuel as [| f]; [ lia | ]. cbn [JSON.parse_elements elements_rest].
    rewrite (Hx Hjx f (String "," (text y ++ elements_rest l R))) by (reflexivity || lia).
    cbn [JSON.skip_ws]; change (JSON.json_ws ",") with false; cbv iota.
    change (nat_of_ascii ",") with 44; cbn [Nat.eqb].
    rewrite (IH Hjson y Hy Hjy f R) by lia. reflexivity.
Qed.

Lemma parse_string_escape_quote (s rest : string) :
  JSON.parse_string (JSON.escape s ++ String (ascii_of_nat 34) rest) = Some (s, rest).
Proof.
  exact (parse_string_escape s rest).
Qed.

Lemma delimited_members_rest (ps : list (string * value)) (R : string) :
  delimited (members_rest ps R) = true.
Proof.
  destruct ps as [| [k x] rest]; reflexivity.
Qed.

Lemma delimited_elements_rest (l : list value) (R : string) :
  delimited (elements_rest l R) = true.
Proof.
  destruct l; reflexivity.
Qed.

(** One member read by [parse_members]: the key, the colon, the value. *)
Lemma parse_members_member (fuel : nat) (acc : list (string * value)) (k : string) (T : string) :
  JSON.parse_members (S fuel) acc (dquote ++ (JSON.escape k ++ (dquote ++ String ":" T))) =
  match JSON.parse_value fuel T with
  | Some (v, after) =>
      match JSON.skip_ws after with
      | String c rest =>
          if (nat_of_ascii c =? 44)%nat then JSON.parse_members fuel (set_prop acc k v) rest
          else if (nat_of_ascii c =? 125)%nat then Some (set_prop acc k v, rest)
          else None
      | EmptyString => None
      end
  | None => None
  end.
Proof.
  unfold dquote; cbn [append JSON.parse_members JSON.skip_ws].
  change (JSON.json_ws (ascii_of_nat 34)) with false; cbv iota.
  change (nat_of_ascii (ascii_of_nat 34) =? 34)%nat with true; cbv iota.
  rewrite parse_string_escape_quote.
  cbn [JSON.skip_ws]; change (JSON.json_ws ":") with false; cbv iota.
  change (nat_of_ascii ":" =? 58)%nat with true; cbv iota.
  reflexivity.
Qed.

Lemma parse_members_text (ps : list (string * value)) :
  Forall (fun kv => reads_back (snd kv)) ps ->
  forallb (fun kv => JSON.json_value (snd kv)) ps = true ->
  forall (k : string) (x : value), reads_back x -> JSON.json_value x = true ->
  forall (fuel : nat) (acc : list (string * value)) (R : string),
    String.length (text x) + String.length (members_tail ps) <= fuel ->
    JSON.parse_members fuel acc (member k x (members_rest ps R)) =
    Some (fold_left (fun a kv => set_prop a (fst kv) (snd kv)) ps (set_prop acc k x), R).
Proof.
  intros Hall; induction Hall as [| [k' y] ps Hy _ IH]; intros Hjson k x Hx Hjx fuel acc R Hlen.
  - cbn [members_tail String.length] in Hlen.
    destruct fuel as [| f]; [ lia | ].
    unfold member; rewrite parse_members_member.
    rewrite (Hx Hjx f (members_rest [] R)) by (reflexivity || lia).
    reflexivity.
  - cbn [forallb snd] in Hjson; apply andb_true_iff in Hjson as [Hjy Hjson].
    cbn [members_tail append String.length] in Hlen.
    rewrite !length_append in Hlen; cbn [String.length] in Hlen; rewrite length_append in Hlen.
    destruct fuel as [| f]; [ lia | ].
    unfold member at 1; rewrite parse_members_member.
    rewrite (Hx Hjx f (members_rest ((k', y) :: ps) R)) by (reflexivity || lia).
    cbn [members_rest JSON.skip_ws]; change (JSON.json_ws ",") with false; cbv iota.
    change (nat_of_ascii "," =? 44)%nat with true; cbv iota.
    cbn [snd] in Hy.
    rewrite (IH Hjson k' y Hy Hjy f (set_prop acc k x) R) by lia.
    reflexivity.
Qed.

Lemma distinct_app_fresh (l1 l2 : list string) (k : string) :
  distinct (l1 ++ k :: l2) = true -> existsb (String.eqb k) l1 = false.
Proof.
  induction l1 as [| a l1 IH]; cbn [app distinct existsb]; [ reflexivity | ].
  intros H; apply andb_true_iff in H as [Ha Hd].
  rewrite (IH Hd), orb_false_r.
  apply negb_true_iff in Ha; rewrite existsb_app in Ha; cbn [existsb] in Ha.
  apply orb_false_iff in Ha as [_ Ha]; apply orb_false_iff in Ha as [Ha _].
  rewrite String.eqb_sym; exact Ha.
Qed.

Lemma set_prop_fresh (acc : list (string * value)) (k : string) (v : value) :
  existsb (String.eqb k) (map fst acc) = false -> set_prop acc k v = (acc ++ [(k, v)])%list.
Proof.
  induction acc as [| [k' v'] acc IH]; cbn [map fst existsb set_prop app]; [ reflexivity | ].
  intros H; apply orb_false_iff in H as [Hk H].
  rewrite String.eqb_sym, Hk, (IH H); reflexivity.
Qed.

(** Members with distinct keys, written in turn, give the members. *)
Lemma fold_set_prop_distinct (ps acc : list (string * value)) :
  distinct (map fst acc ++ map fst ps) = true ->
  fold_left (fun a kv => set_prop a (fst kv) (snd kv)) ps acc = (acc ++ ps)%list.
Proof.
  revert acc; induction ps as [| [k x] ps IH]; intros acc Hd; cbn [fold_left fst snd].
  - rewrite app_nil_r; reflexivity.
  - cbn [map fst] in Hd.
    rewrite (set_prop_fresh acc k x (distinct_app_fresh _ _ _ Hd)).
    rewrite IH.
    + rewrite <- app_assoc; reflexivity.
    + rewrite map_app; cbn [map fst]; rewrite <- app_assoc; exact Hd.
Qed.

Lemma append_empty (s : string) : s ++ "" = s.
Proof.
  induction s as [| c s IH]; cbn [append]; [ reflexivity | rewrite IH; reflexivity ].
Qed.

Lemma parse_value_object (fuel : nat) (tail : string) :
  JSON.parse_value (S fuel) (String "{" (dquote ++ tail)) =
  match JSON.parse_members fuel [] (dquote ++ tail) with
  | Some (props, r) => Some (VObj props, r)
  | None => None
  end.
Proof.
  reflexivity.
Qed.

(** Every JSON value is read back from its text. *)
Lemma json_value_reads_back (v : value) : reads_back v.
Proof.
  induction v as [| | b | n | s | ms | items IH | props IH] using value_induction;
    intros Hjson fuel rest Hrest Hlen; try discriminate.
  - destruct fuel as [| f]; [ cbn in Hlen; lia | reflexivity ].
  - destruct fuel as [| f]; [ destruct b; cbn in Hlen; lia | destruct b; reflexivity ].
  - destruct (string_of_Z_leading n) as (c & tail & Hs & Hc).
    change (text (VNum n)) with (string_of_Z n) in Hlen |- *.
    destruct fuel as [| f]; [ rewrite Hs in Hlen; cbn in Hlen; lia | ].
    pose proof (parse_number_string_of_Z n rest Hrest) as Hnum.
    rewrite Hs in Hnum |- *; cbn [append] in Hnum |- *.
    rewrite (parse_value_number f c (tail ++ rest) Hc); exact Hnum.
  - change (text (VStr s)) with (JSON.quote s) in Hlen |- *.
    destruct fuel as [| f]; [ unfold JSON.quote, dquote in Hlen; cbn in Hlen; lia | ].
    unfold JSON.quote, dquote; cbn [append]; rewrite append_assoc; cbn [append].
    cbn [JSON.parse_value JSON.skip_ws].
    change (JSON.json_ws (ascii_of_nat 34)) with false; cbv iota.
    change (nat_of_ascii (ascii_of_nat 34)) with 34; cbn [Nat.eqb].
    rewrite parse_string_escape_quote; reflexivity.
  - destruct items as [| x l].
    + destruct fuel as [| f]; [ cbn in Hlen; lia | reflexivity ].
    + rewrite json_value_VArr in Hjson; cbn [forallb] in Hjson.
      apply andb_true_iff in Hjson as [Hjx Hjl].
      inversion IH as [| ? ? Hx Hl]; subst.
      rewrite text_VArr_cons in Hlen |- *.
      cbn [append String.length] in Hlen; rewrite length_append in Hlen.
      destruct fuel as [| f]; [ lia | ].
      cbn [append]; rewrite append_assoc, elements_tail_rest.
      destruct (text_leading x Hjx) as (c & tail & Hc & Hstart).
      pose proof (parse_elements_text l Hl Hjl x Hx Hjx f rest) as Helems.
      rewrite Hc in Helems |- *; cbn [append] in Helems |- *.
      rewrite (parse_value_array f c _ Hstart), Helems; [ reflexivity | ].
      rewrite <- Hc; cbn [String.length] in Hlen |- *; lia.
  - destruct props as [| [k x] ps].
    + destruct fuel as [| f]; [ cbn in Hlen; lia | reflexivity ].
    + rewrite json_value_VObj in Hjson; apply andb_true_iff in Hjson as [Hd Hj].
      pose proof Hj as Hj'; cbn [forallb snd] in Hj'.
      apply andb_true_iff in Hj' as [Hjx Hjl].
      inversion IH as [| ? ? Hx Hl]; subst; cbn [snd] in Hx.
      rewrite (text_VObj_cons k x ps Hj) in Hlen |- *.
      cbn [append String.length] in Hlen.
      rewrite !length_append in Hlen; cbn [String.length] in Hlen; rewrite length_append in Hlen.
      destruct fuel as [| f]; [ lia | ].
      cbn [append]; unfold JSON.quote.
      rewrite !append_assoc; cbn [append]; rewrite append_assoc, members_tail_rest.
      rewrite parse_value_object.
      change (dquote ++ JSON.escape k ++ dquote ++ String ":" (text x ++ members_rest ps rest))
        with (member k x (members_rest ps rest)).
      rewrite (parse_members_text ps Hl Hjl k x Hx Hjx f [] rest) by lia.
      cbn [set_prop].
      rewrite (fold_set_prop_distinct ps [(k, x)]) by exact Hd.
      reflexivity.
Qed.

(** [JSON.parse(JSON.stringify(v))] is [v] for every JSON value. *)
Lemma parse_stringify (v : value) :
  JSON.json_value v = true ->
  exists s, JSON.stringify v = Some s /\ JSON.parse s = Ok v.
Proof.
  intros Hjson; exists (text v); split; [ exact (stringify_json v Hjson) | ].
  unfold JSON.parse.
  pose proof (json_value_reads_back v Hjson (S (String.length (text v))) "" eq_refl
                (Nat.le_succ_diag_r _)) as H.
  rewrite append_empty in H; rewrite H; reflexivity.
Qed.

(** ** The cipher of the reference adapter *)

Import DataCryptography.

Lemma bxor_involutive (a k : byte) : bxor (bxor a k) k = a.
Proof.
  unfold bxor.
  destruct (Byte.to_bits a) as (a0 & a1 & a2 & a3 & a4 & a5 & a6 & a7) eqn:Ha.
  destruct (Byte.to_bits k) as (k0 & k1 & k2 & k3 & k4 & k5 & k6 & k7) eqn:Hk.
  rewrite Byte.to_bits_of_bits.
  rewrite <- (Byte.of_bits_to_bits a), Ha.
  repeat rewrite xorb_assoc_reverse; repeat rewrite xorb_nilpotent; repeat rewrite xorb_false_r.
  reflexivity.
Qed.

Section CipherLaws.

Variable scryptSync : string -> string -> nat -> Buffer.
Variable aes256_block : Buffer -> Buffer -> Buffer.

(** Counter mode is its own inverse: it adds the same key stream twice. *)
Lemma ctr_from_involutive (key iv data : Buffer) (i : nat) :
  ctr_from aes256_block key iv i (ctr_from aes256_block key iv i data) = data.
Proof.
  revert i; induction data as [| b rest IH]; intros i; cbn [ctr_from]; [ reflexivity | ].
  rewrite bxor_involutive, IH; reflexivity.
Qed.

End CipherLaws.

Lemma fromHex_toHex_byte (b : byte) (tail : string) :
  fromHex (hex_of_byte b ++ tail) = b :: fromHex tail.
Proof.
  destruct b; reflexivity.
Qed.

(** Hex decoding undoes hex encoding. *)
Lemma fromHex_toHex (bs : Buffer) : fromHex (toHex bs) = bs.
Proof.
  induction bs as [| b rest IH]; cbn [toHex]; [ reflexivity | ].
  rewrite fromHex_toHex_byte, IH; reflexivity.
Qed.

Lemma string_rev_onto_twice (s acc acc' : string) :
  string_rev_onto (string_rev_onto s acc) acc' = string_rev_onto acc (s ++ acc').
Proof.
  revert acc; induction s as [| c s IH]; intros acc; cbn [string_rev_onto append];
    [ reflexivity | rewrite IH; reflexivity ].
Qed.

Lemma string_rev_involutive (s : string) : string_rev (string_rev s) = s.
Proof.
  unfold string_rev; rewrite string_rev_onto_twice; cbn [string_rev_onto].
  apply append_empty.
Qed.

Lemma split_colon_hex_byte (b : byte) (tail piece : string) :
  split_colon (hex_of_byte b ++ tail) piece
  = split_colon tail (string_rev_onto (hex_of_byte b) piece).
Proof.
  destruct b; reflexivity.
Qed.

Lemma split_colon_toHex (bs : Buffer) (tail piece : string) :
  split_colon (toHex bs ++ tail) piece = split_colon tail (string_rev_onto (toHex bs) piece).
Proof.
  revert piece; induction bs as [| b rest IH]; intros piece; cbn [toHex]; [ reflexivity | ].
  rewrite append_assoc, split_colon_hex_byte, IH; reflexivity.
Qed.

(** The frame [ivHex:ciphertextHex] splits into its two halves. *)
Lemma split_colon_frame (iv encrypted : Buffer) :
  split_colon (toHex iv ++ ":" ++ toHex encrypted) "" = [toHex iv; toHex encrypted].
Proof.
  rewrite split_colon_toHex; cbn [append split_colon].
  change (Ascii.eqb ":" ":") with true; cbv iota.
  fold (string_rev (toHex iv)); rewrite string_rev_involutive.
  f_equal.
  rewrite <- (append_empty (toHex encrypted)) at 1.
  rewrite split_colon_toHex; cbn [split_colon].
  fold (string_rev (toHex encrypted)); rewrite string_rev_involutive; reflexivity.
Qed.

Section AdapterLaws.

Variable scryptSync : string -> string -> nat -> Buffer.
Variable aes256_block : Buffer -> Buffer -> Buffer.

(** [decrypt] undoes [encrypt] under the same secret. *)
Lemma decrypt_encrypt (iv : Buffer) (data secret : string) :
  List.length iv = 16 ->
  exists encrypted,
    encrypt scryptSync aes256_block iv data secret = Ok encrypted
    /\ decrypt scryptSync aes256_block encrypted secret = Ok data.
Proof.
  intros Hiv; unfold encrypt, decrypt, aes_256_ctr.
  rewrite Hiv; cbn [Nat.eqb bind].
  eexists; split; [ reflexivity | ].
  rewrite split_colon_frame, !fromHex_toHex, Hiv; cbn [Nat.eqb bind].
  rewrite ctr_from_involutive.
  unfold utf8_decode, utf8_encode; rewrite string_of_list_byte_of_string; reflexivity.
Qed.


End AdapterLaws.



(** ** [deepEqual] *)

Lemma string_of_uint_injective (u u' : uint) :
  string_of_uint u = string_of_uint u' -> u = u'.
Proof.
  intros H.
  pose proof (take_digits_string_of_uint u "" eq_refl) as Hu.
  pose proof (take_digits_string_of_uint u' "" eq_refl) as Hu'.
  rewrite H in Hu; congruence.
Qed.

Lemma string_of_nat_injective (n m : nat) : string_of_nat n = string_of_nat m -> n = m.
Proof.
  unfold string_of_nat, string_of_N; intros H.
  apply string_of_uint_injective in H.
  apply Nnat.Nat2N.inj.
  rewrite <- (DecimalN.Unsigned.of_to (N.of_nat n)), <- (DecimalN.Unsigned.of_to (N.of_nat m)), H.
  reflexivity.
Qed.

(** The element of an array under its index key. *)
Lemma lookup_indexed_from (l : list value) (start i : nat) (x : value) :
  nth_error l i = Some x ->
  lookup (string_of_nat (start + i)) (indexed_from start l) = Some x.
Proof.
  revert start i; induction l as [| a l IH]; intros start i Hx; [ destruct i; discriminate | ].
  cbn [indexed_from lookup].
  destruct i as [| i]; cbn [nth_error] in Hx.
  - injection Hx as ->. rewrite Nat.add_0_r, String.eqb_refl; reflexivity.
  - destruct (string_of_nat start =? string_of_nat (start + S i)) eqn:E.
    + apply String.eqb_eq, string_of_nat_injective in E; lia.
    + replace (start + S i) with (S start + i) by lia. apply IH; exact Hx.
Qed.

Lemma lookup_distinct (props : list (string * value)) (k : string) (x : value) :
  distinct (map fst props) = true -> In (k, x) props -> lookup k props = Some x.
Proof.
  induction props as [| [k' x'] rest IH]; cbn [map fst distinct lookup]; intros Hd Hin;
    [ destruct Hin | ].
  apply andb_true_iff in Hd as [Hfresh Hd].
  destruct Hin as [Heq | Hin].
  - injection Heq as -> ->. rewrite String.eqb_refl; reflexivity.
  - destruct (k' =? k) eqn:E; [ | exact (IH Hd Hin) ].
    apply String.eqb_eq in E; subst k'.
    apply negb_true_iff in Hfresh.
    assert (Hk : In k (map fst rest)) by (apply in_map_iff; exists (k, x); auto).
    apply existsb_eqb_In in Hk; congruence.
Qed.

Lemma well_formed_VArr (items : list value) :
  well_formed (VArr items) = forallb well_formed items.
Proof.
  cbn [well_formed]; induction items as [| x rest IH]; [ reflexivity | ].
  cbn [forallb]; rewrite <- IH; reflexivity.
Qed.

Lemma well_formed_VObj (props : list (string * value)) :
  well_formed (VObj props) =
  distinct (map fst props) && forallb (fun kv => well_formed (snd kv)) props.
Proof.
  cbn [well_formed]; f_equal.
  induction props as [| [k x] rest IH]; [ reflexivity | ].
  cbn [forallb snd]; rewrite <- IH; reflexivity.
Qed.

Lemma length_indexed_from {A : Type} (l : list A) (start : nat) :
  List.length (map fst (indexed_from start l)) = List.length l.
Proof.
  revert start; induction l as [| x l IH]; intros start; cbn [indexed_from map List.length];
    [ reflexivity | rewrite IH; reflexivity ].
Qed.

(** [deepEqual] answers true on a value and itself: its first test, on
    the identity of the two, can be left to the rest of the function. *)
Lemma deepEqual_refl (v : value) : well_formed v = true -> deepEqual v v = true.
Proof.
  induction v as [| | b | n | s | ms | items IH | props IH] using value_induction;
    intros Hwf; try reflexivity.
  - cbn [deepEqual is_primitive strict_equals andb]; rewrite Bool.eqb_reflx; reflexivity.
  - cbn [deepEqual is_primitive strict_equals andb]; rewrite Z.eqb_refl; reflexivity.
  - cbn [deepEqual is_primitive strict_equals andb]; rewrite String.eqb_refl; reflexivity.
  - rewrite well_formed_VArr in Hwf.
    cbn [deepEqual is_primitive andb typeof is_null orb negb own_props].
    change ("object" =? "object") with true; cbn [negb orb].
    rewrite length_indexed_from, Nat.eqb_refl; cbn [andb].
    assert (Hsuffix : forall pre suf, items = (pre ++ suf)%list ->
              (fix all_index (i : nat) (vs : list value) {struct vs} : bool :=
                 match vs with
                 | [] => true
                 | v1 :: rest =>
                     existsb (String.eqb (string_of_nat i)) (map fst (indexed_from 0 items))
                     && match get (VArr items) (string_of_nat i) with
                        | Ok v2 => deepEqual v1 v2
                        | Throw _ => false
                        end
                     && all_index (S i) rest
                 end) (List.length pre) suf = true).
    { intros pre suf; revert pre; induction suf as [| x suf IHs]; intros pre Hsplit;
        [ reflexivity | ].
      assert (Hnth : nth_error items (List.length pre) = Some x)
        by (rewrite Hsplit, nth_error_app2, Nat.sub_diag by lia; reflexivity).
      pose proof (lookup_indexed_from items 0 (List.length pre) x Hnth) as Hlook.
      cbn [Nat.add] in Hlook.
      assert (Hx : In x items) by (rewrite Hsplit; apply in_or_app; right; left; reflexivity).
      unfold get; cbn [own_props]; rewrite Hlook.
      rewrite (proj1 (Forall_forall _ _) IH x Hx)
        by (exact (proj1 (forallb_forall _ _) Hwf x Hx)).
      replace (existsb _ _) with true.
      - cbn [andb]. specialize (IHs (pre ++ [x])%list).
        rewrite length_app, Nat.add_1_r in IHs. apply IHs.
        rewrite <- app_assoc; exact Hsplit.
      - symmetry; apply existsb_eqb_In. apply (lookup_In_keys _ _ x); exact Hlook. }
    exact (Hsuffix [] items eq_refl).
  - rewrite well_formed_VObj in Hwf; apply andb_true_iff in Hwf as [Hd Hwf].
    cbn [deepEqual is_primitive andb typeof is_null orb negb own_props].
    change ("object" =? "object") with true; cbn [negb orb].
    rewrite length_map, Nat.eqb_refl; cbn [andb].
    assert (Hsuffix : forall ps, (forall kv, In kv ps -> In kv props) ->
              (fix all_keys (ps0 : list (string * value)) : bool :=
                 match ps0 with
                 | [] => true
                 | (key, v1) :: rest =>
                     existsb (String.eqb key) (map fst props)
                     && match get (VObj props) key with
                        | Ok v2 => deepEqual v1 v2
                        | Throw _ => false
                        end
                     && all_keys rest
                 end) ps = true).
    { induction ps as [| [k x] ps IHs]; intros Hsub; [ reflexivity | ].
      assert (Hin : In (k, x) props) by (apply Hsub; left; reflexivity).
      rewrite get_VObj; unfold operand; rewrite (lookup_distinct props k x Hd Hin).
      pose proof (proj1 (Forall_forall _ _) IH (k, x) Hin
                    (proj1 (forallb_forall _ _) Hwf (k, x) Hin)) as Hx.
      cbn [snd] in Hx; rewrite Hx.
      replace (existsb _ _) with true.
      - cbn [andb]. apply IHs; intros kv Hkv; apply Hsub; right; exact Hkv.
      - symmetry; apply existsb_eqb_In, in_map_iff; exists (k, x); auto. }
    exact (Hsuffix props (fun kv H => H)).
Qed.

Lemma deepEqual_refl_witness :
  deepEqual (Examples.person "A" 30) (Examples.person "A" 30) = true.
Proof.
  exact (deepEqual_refl (Examples.person "A" 30) eq_refl).
Defined.

Lemma lookup_In (props : list (string * value)) (k : string) (x : value) :
  lookup k props = Some x -> In (k, x) props.
Proof.
  induction props as [| [k' x'] rest IH]; cbn [lookup]; [ discriminate | ].
  destruct (k' =? k) eqn:E.
  - apply String.eqb_eq in E; subst k'. intros H; injection H as ->; left; reflexivity.
  - intros H; right; exact (IH H).
Qed.

Lemma deepEqual_primitive_Date (x : value) (t : Z) :
  is_primitive x = true -> deepEqual x (VDate t) = false.
Proof.
  destruct x; try discriminate; reflexivity.
Qed.

(** A document whose [updatedAt] is a string, a number, a boolean or null,
    as that of every document read from a file the engine wrote, is never
    [deepEqual] to the document merged from it: the merged [updatedAt] is
    a Date.  On such a document [updateDocument] never takes the branch
    that writes nothing. *)
Theorem refreshed_document_is_not_deep_equal :
  forall (props : list (string * value)) (update : value) (t : Z) (x : value),
    lookup "updatedAt" props = Some x ->
    is_primitive x = true ->
    deepEqual (VObj props) (merged (VObj props) update t) = false.
Proof.
  intros props update t x Hx Hprim; unfold merged.
  set (m := set_prop (spread (spread [] (VObj props)) update) "updatedAt" (VDate t)).
  cbn [deepEqual is_primitive andb typeof is_null orb negb own_props].
  change ("object" =? "object") with true; cbn [negb orb].
  apply andb_false_iff; right.
  assert (Hone : forall ps, In ("updatedAt", x) ps ->
            (fix all_keys (ps0 : list (string * value)) : bool :=
               match ps0 with
               | [] => true
               | (key, v1) :: rest =>
                   existsb (String.eqb key) (map fst m)
                   && match get (VObj m) key with
                      | Ok v2 => deepEqual v1 v2
                      | Throw _ => false
                      end
                   && all_keys rest
               end) ps = false).
  { induction ps as [| [k v1] ps IHs]; intros Hin; [ destruct Hin | ].
    destruct Hin as [Heq | Hin].
    - injection Heq as -> ->.
      rewrite get_VObj; unfold operand, m; rewrite lookup_set_prop_same.
      rewrite (deepEqual_primitive_Date x t Hprim), andb_false_r; reflexivity.
    - rewrite (IHs Hin), andb_false_r; reflexivity. }
  exact (Hone props (lookup_In props "updatedAt" x Hx)).
Qed.

Lemma refreshed_document_is_not_deep_equal_witness :
  deepEqual
    (VObj [("_id", VStr "1"); ("name", VStr "A"); ("updatedAt", VStr "2024-11-02T12:00:00.005Z")])
    (merged
       (VObj [("_id", VStr "1"); ("name", VStr "A"); ("updatedAt", VStr "2024-11-02T12:00:00.005Z")])
       (VObj [("name", VStr "A")]) 1730548800005)
  = false.
Proof.
  exact (refreshed_document_is_not_deep_equal
           [("_id", VStr "1"); ("name", VStr "A"); ("updatedAt", VStr "2024-11-02T12:00:00.005Z")]
           (VObj [("name", VStr "A")]) 1730548800005 (VStr "2024-11-02T12:00:00.005Z")
           eq_refl eq_refl).
Defined.

(** ** The unique check of an update, where it works *)

Lemma isDuplicate_found (docIndex : nat) (f : string) (v : value) (docs : list value) :
  Forall (fun doc => readable doc = true) docs ->
  is_primitive v = true ->
  forall (start j : nat) (d : value),
    nth_error docs j = Some d -> start + j <> docIndex -> get d f = Ok v ->
    isDuplicate docIndex f v start docs = Ok true.
Proof.
  intros Hread Hprim; induction Hread as [| doc rest Hdoc _ IH]; intros start j d Hj Hne Hd;
    [ destruct j; discriminate | ].
  cbn [isDuplicate].
  destruct j as [| j]; cbn [nth_error] in Hj.
  - injection Hj as ->. rewrite Nat.add_0_r in Hne.
    replace (start =? docIndex)%nat with false by (symmetry; apply Nat.eqb_neq; exact Hne).
    rewrite Hd; cbn [bind]; rewrite (strict_equals_refl v Hprim); reflexivity.
  - assert (Hrest : isDuplicate docIndex f v (S start) rest = Ok true)
      by (apply (IH (S start) j d Hj); [ lia | exact Hd ]).
    destruct (start =? docIndex)%nat; cbn [bind]; [ exact Hrest | ].
    destruct (get_readable doc f Hdoc) as [x ->]; cbn [bind].
    destruct (strict_equals x v); [ reflexivity | exact Hrest ].
Qed.

Section UniqueOnUpdate.

Variable host : Host.
Variable adapter : Adapter.
Variable collectionPath : string.
Variable schema : Schema.

(** An update that validates, whose new value [v] of the unique field [f]
    is a string, number, boolean or null that the target holds in no
    unique field, and that another document holds in [f]: the call throws
    the duplicate-key error of the insert path, and the file is as it
    was. *)
Theorem update_rejects_value_held_by_another :
  forall (docs : list value) (docIndex : nat) (update : value) (st : State)
         (fpre fpost : list string) (f : string) (v : value) (j : nat) (other : value),
    validateDocument schema (merged (nth docIndex docs VUndefined) update (clock host (tick st)))
    = Ok tt ->
    Forall (fun doc => readable doc = true) docs ->
    readable (nth docIndex docs VUndefined) = true ->
    getUniqueFields schema = (fpre ++ f :: fpost)%list ->
    forEach (checkUnique collectionPath docs docIndex (nth docIndex docs VUndefined) update
               (merged (nth docIndex docs VUndefined) update (clock host (tick st)))
               (getUniqueFields schema)) fpre = Ok tt ->
    get (merged (nth docIndex docs VUndefined) update (clock host (tick st))) f = Ok v ->
    is_undefined v = false ->
    is_primitive v = true ->
    ownValuesHave (getUniqueFields schema) (nth docIndex docs VUndefined) update f v = Ok false ->
    nth_error docs j = Some other ->
    j <> docIndex ->
    get other f = Ok v ->
    updateDocument host adapter collectionPath schema docs docIndex update st
    = (Throw (Error (duplicateKeyMessage (getCollectionName collectionPath) f v)), ticked st)
    /\ file (ticked st) = file st.
Proof.
  intros docs docIndex update st fpre fpost f v j other
    Hvalid Hread Htarget Hfields Hpre Hv Hdef Hprim Hown Hj Hne Hother.
  split; [ | reflexivity ].
  unfold updateDocument, bindM, now, lift; cbn [tick file counter].
  rewrite Hvalid, (forEach_get_readable _ _ Htarget).
  rewrite Hfields at 2. rewrite forEach_app, Hpre; cbn [bind forEach].
  unfold checkUnique at 1; rewrite Hv; cbn [bind]; rewrite Hdef, Hown; cbn [bind].
  rewrite (isDuplicate_found docIndex f v docs Hread Hprim 0 j other Hj Hne Hother).
  reflexivity.
Qed.

End UniqueOnUpdate.

Lemma update_rejects_value_held_by_another_witness :
  updateDocument Examples.host0 Examples.plainAdapter Examples.path Examples.AccountSchema
    Examples.account_docs 0 (VObj [("backupEmail", VStr "c@x.io")]) Examples.accounts
  = (Throw (Error (duplicateKeyMessage "User" "backupEmail" (VStr "c@x.io"))),
     ticked Examples.accounts)
  /\ file (ticked Examples.accounts) = file Examples.accounts.
Proof.
  refine (update_rejects_value_held_by_another Examples.host0 Examples.plainAdapter
            Examples.path Examples.AccountSchema
            Examples.account_docs 0 (VObj [("backupEmail", VStr "c@x.io")]) Examples.accounts
            ["email"] [] "backupEmail" (VStr "c@x.io") 1 (nth 1 Examples.account_docs VUndefined)
            _ _ _ _ _ _ _ _ _ _ _ _);
    try (vm_compute; reflexivity).
  - repeat constructor.
  - discriminate.
Defined.

(** ** Schema validation, field by field *)

Lemma validate_SUCCESS (schema : Schema) (obj : value) (r : ValidationResponse) :
  validate schema obj = Ok r -> status r = SUCCESS -> r = success.
Proof.
  induction schema as [| [key config] rest IH]; cbn [validate]; intros Hv Hs.
  - injection Hv as <-; reflexivity.
  - destruct (get obj key) as [x |]; cbn [bind] in Hv; [ | discriminate ].
    destruct (checkField key config x) as [[response |] |] eqn:Hc; cbn [bind] in Hv;
      try discriminate.
    + injection Hv as ->. apply checkField_Some in Hc; congruence.
    + exact (IH Hv Hs).
Qed.

Lemma forallb_typeof (name : string) (elems : list value) :
  forallb (fun item => typeof item =? name) elems = true
  <-> Forall (fun item => typeof item = name) elems.
Proof.
  rewrite forallb_forall, Forall_forall; split; intros H x Hx.
  - apply String.eqb_eq, H, Hx.
  - apply String.eqb_eq, H, Hx.
Qed.

(** A field check lets the loop go on exactly when the value conforms. *)
Lemma checkField_None (key : string) (config : SchemaConfig) (v : value) :
  checkField key config v = Ok None <-> conforms config v.
Proof.
  destruct config as [type required u items nested]; unfold conforms.
  destruct (is_undefined v) eqn:Hu.
  - cbn [checkField]; rewrite Hu, andb_true_r.
    destruct required; split; try discriminate; try reflexivity.
    + intros [H _]; specialize (H eq_refl); discriminate.
    + intros _; split; discriminate.
  - destruct type.
    + cbn [checkField]; rewrite Hu, andb_false_r.
      destruct (typeof v =? type_name TString) eqn:E.
      * apply String.eqb_eq in E; split; [ intros _; split; auto | reflexivity ].
      * split; [ discriminate | intros [_ H]; specialize (H eq_refl) ].
        rewrite H, String.eqb_refl in E; discriminate.
    + cbn [checkField]; rewrite Hu, andb_false_r.
      destruct (typeof v =? type_name TNumber) eqn:E.
      * apply String.eqb_eq in E; split; [ intros _; split; auto | reflexivity ].
      * split; [ discriminate | intros [_ H]; specialize (H eq_refl) ].
        rewrite H, String.eqb_refl in E; discriminate.
    + cbn [checkField]; rewrite Hu, andb_false_r.
      destruct (typeof v =? type_name TBoolean) eqn:E.
      * apply String.eqb_eq in E; split; [ intros _; split; auto | reflexivity ].
      * split; [ discriminate | intros [_ H]; specialize (H eq_refl) ].
        rewrite H, String.eqb_refl in E; discriminate.
    + destruct nested as [fields |].
      * rewrite checkField_object by exact Hu.
        destruct (typeof v =? "object") eqn:E; cbn [negb orb].
        -- apply String.eqb_eq in E.
           destruct (isArray v) eqn:Ha.
           ++ split; [ discriminate | intros [_ H]; destruct (H eq_refl) as (_ & H' & _); discriminate ].
           ++ split.
              ** intros H. split; [ intros _; reflexivity | intros _ ].
                 split; [ exact E | split; [ reflexivity | ] ].
                 intros fields' Hf; injection Hf as <-.
                 destruct (validate fields v) as [nv |] eqn:Hn; cbn [bind] in H; [ | discriminate ].
                 unfold is_error in H. destruct (status nv) eqn:Hs; [ | discriminate ].
                 rewrite (validate_SUCCESS fields v nv Hn Hs); reflexivity.
              ** intros [_ H]; destruct (H eq_refl) as (_ & _ & Hn).
                 rewrite (Hn fields eq_refl); reflexivity.
        -- split; [ discriminate | intros [_ H]; destruct (H eq_refl) as (H' & _) ].
           rewrite H' in E; discriminate.
      * cbn [checkField]; rewrite Hu, andb_false_r.
        destruct (typeof v =? "object") eqn:E; cbn [negb orb].
        -- apply String.eqb_eq in E.
           destruct (isArray v) eqn:Ha.
           ++ split; [ discriminate | intros [_ H]; destruct (H eq_refl) as (_ & H' & _); discriminate ].
           ++ split; [ | reflexivity ].
              intros _; split; [ intros _; reflexivity | intros _ ].
              split; [ exact E | split; [ reflexivity | discriminate ] ].
        -- split; [ discriminate | intros [_ H]; destruct (H eq_refl) as (H' & _) ].
           rewrite H' in E; discriminate.
    + cbn [checkField]; rewrite Hu, andb_false_r.
      destruct v as [| | b | n | s | ms | elems | props];
        try (split; [ discriminate | intros [_ H]; destruct (H eq_refl) as (elems & He & _); discriminate ]).
      destruct items as [it |].
      * destruct (forallb (fun item => typeof item =? type_name it) elems) eqn:E.
        -- split; [ | reflexivity ].
           intros _; split; [ intros _; reflexivity | intros _ ].
           exists elems; split; [ reflexivity | ].
           intros it' Hit; injection Hit as <-. apply forallb_typeof; exact E.
        -- split; [ discriminate | ].
           intros [_ H]; destruct (H eq_refl) as (elems' & He & Hall).
           injection He as <-. specialize (Hall it eq_refl). apply forallb_typeof in Hall.
           rewrite Hall in E; discriminate.
      * split; [ | reflexivity ].
        intros _; split; [ intros _; reflexivity | intros _ ].
        exists elems; split; [ reflexivity | discriminate ].
    + cbn [checkField]; rewrite Hu, andb_false_r.
      destruct v as [| | b | n | s | ms | elems | props];
        try (split; [ discriminate | intros [_ H]; destruct (H eq_refl) as (ms & He); discriminate ]).
      split; [ | reflexivity ].
      intros _; split; [ intros _; reflexivity | intros _; exists ms; reflexivity ].
Qed.

Lemma Forall_own_property (P : SchemaConfig -> value -> Prop) (schema : Schema)
  (props : list (string * value)) :
  Forall (fun kc => exists v, get (VObj props) (fst kc) = Ok v /\ P (snd kc) v) schema
  <-> Forall (fun kc => P (snd kc) (operand props (fst kc))) schema.
Proof.
  rewrite !Forall_forall; split; intros H kc Hkc.
  - destruct (H kc Hkc) as (v & Hv & HP). rewrite get_VObj in Hv; injection Hv as <-; exact HP.
  - exists (operand props (fst kc)); split; [ apply get_VObj | exact (H kc Hkc) ].
Qed.

(** For a schema whose keys are ordinary (no name that an object or a
    Date inherits, no leading digit) and a candidate that is a plain
    object, [validate] answers SUCCESS exactly when the candidate's own
    property under every declared key, undefined when it has none,
    conforms to the declaration of the key. *)
Theorem validate_succeeds_iff_every_field_conforms :
  forall (schema : Schema) (props : list (string * value)),
    ordinary schema = true ->
    (validate schema (VObj props) = Ok success <->
     Forall (fun kc => conforms (snd kc) (operand props (fst kc))) schema).
Proof.
  intros schema props _; induction schema as [| [key config] rest IH]; cbn [validate].
  - split; [ constructor | reflexivity ].
  - rewrite get_VObj; cbn [bind]. split.
    + intros Hv.
      destruct (checkField key config (operand props key)) as [[response |] |] eqn:Hc;
        cbn [bind] in Hv; try discriminate.
      * injection Hv as ->. apply checkField_Some in Hc; discriminate.
      * constructor; [ exact (proj1 (checkField_None key config _) Hc) | apply IH; exact Hv ].
    + intros H; inversion H as [| kc l Hc Hrest]; subst.
      cbn [fst snd] in Hc.
      rewrite (proj2 (checkField_None key config _) Hc). apply IH; exact Hrest.
Qed.

Lemma validate_succeeds_iff_every_field_conforms_witness :
  validate Examples.PersonSchema (VObj [("name", VStr "A"); ("age", VNum 30)]) = Ok success
  /\ validate Examples.PersonSchema (VObj [("name", VStr "A"); ("age", VStr "thirty")])
     = Ok (failure "Property age should be of type number.").
Proof.
  split; [ | reflexivity ].
  apply (validate_succeeds_iff_every_field_conforms Examples.PersonSchema
           [("name", VStr "A"); ("age", VNum 30)] eq_refl).
  repeat constructor; discriminate || reflexivity.
Defined.

Lemma validate_ext (schema : Schema) (obj obj' : value) :
  (forall key, In key (map fst schema) -> get obj' key = get obj key) ->
  validate schema obj' = validate schema obj.
Proof.
  induction schema as [| [key config] rest IH]; intros H; cbn [validate]; [ reflexivity | ].
  rewrite (H key (or_introl eq_refl)), IH; [ reflexivity | ].
  intros k Hk; apply H; right; exact Hk.
Qed.

(** A property that the schema does not declare is not validated:
    writing it into the candidate, whatever its value, changes nothing
    of the result. *)
Theorem undeclared_properties_are_not_validated :
  forall (schema : Schema) (props : list (string * value)) (k : string) (v : value),
    existsb (String.eqb k) (map fst schema) = false ->
    validate schema (VObj (set_prop props k v)) = validate schema (VObj props).
Proof.
  intros schema props k v Hk; apply validate_ext; intros key Hkey.
  rewrite !get_VObj; unfold operand.
  rewrite lookup_set_prop_other; [ reflexivity | ].
  intros ->; apply existsb_eqb_In in Hkey; congruence.
Qed.

Lemma undeclared_properties_are_not_validated_witness :
  validate Examples.PersonSchema
    (VObj (set_prop [("name", VStr "A"); ("age", VNum 30)] "nickname" (VNum 7)))
  = validate Examples.PersonSchema (VObj [("name", VStr "A"); ("age", VNum 30)]).
Proof.
  exact (undeclared_properties_are_not_validated Examples.PersonSchema
           [("name", VStr "A"); ("age", VNum 30)] "nickname" (VNum 7) eq_refl).
Defined.

(** An array field whose items are declared of type "array" or "date"
    accepts no element: [typeof] answers neither, so the first element
    of a supplied array makes the candidate an ERROR. *)
Theorem array_of_arrays_or_dates_accepts_no_element :
  forall (key : string) (required : bool) (u : option bool) (it : FieldType)
         (nested : option Schema) (rest : Schema) (obj x : value) (elems : list value),
    it = TArray \/ it = TDate ->
    get obj key = Ok (VArr (x :: elems)) ->
    validate ((key, mkSchemaConfig TArray required u (Some it) nested) :: rest) obj
    = Ok (failure ("All items in array " ++ key ++ " should be of type " ++ type_name it ++ ".")).
Proof.
  intros key required u it nested rest obj x elems Hit Hget.
  cbn [validate]; rewrite Hget; cbn [bind checkField is_undefined]; rewrite andb_false_r.
  cbn [forallb].
  replace (typeof x =? type_name it) with false; [ reflexivity | ].
  destruct Hit as [-> | ->]; destruct x; reflexivity.
Qed.

Lemma array_of_arrays_or_dates_accepts_no_element_witness :
  validate [("days", mkSchemaConfig TArray true None (Some TDate) None)]
    (VObj [("days", VArr [VDate 0])])
  = Ok (failure "All items in array days should be of type date.").
Proof.
  exact (array_of_arrays_or_dates_accepts_no_element "days" true None TDate None []
           (VObj [("days", VArr [VDate 0])]) (VDate 0) [] (or_intror eq_refl) eq_refl).
Defined.

Lemma validate_first_failure (pre post : Schema) (key : string) (config : SchemaConfig)
  (obj v : value) (r : ValidationResponse) :
  Forall (fun kc => exists x, get obj (fst kc) = Ok x /\ conforms (snd kc) x) pre ->
  get obj key = Ok v ->
  checkField key config v = Ok (Some r) ->
  validate (pre ++ (key, config) :: post)%list obj = Ok r.
Proof.
  intros Hpre Hv Hc; induction Hpre as [| [k c] rest (x & Hx & Hcx) _ IH]; cbn [List.app validate].
  - rewrite Hv; cbn [bind]; rewrite Hc; reflexivity.
  - cbn [fst snd] in Hx, Hcx. rewrite Hx; cbn [bind].
    rewrite (proj2 (checkField_None k c x) Hcx); exact IH.
Qed.

(** For a schema whose keys are ordinary and a candidate that is a plain
    object, the first declared field that fails decides, whatever the
    fields after it hold: when the fields declared before it conform, a
    required field that is missing is reported as required, and a string,
    number, boolean or date field that holds a value of another type is
    reported with the type it should have. *)
Theorem first_failing_field_is_reported :
  forall (pre post : Schema) (key : string) (type : FieldType) (required : bool)
         (u : option bool) (items : option FieldType) (nested : option Schema)
         (props : list (string * value)),
    ordinary (pre ++ (key, mkSchemaConfig type required u items nested) :: post)%list = true ->
    Forall (fun kc => conforms (snd kc) (operand props (fst kc))) pre ->
    (required = true -> is_undefined (operand props key) = true ->
     validate (pre ++ (key, mkSchemaConfig type required u items nested) :: post)%list
       (VObj props)
     = Ok (failure ("Property " ++ key ++ " is required.")))
    /\ (is_undefined (operand props key) = false ->
        type = TString \/ type = TNumber \/ type = TBoolean \/ type = TDate ->
        ~ conforms (mkSchemaConfig type required u items nested) (operand props key) ->
        validate (pre ++ (key, mkSchemaConfig type required u items nested) :: post)%list
          (VObj props)
        = Ok (failure ("Property " ++ key ++ " should be of type " ++ type_name type ++ "."))).
Proof.
  intros pre post key type required u items nested props _ Hpre.
  apply Forall_own_property in Hpre.
  pose proof (get_VObj props key) as Hv; set (v := operand props key) in *; split.
  - intros -> Hu; apply (validate_first_failure pre post key _ (VObj props) v);
      [ exact Hpre | exact Hv | ].
    cbn [checkField]; rewrite Hu; reflexivity.
  - intros Hu Htype Hbad.
    apply (validate_first_failure pre post key _ (VObj props) v); [ exact Hpre | exact Hv | ].
    cbn [checkField]; rewrite Hu, andb_false_r.
    destruct Htype as [-> | [-> | [-> | ->]]].
    + destruct (typeof v =? type_name TString) eqn:E; [ exfalso; apply Hbad | reflexivity ].
      split; [ intros _; exact Hu | intros _; apply String.eqb_eq; exact E ].
    + destruct (typeof v =? type_name TNumber) eqn:E; [ exfalso; apply Hbad | reflexivity ].
      split; [ intros _; exact Hu | intros _; apply String.eqb_eq; exact E ].
    + destruct (typeof v =? type_name TBoolean) eqn:E; [ exfalso; apply Hbad | reflexivity ].
      split; [ intros _; exact Hu | intros _; apply String.eqb_eq; exact E ].
    + destruct v as [| | b | n | s | ms | elems | props']; try reflexivity.
      exfalso; apply Hbad; split; [ intros _; reflexivity | intros _; exists ms; reflexivity ].
Qed.

Lemma first_failing_field_is_reported_witness :
  validate ([("name", Examples.field TString true None)]
            ++ ("age", mkSchemaConfig TNumber true (Some true) None None) :: [])%list
    (VObj [("name", VStr "A")])
  = Ok (failure "Property age is required.")
  /\ validate ([("name", Examples.field TString true None)]
               ++ ("age", mkSchemaConfig TNumber true (Some true) None None) :: [])%list
       (VObj [("name", VStr "A"); ("age", VStr "thirty")])
     = Ok (failure "Property age should be of type number.").
Proof.
  split.
  - refine (proj1 (first_failing_field_is_reported [("name", Examples.field TString true None)] []
                     "age" TNumber true (Some true) None None
                     [("name", VStr "A")] eq_refl _) eq_refl eq_refl).
    constructor; [ | constructor ].
    split; [ reflexivity | reflexivity ].
  - refine (proj2 (first_failing_field_is_reported [("name", Examples.field TString true None)] []
                     "age" TNumber true (Some true) None None
                     [("name", VStr "A"); ("age", VStr "thirty")] eq_refl _)
              eq_refl (or_intror (or_introl eq_refl)) _).
    + constructor; [ | constructor ].
      split; [ reflexivity | reflexivity ].
    + intros [_ H]; specialize (H eq_refl); discriminate H.
Defined.

(** ** Queries on plain values, on null and on nested fields *)

(** The keys of a query are visited in order, up to the first that fails. *)
Lemma matchesQuery_app (item : value) (pre post : list (string * value)) :
  matchesQuery item (VObj (pre ++ post)) =
  (b <- matchesQuery item (VObj pre) ;; if b then matchesQuery item (VObj post) else Ok false).
Proof.
  induction pre as [| [key q] pre IH].
  - cbn [List.app matchesQuery bind]. reflexivity.
  - cbn [List.app]. cbn [matchesQuery] in IH |- *.
    destruct (matchesKey item key q _) as [[] |]; cbn [bind]; [ exact IH | reflexivity | reflexivity ].
Qed.

Lemma matchesQuery_cons (item : value) (key : string) (q : value) (rest : list (string * value)) :
  matchesQuery item (VObj ((key, q) :: rest)) =
  (b <- matchesKey item key q (fun itemValue => matchesQuery itemValue q) ;;
   if b then matchesQuery item (VObj rest) else Ok false).
Proof.
  reflexivity.
Qed.

Lemma digit_is_no_operator_start (c : ascii) :
  is_digit c = true -> Ascii.eqb c "$" = false /\ Ascii.eqb c "w" = false.
Proof.
  destruct c as [[] [] [] [] [] [] [] []]; intros H; try discriminate H; split; reflexivity.
Qed.

Lemma index_is_no_operator (i : nat) :
  existsb (String.eqb (string_of_nat i)) operator_keys = false.
Proof.
  unfold string_of_nat.
  destruct (string_of_N_leading (N.of_nat i)) as (c & tail & -> & Hc).
  destruct (digit_is_no_operator_start c Hc) as [H1 H2].
  unfold operator_keys; cbn [existsb String.eqb]; rewrite H1, H2; reflexivity.
Qed.

Lemma indexes_are_no_operators {A : Type} (l : list A) (start : nat) :
  existsb (fun key => existsb (String.eqb key) operator_keys)
    (map fst (indexed_from start l)) = false.
Proof.
  revert start; induction l as [| x l IH]; intros start; cbn [indexed_from map fst existsb];
    [ reflexivity | rewrite index_is_no_operator, IH; reflexivity ].
Qed.

Lemma isQueryOperator_plain (q : value) : plain q = true -> isQueryOperator q = Ok false.
Proof.
  destruct q as [| | b | n | s | ms | elems | props]; try discriminate; intros _;
    unfold isQueryOperator; cbn [Object_keys bind own_props map existsb]; try reflexivity.
  rewrite indexes_are_no_operators; reflexivity.
Qed.

Lemma typeof_plain (q : value) : plain q = true -> (typeof q =? "object") = false.
Proof.
  destruct q; try discriminate; reflexivity.
Qed.

(** A query whose values are strings, numbers and booleans asks for strict
    equality, field by field. *)
Theorem plain_query_is_field_equality :
  forall (props qprops : list (string * value)),
    Forall (fun kq => plain (snd kq) = true) qprops ->
    matchesQuery (VObj props) (VObj qprops)
    = Ok (forallb (fun kq => strict_equals (operand props (fst kq)) (snd kq)) qprops).
Proof.
  intros props qprops H; induction H as [| [key q] rest Hq _ IH]; [ reflexivity | ].
  rewrite matchesQuery_cons, IH; cbn [fst snd forallb] in Hq |- *.
  unfold matchesKey; rewrite get_VObj; cbn [bind].
  rewrite (isQueryOperator_plain q Hq); cbn [bind]; rewrite (typeof_plain q Hq); cbn [andb].
  destruct (strict_equals (operand props key) q); reflexivity.
Qed.

Lemma plain_query_is_field_equality_witness :
  matchesQuery (VObj [("name", VStr "A"); ("age", VNum 30)])
    (VObj [("age", VNum 30); ("name", VStr "A")])
  = Ok (forallb (fun kq => strict_equals
                             (operand [("name", VStr "A"); ("age", VNum 30)] (fst kq)) (snd kq))
          [("age", VNum 30); ("name", VStr "A")]).
Proof.
  apply (plain_query_is_field_equality [("name", VStr "A"); ("age", VNum 30)]
           [("age", VNum 30); ("name", VStr "A")]).
  repeat constructor.
Defined.

(** A query that holds null or undefined under a key throws a TypeError
    on every document that passes the keys before it: null is asked for
    its keys. *)
Theorem null_in_a_query_throws :
  forall (item : value) (pre post : list (string * value)) (key : string) (q : value),
    readable item = true ->
    matchesQuery item (VObj pre) = Ok true ->
    q = VNull \/ q = VUndefined ->
    matchesQuery item (VObj (pre ++ (key, q) :: post)) = Throw TypeError.
Proof.
  intros item pre post key q Hitem Hpre Hq.
  rewrite matchesQuery_app, Hpre; cbn [bind]. rewrite matchesQuery_cons.
  unfold matchesKey. destruct (get_readable item key Hitem) as [x ->]; cbn [bind].
  destruct Hq as [-> | ->]; reflexivity.
Qed.

Lemma null_in_a_query_throws_witness :
  matchesQuery (VObj [("name", VStr "A"); ("email", VNull)])
    (VObj ([("name", VStr "A")] ++ ("email", VNull) :: []))
  = Throw TypeError.
Proof.
  apply (null_in_a_query_throws (VObj [("name", VStr "A"); ("email", VNull)])
           [("name", VStr "A")] [] "email" VNull);
    [ reflexivity | vm_compute; reflexivity | left; reflexivity ].
Defined.

(** A Date, an empty object or an empty array as a query value constrains
    nothing: the key can be left out of the query. *)
Theorem keyless_query_value_constrains_nothing :
  forall (item : value) (key : string) (q : value) (rest : list (string * value)),
    readable item = true ->
    keyless q = true ->
    matchesQuery item (VObj ((key, q) :: rest)) = matchesQuery item (VObj rest).
Proof.
  intros item key q rest Hitem Hq.
  rewrite matchesQuery_cons; unfold matchesKey.
  destruct (get_readable item key Hitem) as [x ->]; cbn [bind].
  destruct q as [| | b | n | s | ms | [| e elems] | [| p props]]; try discriminate; cbn;
    destruct (matchesQuery item (VObj rest)) as [[] |]; reflexivity.
Qed.

Lemma keyless_query_value_constrains_nothing_witness :
  matchesQuery (Examples.person "A" 30) (VObj [("createdAt", VDate 0); ("name", VStr "A")])
  = matchesQuery (Examples.person "A" 30) (VObj [("name", VStr "A")]).
Proof.
  apply (keyless_query_value_constrains_nothing (Examples.person "A" 30) "createdAt" (VDate 0)
           [("name", VStr "A")]); reflexivity.
Defined.



(** ** [find]: the documents kept, in the order of their time values *)

Section SortLaws.

Variable order : Z.

Lemma insert_by_Permutation (x : Z * value) (l : list (Z * value)) :
  Permutation (x :: l) (insert_by order x l).
Proof.
  induction l as [| y l IH]; cbn [insert_by]; [ reflexivity | ].
  destruct ((fst x - fst y) * order <=? 0)%Z; [ reflexivity | ].
  rewrite perm_swap; constructor; exact IH.
Qed.

Lemma stable_sort_Permutation (l : list (Z * value)) : Permutation l (stable_sort order l).
Proof.
  induction l as [| x l IH]; cbn [stable_sort fold_right]; [ constructor | ].
  rewrite <- insert_by_Permutation; constructor; exact IH.
Qed.

Lemma insert_by_sorted (x : Z * value) (l : list (Z * value)) :
  StronglySorted (fun a b => ((fst a - fst b) * order <= 0)%Z) l ->
  StronglySorted (fun a b => ((fst a - fst b) * order <= 0)%Z) (insert_by order x l).
Proof.
  induction 1 as [| y l Hl IH Hy]; cbn [insert_by]; [ repeat constructor | ].
  destruct ((fst x - fst y) * order <=? 0)%Z eqn:E.
  - apply Z.leb_le in E. constructor; [ constructor; assumption | ].
    constructor; [ exact E | ].
    rewrite Forall_forall in Hy |- *; intros z Hz; specialize (Hy z Hz); cbn beta in Hy |- *.
    nia.
  - apply Z.leb_gt in E. constructor; [ exact IH | ].
    rewrite Forall_forall in Hy |- *; intros z Hz.
    apply (Permutation_in _ (Permutation_sym (insert_by_Permutation x l))) in Hz.
    destruct Hz as [<- | Hz]; [ nia | exact (Hy z Hz) ].
Qed.

Lemma stable_sort_sorted (l : list (Z * value)) :
  StronglySorted (fun a b => ((fst a - fst b) * order <= 0)%Z) (stable_sort order l).
Proof.
  induction l as [| x l IH]; cbn [stable_sort fold_right]; [ constructor | ].
  apply insert_by_sorted; exact IH.
Qed.

(** The sort is stable: the elements of one key keep their order. *)
Lemma insert_by_stable (t : Z) (x : Z * value) (l : list (Z * value)) :
  filter (fun p => (fst p =? t)%Z) (insert_by order x l)
  = filter (fun p => (fst p =? t)%Z) (x :: l).
Proof.
  induction l as [| y l IH]; cbn [insert_by]; [ reflexivity | ].
  destruct ((fst x - fst y) * order <=? 0)%Z eqn:E; [ reflexivity | ].
  apply Z.leb_gt in E. cbn [filter] in IH |- *. rewrite IH.
  destruct (fst x =? t)%Z eqn:Ex; [ | reflexivity ].
  destruct (fst y =? t)%Z eqn:Ey; [ | reflexivity ].
  apply Z.eqb_eq in Ex, Ey. exfalso. rewrite Ex, Ey, Z.sub_diag in E. lia.
Qed.

Lemma stable_sort_stable (t : Z) (l : list (Z * value)) :
  filter (fun p => (fst p =? t)%Z) (stable_sort order l) = filter (fun p => (fst p =? t)%Z) l.
Proof.
  induction l as [| x l IH]; cbn [stable_sort fold_right]; [ reflexivity | ].
  fold (stable_sort order l). rewrite insert_by_stable. cbn [filter]. rewrite IH. reflexivity.
Qed.

End SortLaws.

Section FindLaws.

Variable adapter : Adapter.
Variable Date_parse : string -> option Z.
Variable inconsistent_sort : Z -> list value -> list value.

Lemma map_snd_keyed (docs : list value) : map snd (map (keyed Date_parse) docs) = docs.
Proof.
  induction docs as [| d l IH]; cbn [map keyed snd]; [ reflexivity | rewrite IH; reflexivity ].
Qed.

Lemma keyed_canonical (l : list (Z * value)) :
  Forall (fun p => p = keyed Date_parse (snd p)) l -> l = map (keyed Date_parse) (map snd l).
Proof.
  induction 1 as [| p l Hp _ IH]; cbn [map]; [ reflexivity | rewrite <- Hp, <- IH; reflexivity ].
Qed.

Lemma stable_sort_keyed (order : Z) (docs : list value) :
  stable_sort order (map (keyed Date_parse) docs)
  = map (keyed Date_parse) (sorted_docs Date_parse order docs).
Proof.
  unfold sorted_docs; apply keyed_canonical.
  rewrite Forall_forall; intros p Hp.
  apply (Permutation_in _ (Permutation_sym (stable_sort_Permutation order _))) in Hp.
  apply in_map_iff in Hp as (d & <- & _); reflexivity.
Qed.

Lemma sorted_docs_Permutation (order : Z) (docs : list value) :
  Permutation docs (sorted_docs Date_parse order docs).
Proof.
  unfold sorted_docs. rewrite <- (map_snd_keyed docs) at 1.
  apply Permutation_map, stable_sort_Permutation.
Qed.

Lemma sorted_docs_sorted (order : Z) (docs : list value) :
  StronglySorted
    (fun a b => ((sort_key Date_parse a - sort_key Date_parse b) * order <= 0)%Z)
    (sorted_docs Date_parse order docs).
Proof.
  pose proof (stable_sort_sorted order (map (keyed Date_parse) docs)) as H.
  rewrite stable_sort_keyed in H.
  induction (sorted_docs Date_parse order docs) as [| d l IH]; [ constructor | ].
  cbn [map] in H; inversion H as [| ? ? Hl Hd]; subst.
  constructor; [ exact (IH Hl) | ].
  rewrite Forall_forall in Hd |- *; intros z Hz.
  exact (Hd _ (in_map _ _ _ Hz)).
Qed.

Lemma filter_keyed (t : Z) (docs : list value) :
  filter (fun p => (fst p =? t)%Z) (map (keyed Date_parse) docs)
  = map (keyed Date_parse) (filter (fun d => (sort_key Date_parse d =? t)%Z) docs).
Proof.
  induction docs as [| d l IH]; cbn [map filter keyed fst]; [ reflexivity | ].
  destruct (sort_key Date_parse d =? t)%Z; cbn [map]; rewrite IH; reflexivity.
Qed.

Lemma sorted_docs_stable (order t : Z) (docs : list value) :
  filter (fun d => (sort_key Date_parse d =? t)%Z) (sorted_docs Date_parse order docs)
  = filter (fun d => (sort_key Date_parse d =? t)%Z) docs.
Proof.
  pose proof (stable_sort_stable order t (map (keyed Date_parse) docs)) as H.
  rewrite stable_sort_keyed, !filter_keyed in H.
  apply (f_equal (map snd)) in H. rewrite !map_snd_keyed in H. exact H.
Qed.

Lemma createdTimes_keys (docs : list value) :
  Forall (fun doc => exists t, createdTime Date_parse doc = Ok (Some t)) docs ->
  createdTimes Date_parse docs = Ok (map (fun doc => Some (sort_key Date_parse doc)) docs).
Proof.
  induction 1 as [| d l (t & Ht) _ IH]; cbn [createdTimes map]; [ reflexivity | ].
  unfold sort_key at 1. rewrite Ht, IH; reflexivity.
Qed.

Lemma all_numbers_Some (keys : list Z) : all_numbers (map Some keys) = Some keys.
Proof.
  induction keys as [| k l IH]; cbn [map all_numbers]; [ reflexivity | rewrite IH; reflexivity ].
Qed.

Lemma combine_keys (docs : list value) :
  combine (map (sort_key Date_parse) docs) docs = map (keyed Date_parse) docs.
Proof.
  induction docs as [| d l IH]; cbn [map combine]; [ reflexivity | rewrite IH; reflexivity ].
Qed.

Lemma timed_defined (docs : list value) :
  Forall (fun doc => exists t, createdTime Date_parse doc = Ok (Some t)) docs ->
  filter (fun doc => negb (is_undefined doc)) docs = docs /\ filter is_undefined docs = [].
Proof.
  induction 1 as [| d l (t & Ht) _ [IH1 IH2]]; cbn [filter]; [ split; reflexivity | ].
  destruct d; try discriminate Ht; cbn [is_undefined negb]; rewrite IH1, IH2; split; reflexivity.
Qed.

(** The sort of [find] on documents that each have a time value. *)
Lemma sortByCreatedAt_timed (order : Z) (docs : list value) :
  Forall (fun doc => exists t, createdTime Date_parse doc = Ok (Some t)) docs ->
  sortByCreatedAt Date_parse inconsistent_sort order docs
  = Ok (sorted_docs Date_parse order docs).
Proof.
  intros H; unfold sortByCreatedAt.
  destruct (timed_defined docs H) as [-> ->].
  destruct docs as [| a [| b l]]; try reflexivity.
  rewrite (createdTimes_keys _ H); cbn [bind].
  rewrite <- (map_map (sort_key Date_parse) Some), all_numbers_Some, combine_keys, app_nil_r.
  reflexivity.
Qed.

(** [find] over documents that each have a time value: the documents it
    keeps come back, each once, ordered by time value, descending unless
    the order asked for is "asc", the documents of one time value in the
    order of the file; the state is the one before. *)
Theorem find_returns_the_kept_documents_sorted :
  forall (query sortOrder : value) (st : State) (text : string) (docs kept : list value),
    file st = Some text ->
    deserialize adapter text = Ok (VArr docs) ->
    kept_by query docs = Ok kept ->
    Forall (fun doc => exists t, createdTime Date_parse doc = Ok (Some t)) kept ->
    exists found,
      find adapter Date_parse inconsistent_sort query sortOrder st = (Ok found, st)
      /\ Permutation kept found
      /\ StronglySorted
           (fun a b => ((sort_key Date_parse a - sort_key Date_parse b) * order_of sortOrder <= 0)%Z)
           found
      /\ forall t, filter (fun d => (sort_key Date_parse d =? t)%Z) found
                   = filter (fun d => (sort_key Date_parse d =? t)%Z) kept.
Proof.
  intros query sortOrder st text docs kept Hfile Hparse Hkept Htimed.
  exists (sorted_docs Date_parse (order_of sortOrder) kept); split; [ | split; [ | split ] ].
  - unfold find, bindM. rewrite readCollectionData_eq, Hfile, Hparse; cbn [lift as_array].
    unfold kept_by in Hkept; rewrite Hkept.
    fold (order_of sortOrder). rewrite (sortByCreatedAt_timed _ _ Htimed); reflexivity.
  - apply sorted_docs_Permutation.
  - apply sorted_docs_sorted.
  - intros t; apply sorted_docs_stable.
Qed.

End FindLaws.

Lemma find_returns_the_kept_documents_sorted_witness :
  exists found,
    find Examples.plainAdapter Examples.isoTime Examples.as_found
      (VObj [("backupEmail", VObj [("$in", VArr [VStr "b@x.io"; VStr "c@x.io"])])]) VUndefined
      Examples.accounts
    = (Ok found, Examples.accounts)
    /\ Permutation Examples.account_docs found
    /\ StronglySorted
         (fun a b => ((sort_key Examples.isoTime a - sort_key Examples.isoTime b)
                      * order_of VUndefined <= 0)%Z)
         found
    /\ forall t, filter (fun d => (sort_key Examples.isoTime d =? t)%Z) found
                 = filter (fun d => (sort_key Examples.isoTime d =? t)%Z) Examples.account_docs.
Proof.
  apply (find_returns_the_kept_documents_sorted Examples.plainAdapter Examples.isoTime
           Examples.as_found
           (VObj [("backupEmail", VObj [("$in", VArr [VStr "b@x.io"; VStr "c@x.io"])])]) VUndefined
           Examples.accounts (Examples.content Examples.accounts) Examples.account_docs).
  - vm_compute; reflexivity.
  - vm_compute; reflexivity.
  - vm_compute; reflexivity.
  - repeat constructor; eexists; vm_compute; reflexivity.
Defined.

(** ** Deletes that succeed; updates and inserts that are refused *)

Lemma find_from_first (accepts : value -> result bool) (docs : list value) (i : nat) (d : value)
  (start : nat) :
  first_match accepts docs i d -> find_from accepts start docs = Ok (Some (start + i, d)).
Proof.
  revert i start; induction docs as [| x rest IH]; intros i start (Hnth & Hd & Hbefore).
  - destruct i; discriminate.
  - cbn [find_from]. destruct i as [| i]; cbn [nth_error] in Hnth.
    + injection Hnth as ->. rewrite Hd, Nat.add_0_r; reflexivity.
    + rewrite (Hbefore 0 x (Nat.lt_0_succ i) eq_refl); cbn [bind].
      rewrite (IH i (S start)); [ f_equal; f_equal; f_equal; lia | ].
      split; [ exact Hnth | split; [ exact Hd | ] ].
      intros k y Hk Hy; apply (Hbefore (S k) y); [ lia | exact Hy ].
Qed.

Lemma remove_same_passed (index : nat) (d : value) (start : nat) (docs : list value) :
  is_primitive d = false -> index < start -> remove_same index d start docs = docs.
Proof.
  intros Hd; revert start; induction docs as [| x rest IH]; intros start Hlt; cbn [remove_same];
    [ reflexivity | ].
  rewrite Hd. replace (start =? index)%nat with false by (symmetry; apply Nat.eqb_neq; lia).
  rewrite IH by lia; reflexivity.
Qed.

Lemma remove_same_nth (d : value) (start i : nat) (docs : list value) :
  is_primitive d = false -> remove_same (start + i) d start docs = without_nth i docs.
Proof.
  intros Hd; revert start i; induction docs as [| x rest IH]; intros start i; cbn [remove_same].
  - unfold without_nth; rewrite firstn_nil, skipn_nil; reflexivity.
  - rewrite Hd. destruct i as [| i].
    + rewrite Nat.add_0_r, Nat.eqb_refl. apply remove_same_passed; [ exact Hd | lia ].
    + replace (start =? start + S i)%nat with false by (symmetry; apply Nat.eqb_neq; lia).
      replace (start + S i) with (S start + i) by lia.
      rewrite IH; reflexivity.
Qed.

Section Deletes.

Variable host : Host.
Variable adapter : Adapter.

Lemma deleteFound_removes (message : string) (items : list value) (i : nat) (d : value)
  (st : State) (written : string) :
  is_primitive d = false ->
  serialize adapter (iv_at host st) (VArr (without_nth i items)) = Ok written ->
  deleteFound host adapter message items (Some (i, d)) st
  = (Ok tt, mkState (Some written) (counter st) (S (tick st))).
Proof.
  intros Hd Hw; unfold deleteFound.
  replace (truthy d) with true by (destruct d; try discriminate; reflexivity).
  change i with (0 + i) at 1; rewrite (remove_same_nth d 0 i items Hd), writeCollectionData_eq, Hw; reflexivity.
Qed.

(** A delete that finds its document drops that one document, the first
    in the order of the file that has the id or that matches the query,
    and writes the others in their order. *)
Theorem delete_removes_the_first_match :
  forall (st : State) (text written : string) (items : list value) (i : nat) (d : value),
    file st = Some text ->
    deserialize adapter text = Ok (VArr items) ->
    is_primitive d = false ->
    serialize adapter (iv_at host st) (VArr (without_nth i items)) = Ok written ->
    (forall _id : string,
        first_match (has_id _id) items i d ->
        deleteById host adapter _id st
        = (Ok tt, mkState (Some written) (counter st) (S (tick st))))
    /\ (forall query : value,
          first_match (fun item => matchesQuery item query) items i d ->
          deleteOne host adapter query st
          = (Ok tt, mkState (Some written) (counter st) (S (tick st)))).
Proof.
  intros st text written items i d Hfile Hparse Hd Hw; split; intros x Hfirst;
    unfold deleteById, deleteOne, bindM;
    rewrite readCollectionData_eq, Hfile, Hparse; cbn [lift as_array];
    rewrite (find_from_first _ _ _ _ 0 Hfirst); cbn [Nat.add];
    apply deleteFound_removes; assumption.
Qed.

End Deletes.

Lemma delete_removes_the_first_match_witness :
  fst (deleteById Examples.host0 Examples.plainAdapter "672614409f3ab27c0100002b"
         Examples.accounts) = Ok tt
  /\ Examples.stored Examples.plainAdapter
       (Examples.after (deleteById Examples.host0 Examples.plainAdapter
                          "672614409f3ab27c0100002b") Examples.accounts)
     = Ok (VArr (without_nth 1 Examples.account_docs))
  /\ fst (deleteOne Examples.host0 Examples.plainAdapter (VObj [("email", VStr "b@x.io")])
            Examples.accounts) = Ok tt.
Proof.
  destruct (delete_removes_the_first_match Examples.host0 Examples.plainAdapter
               Examples.accounts (Examples.content Examples.accounts)
               (Examples.content
                  (Examples.after (deleteById Examples.host0 Examples.plainAdapter
                                     "672614409f3ab27c0100002b") Examples.accounts))
               Examples.account_docs 1 (nth 1 Examples.account_docs VUndefined))
    as [Hid Hquery].
  - vm_compute; reflexivity.
  - vm_compute; reflexivity.
  - reflexivity.
  - vm_compute; reflexivity.
  - assert (Hfirst : forall accepts,
              accepts (nth 0 Examples.account_docs VUndefined) = Ok false ->
              accepts (nth 1 Examples.account_docs VUndefined) = Ok true ->
              first_match accepts Examples.account_docs 1 (nth 1 Examples.account_docs VUndefined)).
    { intros accepts H0 H1; split; [ reflexivity | split; [ exact H1 | ] ].
      intros k x Hk Hx; destruct k as [| k]; [ injection Hx as <-; exact H0 | lia ]. }
    split; [ | split ].
    + rewrite (Hid "672614409f3ab27c0100002b"); [ reflexivity | ].
      apply Hfirst; vm_compute; reflexivity.
    + unfold Examples.after at 1; rewrite (Hid "672614409f3ab27c0100002b");
        [ vm_compute; reflexivity | ].
      apply Hfirst; vm_compute; reflexivity.
    + rewrite (Hquery (VObj [("email", VStr "b@x.io")])); [ reflexivity | ].
      apply Hfirst; vm_compute; reflexivity.
Defined.

Section UpdateFailures.

Variable host : Host.
Variable adapter : Adapter.
Variable collectionPath : string.
Variable schema : Schema.

(** An update whose id no persisted document has, or whose query no
    persisted document matches, throws its not-found error, which names
    the id or the query, and the state is the one before the call. *)
Theorem failed_update_writes_nothing :
  forall (st : State) (text : string) (items : list value) (update : value),
    file st = Some text ->
    deserialize adapter text = Ok (VArr items) ->
    (forall _id : string,
        Forall (fun doc => has_id _id doc = Ok false) items ->
        updateById host adapter collectionPath schema _id update st
        = (Throw (Error ("No document matches the ID: " ++ _id)), st))
    /\ (forall query : value,
          Forall (fun doc => matchesQuery doc query = Ok false) items ->
          updateOne host adapter collectionPath schema query update st
          = (Throw (Error ("No document matches the query: "
                           ++ undefined_text (JSON.stringify query))), st)).
Proof.
  intros st text items update Hfile Hparse; split; intros x Hnone;
    unfold updateById, updateOne, bindM;
    rewrite readCollectionData_eq, Hfile, Hparse; cbn [lift as_array];
    rewrite (find_from_none _ _ _ Hnone); reflexivity.
Qed.

Lemma updateDocument_invalid (docs : list value) (docIndex : nat) (update : value) (st : State)
  (r : ValidationResponse) :
  validate schema (merged (nth docIndex docs VUndefined) update (clock host (tick st))) = Ok r ->
  status r = ERROR ->
  updateDocument host adapter collectionPath schema docs docIndex update st
  = (Throw (Error (errorMessage r)), ticked st).
Proof.
  intros Hv Hs; unfold updateDocument, bindM, now, lift, validateDocument; cbn [tick file counter].
  rewrite Hv; cbn [bind]; rewrite Hs; reflexivity.
Qed.

(** An update whose merged document the schema refuses throws the
    schema's message, and the file is as it was: the patch is validated
    together with what the document already holds. *)
Theorem invalid_update_is_rejected :
  forall (docs : list value) (docIndex : nat) (d update : value) (st : State) (text : string)
         (r : ValidationResponse),
    file st = Some text ->
    deserialize adapter text = Ok (VArr docs) ->
    validate schema (merged d update (clock host (tick st))) = Ok r ->
    status r = ERROR ->
    (forall _id : string,
        first_match (has_id _id) docs docIndex d ->
        updateById host adapter collectionPath schema _id update st
        = (Throw (Error (errorMessage r)), ticked st))
    /\ (forall query : value,
          first_match (fun item => matchesQuery item query) docs docIndex d ->
          updateOne host adapter collectionPath schema query update st
          = (Throw (Error (errorMessage r)), ticked st))
    /\ file (ticked st) = Some text.
Proof.
  intros docs docIndex d update st text r Hfile Hparse Hv Hs.
  assert (Hrun : forall accepts, first_match accepts docs docIndex d ->
            find_from accepts 0 docs = Ok (Some (docIndex, d))
            /\ updateDocument host adapter collectionPath schema docs docIndex update st
               = (Throw (Error (errorMessage r)), ticked st)).
  { intros accepts Hfirst; split; [ exact (find_from_first _ _ _ _ 0 Hfirst) | ].
    apply updateDocument_invalid; [ | exact Hs ].
    destruct Hfirst as (Hnth & _). rewrite (nth_error_nth _ _ _ Hnth); exact Hv. }
  split; [ | split; [ | exact Hfile ] ].
  - intros _id Hfirst; destruct (Hrun _ Hfirst) as [Hfound <-].
    exact (updateById_located host adapter collectionPath schema _ _ _ _ _ _ _ Hfile Hparse Hfound).
  - intros query Hfirst; destruct (Hrun _ Hfirst) as [Hfound <-].
    exact (updateOne_located host adapter collectionPath schema _ _ _ _ _ _ _ Hfile Hparse Hfound).
Qed.

(** A field declared a date that holds a string, as every Date does once
    the reference adapter has written and read it, makes every update
    that does not replace the field fail: the merged document is refused
    for it. *)
Theorem string_in_a_date_field_blocks_updates :
  forall (pre post : Schema) (key : string) (required : bool) (u : option bool)
         (items : option FieldType) (nested : option Schema)
         (docs : list value) (docIndex : nat) (props patch : list (string * value))
         (s : string) (st : State),
    schema = (pre ++ (key, mkSchemaConfig TDate required u items nested) :: post)%list ->
    nth_error docs docIndex = Some (VObj props) ->
    distinct (map fst props) = true ->
    distinct (map fst patch) = true ->
    lookup key props = Some (VStr s) ->
    lookup key patch = None ->
    key <> "updatedAt" ->
    Forall (fun kc => exists x,
                get (merged (VObj props) (VObj patch) (clock host (tick st))) (fst kc) = Ok x
                /\ conforms (snd kc) x) pre ->
    updateDocument host adapter collectionPath schema docs docIndex (VObj patch) st
    = (Throw (Error ("Property " ++ key ++ " should be of type date.")), ticked st).
Proof.
  intros pre post key required u items nested docs docIndex props patch s st
    Hschema Hnth Hd Hdp Hprops Hpatch Hkey Hpre.
  change (Error ("Property " ++ key ++ " should be of type date."))
    with (Error (errorMessage (failure ("Property " ++ key ++ " should be of type date.")))).
  apply updateDocument_invalid; [ | reflexivity ].
  rewrite (nth_error_nth _ _ _ Hnth), Hschema.
  apply (validate_first_failure pre post key _ _ (VStr s));
    [ exact Hpre | | cbn [checkField is_undefined]; rewrite andb_false_r; reflexivity ].
  unfold merged; rewrite get_VObj; unfold operand.
  rewrite lookup_set_prop_other by exact Hkey.
  rewrite (lookup_spread _ (VObj patch) key Hdp); cbn [own_props]; rewrite Hpatch.
  rewrite (lookup_spread _ (VObj props) key Hd); cbn [own_props]; rewrite Hprops; reflexivity.
Qed.

End UpdateFailures.

Lemma failed_update_writes_nothing_witness :
  updateById Examples.host0 Examples.plainAdapter Examples.path Examples.PersonSchema
    "0123456789abcdef01234567" (VObj [("name", VStr "B")]) Examples.people
  = (Throw (Error "No document matches the ID: 0123456789abcdef01234567"), Examples.people)
  /\ updateOne Examples.host0 Examples.plainAdapter Examples.path Examples.PersonSchema
       (VObj [("name", VStr "Z")]) (VObj [("name", VStr "B")]) Examples.people
     = (Throw (Error ("No document matches the query: "
                      ++ undefined_text (JSON.stringify (VObj [("name", VStr "Z")])))),
        Examples.people).
Proof.
  destruct (failed_update_writes_nothing Examples.host0 Examples.plainAdapter Examples.path
              Examples.PersonSchema Examples.people (Examples.content Examples.people)
              Examples.people_docs (VObj [("name", VStr "B")]))
    as [Hid Hquery]; [ vm_compute; reflexivity | vm_compute; reflexivity | ].
  split.
  - apply Hid. repeat constructor.
  - apply Hquery. repeat constructor.
Defined.

Lemma invalid_update_is_rejected_witness :
  updateById Examples.host0 Examples.plainAdapter Examples.path Examples.PersonSchema
    "672614409f3ab27c0100002a" (VObj [("age", VStr "thirty")]) Examples.people
  = (Throw (Error "Property age should be of type number."), ticked Examples.people).
Proof.
  refine (proj1 (invalid_update_is_rejected Examples.host0 Examples.plainAdapter Examples.path
                   Examples.PersonSchema Examples.people_docs 0
                   (nth 0 Examples.people_docs VUndefined) (VObj [("age", VStr "thirty")])
                   Examples.people (Examples.content Examples.people)
                   (failure "Property age should be of type number.") _ _ _ _)
            "672614409f3ab27c0100002a" _);
    try (vm_compute; reflexivity).
  split; [ reflexivity | split; [ vm_compute; reflexivity | intros k x Hk; lia ] ].
Defined.

Lemma string_in_a_date_field_blocks_updates_witness :
  updateDocument Examples.host0 Examples.plainAdapter Examples.path Examples.EventSchema
    Examples.event_docs 0 (VObj [("title", VStr "U")]) Examples.empty
  = (Throw (Error ("Property " ++ "day" ++ " should be of type date.")), ticked Examples.empty).
Proof.
  refine (string_in_a_date_field_blocks_updates Examples.host0 Examples.plainAdapter Examples.path
            Examples.EventSchema [("title", Examples.field TString true None)] []
            "day" true None None None Examples.event_docs 0
            [("_id", VStr "672614409f3ab27c0100002a"); ("title", VStr "T");
             ("day", VStr "2024-11-02T00:00:00.000Z");
             ("createdAt", VStr "2024-11-02T12:00:00.004Z");
             ("updatedAt", VStr "2024-11-02T12:00:00.005Z")]
            [("title", VStr "U")] "2024-11-02T00:00:00.000Z" Examples.empty
            eq_refl eq_refl eq_refl eq_refl eq_refl eq_refl _ _).
  - discriminate.
  - constructor; [ | constructor ].
    exists (VStr "U"); split; [ reflexivity | split; [ reflexivity | reflexivity ] ].
Defined.

Section InsertFailures.

Variable host : Host.
Variable adapter : Adapter.
Variable collectionPath : string.
Variable schema : Schema.

(** A batch one of whose documents the schema refuses is refused whole:
    the insert throws the message of the first such document and the
    state, the file and the counter of identifiers in it, is the one
    before the call. *)
Theorem invalid_batch_inserts_nothing :
  forall (pre post : list value) (doc : value) (r : ValidationResponse) (st : State),
    forEach (validateDocument schema) pre = Ok tt ->
    validate schema doc = Ok r ->
    status r = ERROR ->
    insertMany host adapter collectionPath schema (pre ++ doc :: post)%list st
    = (Throw (Error (errorMessage r)), st).
Proof.
  intros pre post doc r st Hpre Hv Hs.
  unfold insertMany, insertDocuments, bindM, lift.
  rewrite forEach_app, Hpre; cbn [bind forEach].
  unfold validateDocument at 1; rewrite Hv; cbn [bind]; rewrite Hs; reflexivity.
Qed.

End InsertFailures.

Lemma invalid_batch_inserts_nothing_witness :
  insertMany Examples.host0 Examples.plainAdapter Examples.path Examples.PersonSchema
    ([Examples.person "B" 40] ++ VObj [("name", VStr "C")] :: [Examples.person "D" 50])%list
    Examples.people
  = (Throw (Error "Property age is required."), Examples.people).
Proof.
  exact (invalid_batch_inserts_nothing Examples.host0 Examples.plainAdapter Examples.path
           Examples.PersonSchema [Examples.person "B" 40] [Examples.person "D" 50]
           (VObj [("name", VStr "C")]) (failure "Property age is required.") Examples.people
           eq_refl eq_refl eq_refl).
Defined.

(** ** What the reference adapter gives back *)

Lemma json_image_VArr (items : list value) :
  json_image (VArr items) = VArr (map image_element items).
Proof.
  reflexivity.
Qed.

Lemma json_image_VObj (props : list (string * value)) :
  json_image (VObj props) = VObj (flat_map image_member props).
Proof.
  cbn [json_image]; f_equal.
  induction props as [| [k x] rest IH]; [ reflexivity | ].
  cbn [flat_map]; unfold image_member at 1; cbn [fst snd]; rewrite <- IH.
  destruct (is_undefined x); reflexivity.
Qed.

Lemma stringify_VObj (props : list (string * value)) :
  JSON.stringify (VObj props) = Some ("{" ++ members_text true props).
Proof.
  reflexivity.
Qed.

Lemma stringify_VArr (items : list value) :
  JSON.stringify (VArr items) = Some (text (VArr items)).
Proof.
  reflexivity.
Qed.

Lemma text_VArr_elements (l l' : list value) :
  Forall2 (fun a b => text a = text b) l l' -> text (VArr l) = text (VArr l').
Proof.
  intros H; destruct H as [| a b l l' Hab Hl]; [ reflexivity | ].
  rewrite !text_VArr_cons, Hab; do 2 f_equal.
  induction Hl as [| x y l l' Hxy _ IH]; [ reflexivity | ].
  cbn [elements_tail]; rewrite Hxy, IH; reflexivity.
Qed.

Lemma stringify_defined (v : value) :
  is_undefined v = false -> exists s, JSON.stringify v = Some s.
Proof.
  destruct v as [| | [] | | | | |]; try discriminate; intros _; cbn [JSON.stringify]; eauto.
Qed.

Lemma image_keys (props : list (string * value)) (k : string) :
  In k (map fst (flat_map image_member props)) -> In k (map fst props).
Proof.
  induction props as [| [k' x] rest IH]; [ intros [] | ].
  cbn [flat_map]; unfold image_member at 1; cbn [fst snd].
  destruct (is_undefined x); cbn [List.app map fst]; intros H.
  - right; exact (IH H).
  - destruct H as [H | H]; [ left; exact H | right; exact (IH H) ].
Qed.

Lemma image_keys_distinct (props : list (string * value)) :
  distinct (map fst props) = true -> distinct (map fst (flat_map image_member props)) = true.
Proof.
  induction props as [| [k x] rest IH]; [ reflexivity | ].
  cbn [map fst distinct]; intros H; apply andb_true_iff in H as [Hfresh Hd].
  cbn [flat_map]; unfold image_member at 1; cbn [fst snd].
  destruct (is_undefined x); cbn [List.app map fst distinct]; [ exact (IH Hd) | ].
  rewrite (IH Hd), andb_true_r.
  apply negb_true_iff in Hfresh; apply negb_true_iff.
  destruct (existsb (String.eqb k) (map fst (flat_map image_member rest))) eqn:E; [ | reflexivity ].
  apply existsb_eqb_In, image_keys, existsb_eqb_In in E. congruence.
Qed.

(** The image is a JSON value, written as the value itself is. *)
Lemma json_image_text (v : value) :
  well_formed v = true -> is_undefined v = false ->
  JSON.json_value (json_image v) = true /\ JSON.stringify (json_image v) = JSON.stringify v.
Proof.
  induction v as [| | b | n | s | ms | items IH | props IH] using value_induction;
    intros Hwf Hdef; try discriminate; try (split; reflexivity).
  - rewrite well_formed_VArr in Hwf. rewrite json_image_VArr, json_value_VArr. clear Hdef.
    assert (H : forallb JSON.json_value (map image_element items) = true
                /\ Forall2 (fun a b => text a = text b) (map image_element items) items).
    { induction IH as [| x l Hx _ IHl]; [ split; [ reflexivity | constructor ] | ].
      cbn [forallb] in Hwf; apply andb_true_iff in Hwf as [Hwx Hwl].
      destruct (IHl Hwl) as [Hj Ht]. cbn [map forallb]; unfold image_element at 1 3.
      destruct (is_undefined x) eqn:Hu.
      - split; [ exact Hj | constructor; [ destruct x; try discriminate; reflexivity | exact Ht ] ].
      - destruct (Hx Hwx eq_refl) as [Hjx Hsx].
        split; [ rewrite Hjx; exact Hj | constructor; [ unfold text; rewrite Hsx; reflexivity | exact Ht ] ]. }
    destruct H as [Hj Ht]; split; [ exact Hj | ].
    rewrite !stringify_VArr, (text_VArr_elements _ _ Ht); reflexivity.
  - rewrite well_formed_VObj in Hwf; apply andb_true_iff in Hwf as [Hd Hwf].
    rewrite json_image_VObj, json_value_VObj, (image_keys_distinct props Hd), andb_true_l.
    rewrite !stringify_VObj.
    assert (H : forallb (fun kv => JSON.json_value (snd kv)) (flat_map image_member props) = true
                /\ forall first, members_text first (flat_map image_member props)
                                 = members_text first props).
    { clear Hd Hdef. induction IH as [| [k x] l Hx _ IHl]; [ split; reflexivity | ].
      cbn [forallb snd] in Hwf, Hx; apply andb_true_iff in Hwf as [Hwx Hwl].
      destruct (IHl Hwl) as [Hj Ht]. cbn [flat_map]; unfold image_member at 1 3; cbn [fst snd].
      destruct (is_undefined x) eqn:Hu.
      - cbn [List.app]; split; [ exact Hj | ].
        intros first; cbn [members_text]. destruct x; try discriminate. cbn [JSON.stringify]. apply Ht.
      - destruct (Hx Hwx eq_refl) as [Hjx Hsx].
        cbn [List.app forallb snd]; split; [ rewrite Hjx; exact Hj | ].
        intros first; cbn [members_text]; rewrite Hsx.
        destruct (JSON.stringify x); [ rewrite Ht; reflexivity | apply Ht ]. }
    destruct H as [Hj Ht]; split; [ exact Hj | rewrite Ht; reflexivity ].
Qed.

(** [JSON.parse(JSON.stringify(v))] for a value whose objects have
    distinct keys. *)
Lemma parse_stringify_image (v : value) :
  well_formed v = true -> is_undefined v = false ->
  exists s, JSON.stringify v = Some s /\ JSON.parse s = Ok (json_image v).
Proof.
  intros Hwf Hdef. destruct (json_image_text v Hwf Hdef) as [Hj Hs].
  destruct (parse_stringify (json_image v) Hj) as (s & Hs' & Hp).
  exists s; split; [ rewrite <- Hs; exact Hs' | exact Hp ].
Qed.

Lemma length_iv_at (host : Host) (st : State) : List.length (iv_at host st) = 16.
Proof.
  unfold iv_at. rewrite length_firstn, length_app, repeat_length. lia.
Qed.

Lemma json_value_well_formed (v : value) : JSON.json_value v = true -> well_formed v = true.
Proof.
  induction v as [| | b | n | s | ms | items IH | props IH] using value_induction;
    intros Hj; try reflexivity.
  - rewrite json_value_VArr in Hj; rewrite well_formed_VArr.
    induction IH as [| x l Hx _ IHl]; [ reflexivity | ].
    cbn [forallb] in Hj |- *; apply andb_true_iff in Hj as [Hjx Hjl].
    rewrite (Hx Hjx), (IHl Hjl); reflexivity.
  - rewrite json_value_VObj in Hj; rewrite well_formed_VObj.
    apply andb_true_iff in Hj as [Hd Hj]; rewrite Hd, andb_true_l; clear Hd.
    induction IH as [| [k x] l Hx _ IHl]; [ reflexivity | ].
    cbn [forallb snd] in Hj, Hx |- *; apply andb_true_iff in Hj as [Hjx Hjl].
    rewrite (Hx Hjx), (IHl Hjl); reflexivity.
Qed.

(** The image of a JSON value is the value. *)
Lemma json_image_fixed (v : value) : JSON.json_value v = true -> json_image v = v.
Proof.
  induction v as [| | b | n | s | ms | items IH | props IH] using value_induction;
    intros Hj; try reflexivity; try discriminate.
  - rewrite json_value_VArr in Hj; rewrite json_image_VArr; f_equal.
    induction IH as [| x l Hx _ IHl]; [ reflexivity | ].
    cbn [forallb] in Hj; apply andb_true_iff in Hj as [Hjx Hjl].
    cbn [map]; rewrite (IHl Hjl); f_equal.
    unfold image_element; destruct x; try discriminate; apply (Hx Hjx).
  - rewrite json_value_VObj in Hj; rewrite json_image_VObj; f_equal.
    apply andb_true_iff in Hj as [_ Hj].
    induction IH as [| [k x] l Hx _ IHl]; [ reflexivity | ].
    cbn [forallb snd] in Hj, Hx; apply andb_true_iff in Hj as [Hjx Hjl].
    cbn [flat_map]; rewrite (IHl Hjl); unfold image_member; cbn [fst snd].
    destruct x; try discriminate; cbn [is_undefined List.app]; rewrite (Hx Hjx); reflexivity.
Qed.

Section AdapterImage.

Variable scryptSync : string -> string -> nat -> Buffer.
Variable aes256_block : Buffer -> Buffer -> Buffer.

Lemma json_adapter_image (encryptionInfo : option JsonAdapter.Options) (iv : Buffer)
  (data : value) :
  well_formed data = true ->
  negb (typeof data =? "object") || is_null data = false ->
  List.length iv = 16 ->
  exists persisted : string,
    serialize (JsonAdapter.new scryptSync aes256_block encryptionInfo) iv data = Ok persisted
    /\ deserialize (JsonAdapter.new scryptSync aes256_block encryptionInfo) persisted
       = Ok (json_image data).
Proof.
  intros Hwf Hobj Hiv.
  assert (Hdef : is_undefined data = false) by (destruct data; try discriminate; reflexivity).
  destruct (parse_stringify_image data Hwf Hdef) as (s & Hs & Hparse).
  cbn [JsonAdapter.new serialize deserialize].
  unfold JsonAdapter.serialize, JsonAdapter.deserialize.
  rewrite Hobj, Hs.
  destruct (JsonAdapter.secretKey encryptionInfo) as [k |]; [ destruct (negb (k =? "")) | ].
  - destruct (decrypt_encrypt scryptSync aes256_block iv s k Hiv) as (encrypted & Henc & Hdec).
    exists encrypted; rewrite Henc, Hdec; cbn [JsonAdapter.wrap bind]; split;
      [ reflexivity | exact Hparse ].
  - exists s; split; [ reflexivity | exact Hparse ].
  - exists s; split; [ reflexivity | exact Hparse ].
Qed.

(** What the reference adapter gives back, with or without credentials,
    for an object, an array or a Date whose objects have distinct keys
    and whose numbers are safe integers: its JSON image, which is a JSON
    value, and is the data when the data is a JSON value. *)
Theorem json_adapter_gives_back_the_json_image :
  forall (encryptionInfo : option JsonAdapter.Options) (iv : Buffer) (data : value),
    well_formed data = true ->
    safe_integers data = true ->
    negb (typeof data =? "object") || is_null data = false ->
    List.length iv = 16 ->
    (exists persisted : string,
        serialize (JsonAdapter.new scryptSync aes256_block encryptionInfo) iv data = Ok persisted
        /\ deserialize (JsonAdapter.new scryptSync aes256_block encryptionInfo) persisted
           = Ok (json_image data))
    /\ JSON.json_value (json_image data) = true
    /\ (JSON.json_value data = true -> json_image data = data).
Proof.
  intros encryptionInfo iv data Hwf _ Hobj Hiv.
  split; [ exact (json_adapter_image encryptionInfo iv data Hwf Hobj Hiv) | split ].
  - apply json_image_text; [ exact Hwf | destruct data; try discriminate; reflexivity ].
  - apply json_image_fixed.
Qed.

End AdapterImage.

Lemma json_adapter_gives_back_the_json_image_witness :
  (exists persisted : string,
      serialize Examples.secureAdapter Examples.iv0
        (VArr [Examples.fresh; VObj [("name", VStr "A"); ("nick", VUndefined)]]) = Ok persisted
      /\ deserialize Examples.secureAdapter persisted
         = Ok (json_image (VArr [Examples.fresh; VObj [("name", VStr "A"); ("nick", VUndefined)]])))
  /\ json_image (VArr [Examples.fresh; VObj [("name", VStr "A"); ("nick", VUndefined)]])
     = VArr [Examples.reread; VObj [("name", VStr "A")]].
Proof.
  split; [ | vm_compute; reflexivity ].
  exact (proj1 (json_adapter_gives_back_the_json_image Examples.toy_scrypt Examples.toy_block
                  (Some Examples.credentials) Examples.iv0
                  (VArr [Examples.fresh; VObj [("name", VStr "A"); ("nick", VUndefined)]])
                  eq_refl eq_refl eq_refl eq_refl)).
Defined.

(** ** An insert, then a lookup *)

(** The keys of an object after a property is written. *)
Lemma set_prop_keys (acc : list (string * value)) (k : string) (v : value) :
  map fst (set_prop acc k v)
  = if existsb (String.eqb k) (map fst acc) then map fst acc else (map fst acc ++ [k])%list.
Proof.
  induction acc as [| [k' v'] rest IH]; cbn [set_prop map fst existsb]; [ reflexivity | ].
  rewrite (String.eqb_sym k k').
  destruct (k' =? k) eqn:E; cbn [map fst orb]; [ reflexivity | ].
  rewrite IH; destruct (existsb (String.eqb k) (map fst rest)); reflexivity.
Qed.

Lemma distinct_snoc (keys : list string) (k : string) :
  distinct keys = true -> existsb (String.eqb k) keys = false -> distinct (keys ++ [k]) = true.
Proof.
  induction keys as [| k' rest IH]; cbn [distinct List.app existsb]; [ reflexivity | ].
  intros Hd Hk; apply andb_true_iff in Hd as [Hfresh Hd]. apply orb_false_iff in Hk as [Hk' Hk].
  rewrite (IH Hd Hk), andb_true_r, existsb_app; cbn [existsb].
  apply negb_true_iff in Hfresh; rewrite Hfresh, (String.eqb_sym k' k), Hk'; reflexivity.
Qed.

Lemma set_prop_distinct (acc : list (string * value)) (k : string) (v : value) :
  distinct (map fst acc) = true -> distinct (map fst (set_prop acc k v)) = true.
Proof.
  intros Hd; rewrite set_prop_keys.
  destruct (existsb (String.eqb k) (map fst acc)) eqn:E; [ exact Hd | ].
  apply distinct_snoc; assumption.
Qed.

Lemma set_prop_values (acc : list (string * value)) (k : string) (v : value) :
  forallb (fun kv => well_formed (snd kv)) acc = true -> well_formed v = true ->
  forallb (fun kv => well_formed (snd kv)) (set_prop acc k v) = true.
Proof.
  intros Hacc Hv; induction acc as [| [k' v'] rest IH]; cbn [set_prop forallb snd].
  - rewrite Hv; reflexivity.
  - cbn [forallb snd] in Hacc; apply andb_true_iff in Hacc as [Hv' Hrest].
    destruct (k' =? k); cbn [forallb snd]; [ rewrite Hv, Hrest | rewrite Hv', (IH Hrest) ];
      reflexivity.
Qed.

Lemma set_prop_well_formed (acc : list (string * value)) (k : string) (v : value) :
  well_formed (VObj acc) = true -> well_formed v = true ->
  well_formed (VObj (set_prop acc k v)) = true.
Proof.
  rewrite !well_formed_VObj; intros H Hv; apply andb_true_iff in H as [Hd Hvals].
  rewrite (set_prop_distinct _ _ _ Hd), (set_prop_values _ _ _ Hvals Hv); reflexivity.
Qed.

Lemma spread_well_formed (base src : list (string * value)) :
  well_formed (VObj base) = true ->
  forallb (fun kv => well_formed (snd kv)) src = true ->
  well_formed (VObj (fold_left (fun acc kv => set_prop acc (fst kv) (snd kv)) src base)) = true.
Proof.
  revert base; induction src as [| [k v] rest IH]; intros base Hbase Hsrc; cbn [fold_left];
    [ exact Hbase | ].
  cbn [forallb snd] in Hsrc; apply andb_true_iff in Hsrc as [Hv Hrest].
  apply IH; [ apply set_prop_well_formed; assumption | exact Hrest ].
Qed.



(** The property of an image under a key. *)
Lemma lookup_image (props : list (string * value)) (k : string) :
  distinct (map fst props) = true ->
  lookup k (flat_map image_member props)
  = match lookup k props with
    | Some x => if is_undefined x then None else Some (json_image x)
    | None => None
    end.
Proof.
  induction props as [| [k' x] rest IH]; [ reflexivity | ].
  cbn [map fst distinct]; intros H; apply andb_true_iff in H as [Hfresh Hd].
  cbn [flat_map lookup]; unfold image_member at 1; cbn [fst snd].
  destruct (k' =? k) eqn:E.
  - apply String.eqb_eq in E; subst k'.
    destruct (is_undefined x); cbn [List.app lookup]; [ | rewrite String.eqb_refl; reflexivity ].
    rewrite (IH Hd), lookup_None_not_In; [ reflexivity | ].
    intros Hin; apply existsb_eqb_In in Hin; rewrite Hin in Hfresh; discriminate.
  - destruct (is_undefined x); cbn [List.app lookup]; [ | rewrite E ]; exact (IH Hd).
Qed.


Section InsertThenFind.

Variable scryptSync : string -> string -> nat -> Buffer.
Variable aes256_block : Buffer -> Buffer -> Buffer.
Variable encryptionInfo : option JsonAdapter.Options.
Variable host : Host.
Variable collectionPath : string.
Variable schema : Schema.


(** A collection constructed where there is no file is empty: the file
    then holds what the reference adapter reads as the empty sequence,
    and no identifier is found in it; where there is a file, the
    constructor leaves it as it is, whatever it holds. *)
Theorem constructor_creates_only_a_missing_file :
  (forall (st : State) (text : string),
      file st = Some text ->
      construct host (JsonAdapter.new scryptSync aes256_block encryptionInfo) st
      = (Ok tt, mkState (Some text) (random_counter host (tick st)) (S (tick st))))
  /\ (forall st : State,
        file st = None ->
        exists persisted,
          construct host (JsonAdapter.new scryptSync aes256_block encryptionInfo) st
          = (Ok tt, mkState (Some persisted) (random_counter host (tick st)) (S (S (tick st))))
          /\ deserialize (JsonAdapter.new scryptSync aes256_block encryptionInfo) persisted
             = Ok (VArr [])
          /\ forall _id,
               fst (findById (JsonAdapter.new scryptSync aes256_block encryptionInfo) _id
                      (mkState (Some persisted) (random_counter host (tick st)) (S (S (tick st)))))
               = Ok VUndefined).
Proof.
  split.
  - intros st text Hfile; unfold construct, initializeCollection; cbn [file]; rewrite Hfile.
    reflexivity.
  - intros st Hfile.
    set (adapter := JsonAdapter.new scryptSync aes256_block encryptionInfo).
    set (st1 := mkState (file st) (random_counter host (tick st)) (S (tick st))).
    destruct (json_adapter_image scryptSync aes256_block encryptionInfo
                (iv_at host st1) (VArr []) eq_refl eq_refl (length_iv_at _ _))
      as (persisted & Hser & Hdes).
    fold adapter in Hser, Hdes. exists persisted; split; [ | split ].
    + unfold construct, initializeCollection; fold st1; cbn [file st1]; rewrite Hfile.
      rewrite writeCollectionData_eq, Hser; reflexivity.
    + exact Hdes.
    + intros _id; unfold findById, bindM; rewrite readCollectionData_eq; cbn [file].
      rewrite Hdes; reflexivity.
Qed.

End InsertThenFind.


Lemma constructor_creates_only_a_missing_file_witness :
  exists persisted,
    construct Examples.host0 Examples.secureAdapter Examples.nothing
    = (Ok tt, mkState (Some persisted)
                (random_counter Examples.host0 (tick Examples.nothing))
                (S (S (tick Examples.nothing))))
    /\ deserialize Examples.secureAdapter persisted = Ok (VArr [])
    /\ forall _id,
         fst (findById Examples.secureAdapter _id
                (mkState (Some persisted)
                   (random_counter Examples.host0 (tick Examples.nothing))
                   (S (S (tick Examples.nothing)))))
         = Ok VUndefined.
Proof.
  exact (proj2 (constructor_creates_only_a_missing_file Examples.toy_scrypt Examples.toy_block
                  (Some Examples.credentials) Examples.host0)
           Examples.nothing eq_refl).
Defined.

(** ** An update, then a lookup *)

Lemma merged_well_formed (props patch : list (string * value)) (t : Z) :
  well_formed (VObj props) = true -> well_formed (VObj patch) = true ->
  well_formed (merged (VObj props) (VObj patch) t) = true.
Proof.
  intros Hprops Hpatch; unfold merged.
  apply set_prop_well_formed; [ | reflexivity ].
  rewrite well_formed_VObj in Hprops, Hpatch.
  apply andb_true_iff in Hprops as [_ Hprops]; apply andb_true_iff in Hpatch as [_ Hpatch].
  unfold spread; cbn [own_props].
  apply spread_well_formed; [ | exact Hpatch ].
  apply spread_well_formed; [ reflexivity | exact Hprops ].
Qed.

Lemma assign_well_formed (docs : list value) (i : nat) (d : value) :
  forallb well_formed docs = true -> well_formed d = true ->
  forallb well_formed (assign docs i d) = true.
Proof.
  revert i; induction docs as [| x rest IH]; intros i Hdocs Hd; [ reflexivity | ].
  cbn [forallb] in Hdocs; apply andb_true_iff in Hdocs as [Hx Hrest].
  destruct i as [| i]; cbn [assign forallb]; [ rewrite Hd, Hrest | rewrite Hx, (IH i Hrest Hd) ];
    reflexivity.
Qed.

(** The documents read back after position [i] took the document [d]:
    the first that [accepts] answers true for is the image of [d], at
    [i], when it was at [i] before and [accepts] answers true for the
    image. *)
Lemma first_match_assign (accepts : value -> result bool) (docs : list value) (i : nat)
  (old d : value) :
  forallb JSON.json_value docs = true ->
  first_match accepts docs i old ->
  is_undefined d = false ->
  accepts (json_image d) = Ok true ->
  first_match accepts (map image_element (assign docs i d)) i (json_image d).
Proof.
  revert i; induction docs as [| x rest IH]; intros i Hjson (Hnth & Hold & Hbefore) Hd Hacc.
  - destruct i; discriminate.
  - cbn [forallb] in Hjson; apply andb_true_iff in Hjson as [Hx Hrest].
    destruct i as [| i]; cbn [assign map nth_error].
    + split; [ unfold image_element; rewrite Hd; reflexivity | split; [ exact Hacc | ] ].
      intros k y Hk; lia.
    + cbn [nth_error] in Hnth.
      destruct (IH i Hrest) as (Hnth' & _ & Hbefore'); try assumption.
      { split; [ exact Hnth | split; [ exact Hold | ] ].
        intros k y Hk Hy; apply (Hbefore (S k) y); [ lia | exact Hy ]. }
      split; [ exact Hnth' | split; [ exact Hacc | ] ].
      intros k y Hk Hy; destruct k as [| k]; cbn [nth_error] in Hy.
      * injection Hy as <-. unfold image_element.
        replace (is_undefined x) with false by (destruct x; try discriminate; reflexivity).
        rewrite (json_image_fixed x Hx). apply (Hbefore 0 x); [ lia | reflexivity ].
      * apply (Hbefore' k y); [ lia | exact Hy ].
Qed.

Section UpdateThenFind.

Variable scryptSync : string -> string -> nat -> Buffer.
Variable aes256_block : Buffer -> Buffer -> Buffer.
Variable encryptionInfo : option JsonAdapter.Options.
Variable host : Host.
Variable collectionPath : string.
Variable schema : Schema.

(** What a successful update that found a change did. *)
Lemma updateDocument_changed (adapter : Adapter) (docs : list value) (docIndex : nat)
  (update : value) (st st' : State) :
  updateDocument host adapter collectionPath schema docs docIndex update st = (Ok tt, st') ->
  deepEqual (nth docIndex docs VUndefined)
    (merged (nth docIndex docs VUndefined) update (clock host (tick st))) = false ->
  exists written,
    serialize adapter (iv_at host (ticked st))
      (VArr (assign docs docIndex
               (merged (nth docIndex docs VUndefined) update (clock host (tick st)))))
    = Ok written
    /\ st' = mkState (Some written) (counter st) (S (S (tick st))).
Proof.
  intros Hrun Hdeep; revert Hrun.
  unfold updateDocument, bindM, now, lift; cbn [tick file counter].
  destruct (validateDocument schema _) as [[] |]; [ | discriminate ].
  destruct (forEach _ (getUniqueFields schema)) as [[] |]; [ | discriminate ].
  destruct (forEach _ (getUniqueFields schema)) as [[] |]; [ | discriminate ].
  rewrite Hdeep, writeCollectionData_eq; cbn [tick file counter ticked].
  destruct (serialize adapter _ _) as [written |] eqn:Hw; [ | discriminate ].
  intros H; injection H as <-; exists written; split; reflexivity.
Qed.

(** With the reference adapter, [findById] after an update by the same
    identifier gives the updated document back: the JSON image of the
    persisted document with the patch over it and the new [updatedAt].
    The patch leaves [_id] alone, and the update changes something, as
    every update of a document that the adapter read does. *)
Theorem findById_returns_the_updated_document :
  forall (docs : list value) (docIndex : nat) (props patch : list (string * value))
         (_id : string) (st st' : State) (text : string),
    file st = Some text ->
    deserialize (JsonAdapter.new scryptSync aes256_block encryptionInfo) text = Ok (VArr docs) ->
    JSON.json_value (VArr docs) = true ->
    first_match (has_id _id) docs docIndex (VObj props) ->
    well_formed (VObj patch) = true ->
    lookup "_id" patch = None ->
    deepEqual (VObj props) (merged (VObj props) (VObj patch) (clock host (tick st))) = false ->
    updateById host (JsonAdapter.new scryptSync aes256_block encryptionInfo) collectionPath schema
      _id (VObj patch) st = (Ok tt, st') ->
    findById (JsonAdapter.new scryptSync aes256_block encryptionInfo) _id st'
    = (Ok (json_image (merged (VObj props) (VObj patch) (clock host (tick st)))), st').
Proof.
  intros docs docIndex props patch _id st st' text Hfile Hparse Hjson Hfirst Hpatch Hid Hdeep Hrun.
  set (adapter := JsonAdapter.new scryptSync aes256_block encryptionInfo) in *.
  set (t := clock host (tick st)) in *.
  pose proof Hfirst as (Hnth & Hhas & _).
  rewrite (updateById_located host adapter collectionPath schema _ _ _ _ _ _ _ Hfile Hparse
             (find_from_first _ _ _ _ 0 Hfirst)) in Hrun.
  destruct (updateDocument_changed adapter docs docIndex (VObj patch) st st' Hrun)
    as (written & Hwritten & ->).
  { rewrite (nth_error_nth _ _ _ Hnth); exact Hdeep. }
  rewrite (nth_error_nth _ _ _ Hnth) in Hwritten; fold t in Hwritten.
  rewrite json_value_VArr in Hjson.
  assert (Hprops : well_formed (VObj props) = true).
  { apply json_value_well_formed. rewrite forallb_forall in Hjson.
    apply Hjson. exact (nth_error_In _ _ Hnth). }
  assert (Hall : well_formed (VArr (assign docs docIndex (merged (VObj props) (VObj patch) t)))
                 = true).
  { rewrite well_formed_VArr. apply assign_well_formed.
    - rewrite <- well_formed_VArr. apply json_value_well_formed.
      rewrite json_value_VArr; exact Hjson.
    - apply merged_well_formed; assumption. }
  destruct (json_adapter_image scryptSync aes256_block encryptionInfo
              (iv_at host (ticked st)) _ Hall eq_refl (length_iv_at _ _))
    as (persisted & Hser & Hdes).
  fold adapter in Hser, Hdes. rewrite Hwritten in Hser; injection Hser as <-.
  unfold findById, bindM. rewrite readCollectionData_eq; cbn [file].
  rewrite Hdes, json_image_VArr; cbn [lift as_array].
  rewrite (find_from_first (has_id _id) _ docIndex
             (json_image (merged (VObj props) (VObj patch) t)) 0); [ reflexivity | ].
  apply (first_match_assign _ _ _ (VObj props)); [ exact Hjson | exact Hfirst | reflexivity | ].
  pose proof Hprops as Hd; rewrite well_formed_VObj in Hd; apply andb_true_iff in Hd as [Hd _].
  pose proof Hpatch as Hdp; rewrite well_formed_VObj in Hdp; apply andb_true_iff in Hdp as [Hdp _].
  pose proof (merged_well_formed props patch t Hprops Hpatch) as Hm.
  unfold merged in Hm |- *. rewrite well_formed_VObj in Hm; apply andb_true_iff in Hm as [Hmd _].
  unfold has_id in Hhas |- *. rewrite get_VObj in Hhas; unfold operand in Hhas.
  rewrite json_image_VObj, get_VObj; unfold operand.
  rewrite (lookup_image _ "_id" Hmd).
  rewrite lookup_set_prop_other by discriminate.
  rewrite (lookup_spread _ (VObj patch) "_id" Hdp); cbn [own_props]; rewrite Hid.
  rewrite (lookup_spread _ (VObj props) "_id" Hd); cbn [own_props lookup].
  destruct (lookup "_id" props) as [v |]; cbn [bind] in Hhas |- *; [ | discriminate Hhas ].
  destruct v; try discriminate Hhas; exact Hhas.
Qed.

End UpdateThenFind.

Lemma findById_returns_the_updated_document_witness :
  findById Examples.plainAdapter "672614409f3ab27c0100002a"
    (Examples.after (updateById Examples.host0 Examples.plainAdapter Examples.path
                       Examples.PersonSchema "672614409f3ab27c0100002a"
                       (VObj [("name", VStr "B")])) Examples.people)
  = (Ok (json_image (merged (nth 0 Examples.people_docs VUndefined) (VObj [("name", VStr "B")])
                       (clock Examples.host0 (tick Examples.people)))),
     Examples.after (updateById Examples.host0 Examples.plainAdapter Examples.path
                       Examples.PersonSchema "672614409f3ab27c0100002a"
                       (VObj [("name", VStr "B")])) Examples.people).
Proof.
  apply (findById_returns_the_updated_document Examples.toy_scrypt Examples.toy_block None
           Examples.host0 Examples.path Examples.PersonSchema Examples.people_docs 0
           [("_id", VStr "672614409f3ab27c0100002a"); ("name", VStr "A"); ("age", VNum 30);
            ("createdAt", VStr "2024-11-02T12:00:00.004Z");
            ("updatedAt", VStr "2024-11-02T12:00:00.005Z")]
           [("name", VStr "B")] "672614409f3ab27c0100002a" Examples.people
           (Examples.after (updateById Examples.host0 Examples.plainAdapter Examples.path
                              Examples.PersonSchema "672614409f3ab27c0100002a"
                              (VObj [("name", VStr "B")])) Examples.people)
           (Examples.content Examples.people)).
  - vm_compute; reflexivity.
  - vm_compute; reflexivity.
  - vm_compute; reflexivity.
  - split; [ reflexivity | split; [ vm_compute; reflexivity | intros k x Hk; lia ] ].
  - vm_compute; reflexivity.
  - reflexivity.
  - vm_compute; reflexivity.
  - vm_compute; reflexivity.
Defined.

(** ** Paths and collection names *)

Lemma string_rev_onto_append (s acc : string) : string_rev_onto s acc = string_rev s ++ acc.
Proof.
  unfold string_rev; revert acc; induction s as [| c s IH]; intros acc; cbn [string_rev_onto];
    [ reflexivity | ].
  rewrite (IH (String c acc)), (IH (String c "")), append_assoc; reflexivity.
Qed.

Lemma string_rev_onto_empty (s acc : string) : string_rev_onto s acc = "" -> s = "" /\ acc = "".
Proof.
  revert acc; induction s as [| c s IH]; intros acc; cbn [string_rev_onto]; [ auto | ].
  intros H; destruct (IH _ H) as [_ Habs]; discriminate.
Qed.

Lemma basename_from_plain (file piece last : string) :
  occurs "/" file = false ->
  basename_from file piece last
  = string_rev (match string_rev_onto file piece with
                | EmptyString => last
                | String _ _ as p => p
                end).
Proof.
  revert piece; induction file as [| c rest IH]; intros piece; cbn [occurs basename_from string_rev_onto].
  - intros _; destruct piece; reflexivity.
  - intros H; apply orb_false_iff in H as [Hc Hrest]; rewrite Hc. apply IH; exact Hrest.
Qed.

Lemma basename_from_dir (dir file piece last : string) :
  exists last', basename_from (dir ++ String "/" file) piece last = basename_from file "" last'.
Proof.
  revert piece last; induction dir as [| c rest IH]; intros piece last; cbn [append basename_from].
  - change (Ascii.eqb "/" "/") with true; cbv iota; eauto.
  - destruct (Ascii.eqb c "/"); apply IH.
Qed.

(** The last segment of a path is its base name. *)
Lemma basename_join (dir file : string) :
  occurs "/" file = false -> file <> "" -> basename (dir ++ "/" ++ file) = file.
Proof.
  intros Hslash Hfile; unfold basename; cbn [append].
  destruct (basename_from_dir dir file "" "") as [last' ->].
  rewrite (basename_from_plain file "" last' Hslash).
  destruct (string_rev_onto file "") eqn:E.
  - apply string_rev_onto_empty in E as [E _]; congruence.
  - rewrite <- E. fold (string_rev file). apply string_rev_involutive.
Qed.

Lemma before_first_absent (sep s : string) :
  is_substring sep s = false -> before_first sep s = s.
Proof.
  induction s as [| c rest IH]; cbn [is_substring before_first]; intros H.
  - apply orb_false_iff in H as [-> _]; reflexivity.
  - apply orb_false_iff in H as [-> H]; rewrite (IH H); reflexivity.
Qed.

Lemma vdb_no_overlap (s tail : string) :
  is_prefix ".vdb" s = false -> s <> "" -> is_prefix ".vdb" (s ++ ".vdb" ++ tail) = false.
Proof.
  intros H Hs.
  destruct s as [| c1 [| c2 [| c3 [| c4 rest]]]]; [ congruence | | | | ]; cbn in H |- *.
  - rewrite !andb_false_r; reflexivity.
  - rewrite !andb_false_r; reflexivity.
  - rewrite !andb_false_r; reflexivity.
  - exact H.
Qed.

Lemma before_first_vdb (name tail : string) :
  is_substring ".vdb" name = false -> before_first ".vdb" (name ++ ".vdb" ++ tail) = name.
Proof.
  induction name as [| c rest IH]; intros H.
  - reflexivity.
  - cbn [is_substring] in H; apply orb_false_iff in H as [Hp H].
    change ((String c rest) ++ ".vdb" ++ tail) with (String c (rest ++ ".vdb" ++ tail)).
    cbn [before_first].
    change (String c (rest ++ ".vdb" ++ tail)) with ((String c rest) ++ ".vdb" ++ tail).
    rewrite (vdb_no_overlap (String c rest) tail Hp) by discriminate.
    rewrite (IH H); reflexivity.
Qed.

Lemma occurs_append (c : ascii) (a b : string) :
  occurs c a = false -> occurs c b = false -> occurs c (a ++ b) = false.
Proof.
  intros Ha Hb; induction a as [| x a IH]; cbn [append occurs] in *; [ exact Hb | ].
  apply orb_false_iff in Ha as [-> Ha]; exact (IH Ha).
Qed.

(** The collection name of a file in a directory. *)
Lemma getCollectionName_file (dir file : string) :
  occurs "/" file = false -> file <> "" ->
  getCollectionName (dir ++ "/" ++ file) = before_first ".vdb" file.
Proof.
  intros Hslash Hfile; unfold getCollectionName; rewrite basename_join by assumption.
  reflexivity.
Qed.

(** The name that the duplicate-key error gives the collection is the
    base name of the file up to its first ".vdb": the name a collection
    was created under when the file is [name.vdb]; the file's whole base
    name, extension included, when ".vdb" does not occur in it. *)
Theorem collection_name_is_read_off_the_path :
  forall (dir name : string),
    occurs "/" name = false ->
    (is_substring ".vdb" name = false -> getCollectionName (dir ++ "/" ++ name ++ ".vdb") = name)
    /\ (forall ext : string,
          occurs "/" ext = false ->
          is_substring ".vdb" (name ++ "." ++ ext) = false ->
          getCollectionName (dir ++ "/" ++ name ++ "." ++ ext) = name ++ "." ++ ext).
Proof.
  intros dir name Hname; split.
  - intros Hvdb. rewrite getCollectionName_file.
    + rewrite <- (append_empty (name ++ ".vdb")), append_assoc. apply before_first_vdb; exact Hvdb.
    + apply occurs_append; [ exact Hname | reflexivity ].
    + destruct name; discriminate.
  - intros ext Hext Hvdb. rewrite getCollectionName_file.
    + apply before_first_absent; exact Hvdb.
    + apply occurs_append; [ exact Hname | cbn [append occurs]; exact Hext ].
    + destruct name; discriminate.
Qed.

Lemma collection_name_is_read_off_the_path_witness :
  getCollectionName ("database" ++ "/" ++ "User" ++ ".vdb") = "User"
  /\ getCollectionName ("database" ++ "/" ++ "User" ++ "." ++ "json") = "User" ++ "." ++ "json".
Proof.
  destruct (collection_name_is_read_off_the_path "database" "User" eq_refl) as [Hvdb Hother].
  split; [ exact (Hvdb eq_refl) | exact (Hother "json" eq_refl eq_refl) ].
Defined.

(** A database names its collections after their files: with the
    extension "vdb", which is the one of a database that is given none,
    an empty one, "vdb" or ".vdb", a collection created under a name
    has that name; with another extension, the name with the extension.
    The directory and the file name are joined by a slash. *)
Theorem database_names_its_collections :
  forall (join : string -> string -> string) (options : Database.IDatabaseOptions)
         (name : string),
    occurs "/" name = false ->
    join (Database.dbDirLocation options) (name ++ "." ++ Database.dbExt options)
    = Database.dbDirLocation options ++ "/" ++ name ++ "." ++ Database.dbExt options ->
    (Database.dbExtension options = None \/ Database.dbExtension options = Some ""
     \/ Database.dbExtension options = Some "vdb" \/ Database.dbExtension options = Some ".vdb" ->
     is_substring ".vdb" name = false ->
     getCollectionName (Database.collectionPath join options name) = name)
    /\ (forall ext : string,
          Database.dbExtension options = Some ext \/ Database.dbExtension options = Some (String "." ext) ->
          ext <> "" -> is_prefix "." ext = false -> occurs "/" ext = false ->
          is_substring ".vdb" (name ++ "." ++ ext) = false ->
          getCollectionName (Database.collectionPath join options name) = name ++ "." ++ ext).
Proof.
  intros join options name Hname Hjoin; unfold Database.collectionPath; rewrite Hjoin; split.
  - intros Hext Hvdb.
    assert (Hvdb' : Database.dbExt options = "vdb")
      by (unfold Database.dbExt; destruct Hext as [-> | [-> | [-> | ->]]]; reflexivity).
    rewrite Hvdb', getCollectionName_file.
    + change (name ++ "." ++ "vdb") with (name ++ ".vdb").
      rewrite <- (append_empty (name ++ ".vdb")), append_assoc. apply before_first_vdb; exact Hvdb.
    + apply occurs_append; [ exact Hname | reflexivity ].
    + destruct name; discriminate.
  - intros ext Hext Hne Hdot Hslash Hvdb.
    assert (Hext' : Database.dbExt options = ext).
    { unfold Database.dbExt; destruct Hext as [-> | ->].
      - destruct ext as [| c rest]; [ congruence | ].
        cbn [String.eqb negb]; rewrite Hdot; reflexivity.
      - reflexivity. }
    rewrite Hext', getCollectionName_file.
    + apply before_first_absent; exact Hvdb.
    + apply occurs_append; [ exact Hname | cbn [append occurs]; exact Hslash ].
    + destruct name; discriminate.
Qed.

Lemma database_names_its_collections_witness :
  getCollectionName
    (Database.collectionPath Examples.join (Database.mkOptions "database" None) "User") = "User"
  /\ getCollectionName
       (Database.collectionPath Examples.join (Database.mkOptions "database" (Some ".json"))
          "User") = "User" ++ "." ++ "json".
Proof.
  split.
  - exact (proj1 (database_names_its_collections Examples.join
                    (Database.mkOptions "database" None) "User" eq_refl eq_refl)
             (or_introl eq_refl) eq_refl).
  - refine (proj2 (database_names_its_collections Examples.join
                     (Database.mkOptions "database" (Some ".json")) "User" eq_refl eq_refl)
              "json" (or_intror eq_refl) _ eq_refl eq_refl eq_refl).
    discriminate.
Defined.

(** ** Credentials *)

Section Credentials.

Variable scryptSync : string -> string -> nat -> Buffer.
Variable aes256_block : Buffer -> Buffer -> Buffer.

Lemma secretKey_incomplete (info : JsonAdapter.Options) :
  complete info = false -> JsonAdapter.secretKey (Some info) = None.
Proof.
  unfold complete, JsonAdapter.secretKey.
  destruct (JsonAdapter.username info) as [u |], (JsonAdapter.password info) as [p |];
    try reflexivity.
  intros ->; reflexivity.
Qed.

Lemma secretKey_complete (info : JsonAdapter.Options) :
  complete info = true ->
  exists u p, JsonAdapter.secretKey (Some info) = Some (u ++ "PYOJAN" ++ p)
              /\ negb (u ++ "PYOJAN" ++ p =? "") = true.
Proof.
  unfold complete, JsonAdapter.secretKey.
  destruct (JsonAdapter.username info) as [u |], (JsonAdapter.password info) as [p |];
    try discriminate.
  - intros H; rewrite H; exists u, p; split; [ reflexivity | ].
    cbn [JsonAdapter.nonempty] in H; apply andb_true_iff in H as [Hu _].
    destruct u; [ discriminate | reflexivity ].
  - cbn [JsonAdapter.nonempty]; rewrite andb_false_r; discriminate.
Qed.

(** An adapter given one credential only, or an empty one, does not
    encrypt: what it writes is the JSON text itself, and it reads a JSON
    text as an adapter without credentials does. *)
Theorem incomplete_credentials_leave_the_text_in_clear :
  forall (info : JsonAdapter.Options) (iv : Buffer) (data : value) (persisted : string),
    complete info = false ->
    serialize (JsonAdapter.new scryptSync aes256_block (Some info)) iv data = Ok persisted ->
    JSON.stringify data = Some persisted
    /\ deserialize (JsonAdapter.new scryptSync aes256_block (Some info)) persisted
       = JSON.parse persisted.
Proof.
  intros info iv data persisted Hinfo.
  cbn [JsonAdapter.new serialize deserialize].
  unfold JsonAdapter.serialize, JsonAdapter.deserialize.
  rewrite (secretKey_incomplete info Hinfo).
  destruct (negb (typeof data =? "object") || is_null data); [ discriminate | ].
  destruct (JSON.stringify data) as [s |]; [ | discriminate ].
  intros H; injection H as ->; split; reflexivity.
Qed.

Lemma split_colon_piece (s piece : string) :
  exists more rest, split_colon s piece = (string_rev piece ++ more) :: rest.
Proof.
  revert piece; induction s as [| c s IH]; intros piece; cbn [split_colon].
  - exists "", []; rewrite append_empty; reflexivity.
  - destruct (Ascii.eqb c ":").
    + exists "", (split_colon s ""); rewrite append_empty; reflexivity.
    + destruct (IH (String c piece)) as (more & rest & ->).
      exists (String c more), rest.
      unfold string_rev at 1; cbn [string_rev_onto].
      rewrite string_rev_onto_append, append_assoc; reflexivity.
Qed.

Lemma fromHex_not_hex (c : ascii) (tail : string) :
  JSON.hex_value c = None -> fromHex (String c tail) = [].
Proof.
  intros H; destruct tail; cbn [fromHex]; [ reflexivity | rewrite H; reflexivity ].
Qed.

(** [decrypt] of a text whose first character is no hexadecimal digit
    and no colon throws: the initialization vector it reads is empty. *)
Lemma decrypt_no_frame (c : ascii) (tail secret : string) :
  JSON.hex_value c = None -> Ascii.eqb c ":" = false ->
  decrypt scryptSync aes256_block (String c tail) secret = Throw (Error invalid_iv)
  \/ decrypt scryptSync aes256_block (String c tail) secret
     = Throw (Error invalid_buffer_argument).
Proof.
  intros Hc Hcolon; unfold decrypt; cbn [split_colon]; rewrite Hcolon.
  destruct (split_colon_piece tail (String c "")) as (more & rest & ->).
  change (string_rev (String c "") ++ more) with (String c more).
  destruct rest as [| encryptedHex rest]; [ right; reflexivity | left ].
  rewrite (fromHex_not_hex c more Hc); reflexivity.
Qed.

Lemma stringify_object_starts (data : value) (s : string) :
  negb (typeof data =? "object") || is_null data = false ->
  JSON.stringify data = Some s ->
  exists c tail, s = String c tail /\ JSON.hex_value c = None /\ Ascii.eqb c ":" = false.
Proof.
  destruct data as [| | b | n | t | ms | items | props]; try discriminate; intros _ H;
    cbn [JSON.stringify] in H; injection H as <-.
  - unfold JSON.quote, dquote; cbn [append]. eexists _, _; repeat split; reflexivity.
  - cbn [append]. eexists _, _; repeat split; reflexivity.
  - cbn [append]. eexists _, _; repeat split; reflexivity.
Qed.

(** An adapter with both credentials does not read a file that holds a
    JSON text in clear, as an adapter without credentials wrote it: it
    throws, the text being no frame of an initialization vector and a
    ciphertext. *)
Theorem credentials_refuse_a_text_in_clear :
  forall (info : JsonAdapter.Options) (data : value) (s : string),
    complete info = true ->
    negb (typeof data =? "object") || is_null data = false ->
    JSON.stringify data = Some s ->
    deserialize (JsonAdapter.new scryptSync aes256_block (Some info)) s
    = Throw (Error ("Failed to deserialize data in JSONAdapter: " ++ invalid_iv))
    \/ deserialize (JsonAdapter.new scryptSync aes256_block (Some info)) s
       = Throw (Error ("Failed to deserialize data in JSONAdapter: " ++ invalid_buffer_argument)).
Proof.
  intros info data s Hinfo Hobj Hs.
  destruct (secretKey_complete info Hinfo) as (u & p & Hkey & Hne).
  destruct (stringify_object_starts data s Hobj Hs) as (c & tail & -> & Hc & Hcolon).
  cbn [JsonAdapter.new deserialize]; unfold JsonAdapter.deserialize.
  rewrite Hkey, Hne.
  destruct (decrypt_no_frame c tail (u ++ "PYOJAN" ++ p) Hc Hcolon) as [-> | ->];
    [ left | right ]; reflexivity.
Qed.

End Credentials.

Lemma incomplete_credentials_leave_the_text_in_clear_witness :
  JSON.stringify (VArr Examples.people_docs) = Some (Examples.content Examples.people)
  /\ deserialize (JsonAdapter.new Examples.toy_scrypt Examples.toy_block
                    (Some Examples.halfCredentials)) (Examples.content Examples.people)
     = JSON.parse (Examples.content Examples.people).
Proof.
  apply (incomplete_credentials_leave_the_text_in_clear Examples.toy_scrypt Examples.toy_block
           Examples.halfCredentials Examples.iv0 (VArr Examples.people_docs)).
  - reflexivity.
  - vm_compute; reflexivity.
Defined.

Lemma credentials_refuse_a_text_in_clear_witness :
  deserialize Examples.secureAdapter (Examples.content Examples.people)
  = Throw (Error ("Failed to deserialize data in JSONAdapter: " ++ invalid_iv))
  \/ deserialize Examples.secureAdapter (Examples.content Examples.people)
     = Throw (Error ("Failed to deserialize data in JSONAdapter: " ++ invalid_buffer_argument)).
Proof.
  apply (credentials_refuse_a_text_in_clear Examples.toy_scrypt Examples.toy_block
           Examples.credentials (VArr Examples.people_docs)).
  - reflexivity.
  - reflexivity.
  - vm_compute; reflexivity.
Defined.

Lemma length_toHex (bs : Buffer) : String.length (toHex bs) = 2 * List.length bs.
Proof.
  induction bs as [| b rest IH]; cbn [toHex List.length]; [ reflexivity | ].
  unfold hex_of_byte at 1; cbn [append String.length]; rewrite IH; lia.
Qed.

Lemma length_ctr_from (aes256_block : Buffer -> Buffer -> Buffer) (key iv data : Buffer)
  (i : nat) :
  List.length (ctr_from aes256_block key iv i data) = List.length data.
Proof.
  revert i; induction data as [| b rest IH]; intros i; cbn [ctr_from List.length];
    [ reflexivity | rewrite IH; reflexivity ].
Qed.

Lemma length_list_byte_of_string (s : string) :
  List.length (list_byte_of_string s) = String.length s.
Proof.
  unfold list_byte_of_string; rewrite length_map.
  induction s as [| c s IH]; cbn [list_ascii_of_string List.length String.length];
    [ reflexivity | rewrite IH; reflexivity ].
Qed.

Section Frames.

Variable scryptSync : string -> string -> nat -> Buffer.
Variable aes256_block : Buffer -> Buffer -> Buffer.

(** With both credentials, what [serialize] returns is the frame of the
    initialization vector and a ciphertext, both in hexadecimal digits
    and a colon between them; the ciphertext has the length of the JSON
    text, so the frame has 33 characters and two for each character of
    the text. *)
Theorem complete_credentials_write_a_hex_frame :
  forall (info : JsonAdapter.Options) (iv : Buffer) (data : value) (persisted : string),
    complete info = true ->
    serialize (JsonAdapter.new scryptSync aes256_block (Some info)) iv data = Ok persisted ->
    exists (s : string) (ciphertext : Buffer),
      JSON.stringify data = Some s
      /\ persisted = toHex iv ++ ":" ++ toHex ciphertext
      /\ List.length iv = 16
      /\ List.length ciphertext = String.length s
      /\ String.length persisted = 33 + 2 * String.length s.
Proof.
  intros info iv data persisted Hinfo.
  destruct (secretKey_complete info Hinfo) as (u & p & Hkey & Hne).
  cbn [JsonAdapter.new serialize]; unfold JsonAdapter.serialize.
  rewrite Hkey, Hne.
  destruct (negb (typeof data =? "object") || is_null data); [ discriminate | ].
  destruct (JSON.stringify data) as [s |]; [ | discriminate ].
  unfold encrypt, aes_256_ctr.
  destruct (List.length iv =? 16)%nat eqn:Hiv; cbn [bind JsonAdapter.wrap]; [ | discriminate ].
  apply Nat.eqb_eq in Hiv.
  intros H; injection H as <-.
  exists s, (ctr_from aes256_block (scryptSync (u ++ "PYOJAN" ++ p) "salt" 32) iv 0 (utf8_encode s)).
  assert (Hlen : List.length
                   (ctr_from aes256_block (scryptSync (u ++ "PYOJAN" ++ p) "salt" 32) iv 0
                      (utf8_encode s)) = String.length s)
    by (rewrite length_ctr_from; apply length_list_byte_of_string).
  repeat split; try assumption; try reflexivity.
  rewrite !length_append, length_toHex, Hiv; cbn [String.length].
  rewrite length_toHex, length_ctr_from; unfold utf8_encode.
  rewrite length_list_byte_of_string; lia.
Qed.

End Frames.

Lemma complete_credentials_write_a_hex_frame_witness :
  exists (s : string) (ciphertext : Buffer),
    JSON.stringify (VArr Examples.people_docs) = Some s
    /\ Examples.content
         (Examples.after (writeCollectionData Examples.host0 Examples.secureAdapter
                            (VArr Examples.people_docs)) Examples.nothing)
       = toHex (iv_at Examples.host0 Examples.nothing) ++ ":" ++ toHex ciphertext
    /\ List.length (iv_at Examples.host0 Examples.nothing) = 16
    /\ List.length ciphertext = String.length s
    /\ String.length
         (Examples.content
            (Examples.after (writeCollectionData Examples.host0 Examples.secureAdapter
                               (VArr Examples.people_docs)) Examples.nothing))
       = 33 + 2 * String.length s.
Proof.
  apply (complete_credentials_write_a_hex_frame Examples.toy_scrypt Examples.toy_block
           Examples.credentials (iv_at Examples.host0 Examples.nothing)
           (VArr Examples.people_docs)).
  - reflexivity.
  - vm_compute; reflexivity.
Defined.

(** ** Identifiers *)

Lemma hex_digit_char (d : N) : (d < 16)%N -> hex_digit (hex_char d) = d.
Proof.
  intros H.
  assert (Hd : exists n, d = N.of_nat n /\ n < 16) by (exists (N.to_nat d); lia).
  destruct Hd as (n & -> & Hn).
  do 16 (destruct n as [| n]; [ reflexivity | ]). lia.
Qed.

Lemma hex_number_onto (fuel : nat) :
  forall n : N, (n < 16 ^ N.of_nat fuel)%N ->
  exists d : N, forall (acc : string) (a : N),
    hex_number (hex_onto fuel n acc) a = hex_number acc (a * 16 ^ d + n).
Proof.
  induction fuel as [| f IH]; intros n Hn.
  - exists 0%N; intros acc a; cbn [hex_onto]. f_equal. cbn in Hn. lia.
  - cbn [hex_onto]. destruct (n <? 16)%N eqn:E.
    + apply N.ltb_lt in E. exists 1%N; intros acc a; cbn [hex_number].
      rewrite (N.mod_small n 16 E), (hex_digit_char n E). f_equal; lia.
    + apply N.ltb_ge in E.
      assert (Hq : (n / 16 < 16 ^ N.of_nat f)%N).
      { apply N.Div0.div_lt_upper_bound.
        rewrite Nnat.Nat2N.inj_succ, N.pow_succ_r' in Hn. exact Hn. }
      destruct (IH (n / 16)%N Hq) as (d & Hd).
      exists (N.succ d); intros acc a. rewrite Hd; cbn [hex_number].
      rewrite hex_digit_char by (apply N.mod_lt; lia).
      f_equal. rewrite N.pow_succ_r'.
      pose proof (N.div_mod n 16 ltac:(lia)) as Hdm. lia.
Qed.

Lemma hex_number_of_N (n : N) : hex_number (hex_of_N n) 0 = n.
Proof.
  unfold hex_of_N.
  assert (Hn : (n < 16 ^ N.of_nat (S (N.to_nat (N.log2 n))))%N).
  { rewrite Nnat.Nat2N.inj_succ, Nnat.N2Nat.id.
    destruct n as [| p]; [ reflexivity | ].
    destruct (N.log2_spec (Npos p) ltac:(lia)) as [_ H].
    eapply N.lt_le_trans; [ exact H | ].
    apply N.pow_le_mono_l; lia. }
  destruct (hex_number_onto _ n Hn) as (d & Hd).
  rewrite Hd; cbn [hex_number]; lia.
Qed.

Lemma hex_onto_length (k : nat) :
  forall (fuel : nat) (n : N) (acc : string),
    (n < 16 ^ N.of_nat (S k))%N ->
    String.length (hex_onto fuel n acc) <= S k + String.length acc.
Proof.
  induction k as [| k IH]; intros fuel n acc Hn; destruct fuel as [| f]; cbn [hex_onto]; try lia.
  - change (16 ^ N.of_nat 1)%N with 16%N in Hn.
    apply N.ltb_lt in Hn; rewrite Hn; cbn [String.length]; lia.
  - destruct (n <? 16)%N eqn:E; [ cbn [String.length]; lia | ].
    assert (Hq : (n / 16 < 16 ^ N.of_nat (S k))%N).
    { apply N.Div0.div_lt_upper_bound.
      rewrite (Nnat.Nat2N.inj_succ (S k)), N.pow_succ_r' in Hn. exact Hn. }
    pose proof (IH f (n / 16)%N (String (hex_char (n mod 16)) acc) Hq) as H.
    cbn [String.length] in H; lia.
Qed.

Lemma length_string_repeat (c : ascii) (n : nat) : String.length (string_repeat c n) = n.
Proof.
  induction n as [| n IH]; cbn [string_repeat String.length]; [ reflexivity | rewrite IH; reflexivity ].
Qed.

Lemma hex_number_zeros (k : nat) (s : string) :
  hex_number (string_repeat "0" k ++ s) 0 = hex_number s 0.
Proof.
  induction k as [| k IH]; [ reflexivity | exact IH ].
Qed.

(** The counter of an identifier: six digits, read back as the number. *)
Lemma counter_digits (c : Z) :
  (0 <= c < 16777215)%Z ->
  String.length (padStart0 6 (hex_of_Z c)) = 6
  /\ hex_number (padStart0 6 (hex_of_Z c)) 0 = Z.to_N c.
Proof.
  intros Hc.
  assert (Hhex : hex_of_Z c = hex_of_N (Z.to_N c)) by (destruct c; [ reflexivity | reflexivity | lia ]).
  rewrite Hhex; unfold padStart0; split.
  - rewrite length_append, length_string_repeat.
    assert (H : String.length (hex_of_N (Z.to_N c)) <= 6).
    { unfold hex_of_N.
      pose proof (hex_onto_length 5 (S (N.to_nat (N.log2 (Z.to_N c)))) (Z.to_N c) "") as H.
      cbn [String.length] in H; rewrite Nat.add_0_r in H; apply H.
      change (16 ^ N.of_nat 6)%N with 16777216%N. lia. }
    lia.
  - rewrite hex_number_zeros; apply hex_number_of_N.
Qed.

Lemma drop_append (a b : string) : drop (String.length a) (a ++ b) = b.
Proof.
  induction a as [| c a IH]; [ destruct b; reflexivity | exact IH ].
Qed.

Lemma padEnd0_full (s : string) : 24 <= String.length s -> padEnd0 24 s = s.
Proof.
  intros H; unfold padEnd0.
  replace (24 - String.length s) with 0 by lia. apply append_empty.
Qed.

(** The state after a document is created counts one more, within the
    range of the counter. *)
Lemma counter_creating (st : State) :
  (0 <= counter st < 16777215)%Z ->
  counter (creating st) = ((counter st + 1) mod 16777215)%Z
  /\ (0 <= counter (creating st) < 16777215)%Z.
Proof.
  intros H; cbn [creating counter].
  rewrite Z.rem_mod_nonneg by lia.
  split; [ reflexivity | apply Z.mod_pos_bound; lia ].
Qed.

(** The identifier of a regular answer, and the counter read back from
    its last six characters. *)
Lemma newId_counter (host : Host) (st : State) :
  (0 <= counter st < 16777215)%Z ->
  String.length (hex_of_Z (clock host (tick st) / 1000))
  + String.length (random_hex host (S (tick st))) = 18 ->
  String.length (newId host st) = 24
  /\ hex_number (drop 18 (newId host st)) 0 = Z.to_N (counter (creating st)).
Proof.
  intros Hc Hreg.
  destruct (counter_creating st Hc) as [_ Hc'].
  destruct (counter_digits _ Hc') as [Hlen Hnum]. cbn [creating counter] in Hlen, Hnum.
  unfold newId.
  set (ts := hex_of_Z (clock host (tick st) / 1000)) in *.
  set (r := random_hex host (S (tick st))) in *.
  set (c := padStart0 6 (hex_of_Z (Z.rem (counter st + 1) 16777215))) in *.
  assert (Hall : String.length (ts ++ r ++ c) = 24) by (rewrite !length_append; lia).
  rewrite padEnd0_full by lia. split; [ exact Hall | ].
  rewrite <- append_assoc, <- Hreg, <- length_append, drop_append. exact Hnum.
Qed.

Lemma newIds_counters (host : Host) (docs : list value) :
  forall (st : State) (id : string),
    (0 <= counter st < 16777215)%Z ->
    regular host docs st ->
    In id (newIds host docs st) ->
    exists k : Z, (1 <= k <= Z.of_nat (List.length docs))%Z
      /\ hex_number (drop 18 id) 0 = Z.to_N ((counter st + k) mod 16777215)%Z.
Proof.
  induction docs as [| doc rest IH]; intros st id Hc Hreg Hin; [ destruct Hin | ].
  destruct Hreg as [Hreg Hrest].
  destruct (counter_creating st Hc) as [Hnext Hc'].
  destruct Hin as [<- | Hin].
  - exists 1%Z; split; [ cbn [List.length]; lia | ].
    rewrite (proj2 (newId_counter host st Hc Hreg)), Hnext; reflexivity.
  - destruct (IH (creating st) id Hc' Hrest Hin) as (k & Hk & Hid).
    exists (k + 1)%Z; split; [ cbn [List.length]; lia | ].
    rewrite Hid, Hnext. f_equal.
    rewrite Zplus_mod_idemp_l. f_equal; lia.
Qed.

Lemma created_get_id (host : Host) (doc : value) (st : State) :
  distinct (map fst (own_props doc)) = true ->
  lookup "_id" (own_props doc) = None ->
  get (created host doc st) "_id" = Ok (VStr (newId host st)).
Proof.
  intros Hd Hid; unfold created; rewrite get_VObj; unfold operand.
  rewrite !lookup_set_prop_other by discriminate.
  rewrite (lookup_spread _ doc "_id" Hd), Hid; reflexivity.
Qed.

(** The documents created for one batch, none of which brings an [_id],
    have pairwise distinct identifiers of 24 characters, the batch having
    at most 16777215 documents and the host answering with timestamps and
    random parts of the usual lengths: the counter, which the last six
    digits write, is different for each. *)
Theorem batch_identifiers_are_distinct :
  forall (host : Host) (docs : list value) (st : State),
    (0 <= counter st < 16777215)%Z ->
    (Z.of_nat (List.length docs) <= 16777215)%Z ->
    regular host docs st ->
    Forall (fun doc => distinct (map fst (own_props doc)) = true
                       /\ lookup "_id" (own_props doc) = None) docs ->
    Forall2 (fun stored id => get stored "_id" = Ok (VStr id))
      (createdAll host docs st) (newIds host docs st)
    /\ NoDup (newIds host docs st)
    /\ Forall (fun id => String.length id = 24) (newIds host docs st).
Proof.
  intros host docs; induction docs as [| doc rest IH]; intros st Hc Hlen Hreg Hdocs;
    [ repeat split; constructor | ].
  destruct Hreg as [Hreg Hrest].
  destruct (counter_creating st Hc) as [Hnext Hc'].
  cbn [List.length] in Hlen.
  inversion Hdocs as [| ? ? [Hd Hid] Hdocs']; subst.
  destruct (IH (creating st) Hc' ltac:(lia) Hrest Hdocs') as (Hstored & Hnd & Hall).
  destruct (newId_counter host st Hc Hreg) as [Hlen24 Hnum].
  cbn [newIds createdAll]; split; [ | split ].
  - constructor; [ exact (created_get_id host doc st Hd Hid) | exact Hstored ].
  - constructor; [ | exact Hnd ].
    intros Hin.
    destruct (newIds_counters host rest (creating st) _ Hc' Hrest Hin) as (k & Hk & Hkid).
    rewrite Hnum in Hkid.
    apply Z2N.inj in Hkid; [ | lia | apply Z.mod_pos_bound; lia ].
    set (c := counter (creating st)) in *.
    destruct (Z_lt_ge_dec (c + k) 16777215) as [Hsmall | Hbig].
    + rewrite Z.mod_small in Hkid by lia. lia.
    + assert (H : ((c + k) mod 16777215 = c + k - 16777215)%Z)
        by (symmetry; apply (Z.mod_unique_pos _ _ 1); lia).
      lia.
  - constructor; assumption.
Qed.

Lemma batch_identifiers_are_distinct_witness :
  Forall2 (fun stored id => get stored "_id" = Ok (VStr id))
    (createdAll Examples.host0 [Examples.person "B" 40; Examples.person "C" 41] Examples.people)
    (newIds Examples.host0 [Examples.person "B" 40; Examples.person "C" 41] Examples.people)
  /\ NoDup (newIds Examples.host0 [Examples.person "B" 40; Examples.person "C" 41]
              Examples.people)
  /\ Forall (fun id => String.length id = 24)
       (newIds Examples.host0 [Examples.person "B" 40; Examples.person "C" 41] Examples.people).
Proof.
  apply (batch_identifiers_are_distinct Examples.host0
           [Examples.person "B" 40; Examples.person "C" 41] Examples.people).
  - vm_compute; split; [ discriminate | reflexivity ].
  - vm_compute; discriminate.
  - cbn [regular]; repeat split; vm_compute; reflexivity.
  - repeat constructor.
Defined.
